(** * horned-pony: a preforking HTTP/1.0 WSGI server, [horned.py]

    A shallow embedding of the request path of [horned.py] (the URL
    unquoter, the HTTP date formatter, the buffered [IOStream], the
    request parser, the response driver and the worker accept loop),
    followed by the properties established about it.

    Conventions of the embedding.
    - A Python 2 [str] is a byte string; it is a [string] here, one
      [ascii] per byte.
    - A [dict] is a [gmap]; the WSGI environment maps [string] keys to
      the tagged values of [value].
    - Code that raises returns [Raise e s]: the exception together with
      the state as the code left it, which is what an enclosing
      [except] or [finally] clause goes on with.
    - The outside world (the peer of a socket, the clock, the signals,
      the hosted application) appears as data: the chunks successive
      [recv] calls return, the broken-down time [gmtime] returns, the
      events of the accept loop, the calls an application makes. *)

From Stdlib Require Import Ascii String ZArith Lia.
From stdpp Require Import gmap strings list.

Local Open Scope Z_scope.

(** ** Python string methods *)

Module PyStr.

Definition len (s : string) : nat := String.length s.

(** [s.startswith(p)] *)
Fixpoint startswith (p s : string) : bool :=
  match p, s with
  | EmptyString, _ => true
  | String a p', String b s' =>
      if decide (a = b) then startswith p' s' else false
  | String _ _, EmptyString => false
  end.

(** The lowest index at which [sub] occurs in [s], if any. *)
Fixpoint index (sub s : string) : option nat :=
  if startswith sub s then Some 0%nat
  else match s with
       | EmptyString => None
       | String _ s' => S <$> index sub s'
       end.

(** [s.find(sub)]: the lowest index, or -1. *)
Definition find (s sub : string) : Z :=
  match index sub s with
  | Some i => Z.of_nat i
  | None => -1
  end.

(** [sub in s] *)
Definition contains (sub s : string) : bool :=
  match index sub s with Some _ => true | None => false end.

(** [s[:n]] and [s[n:]] for [n >= 0]. *)
Fixpoint take (n : nat) (s : string) : string :=
  match n, s with
  | S n', String a s' => String a (take n' s')
  | _, _ => EmptyString
  end.

Fixpoint drop (n : nat) (s : string) : string :=
  match n, s with
  | S n', String _ s' => drop n' s'
  | _, _ => s
  end.

(** [s.partition(sep)] for a non-empty [sep]: [(before, sep, after)]
    around the first occurrence, or [(s, "", "")]. *)
Definition partition (s sep : string) : string * string * string :=
  match index sep s with
  | Some i => (take i s, sep, drop (i + len sep) s)
  | None => (s, EmptyString, EmptyString)
  end.

(** [s.split(sep, maxsplit)] for a non-empty [sep]. *)
Fixpoint split_max (maxsplit : nat) (s sep : string) : list string :=
  match maxsplit with
  | O => [s]
  | S m =>
      match index sep s with
      | Some i => take i s :: split_max m (drop (i + len sep) s) sep
      | None => [s]
      end
  end.

(** [s.split(sep)]: no limit. A split consumes at least one byte of
    [s], so [len s] splits are never exceeded (see [split_max_enough]). *)
Definition split (s sep : string) : list string :=
  split_max (len s) s sep.

Definition map_chars (f : ascii -> ascii) : string -> string :=
  fix go s :=
    match s with
    | EmptyString => EmptyString
    | String a s' => String (f a) (go s')
    end.

Definition upper_char (a : ascii) : ascii :=
  let n := nat_of_ascii a in
  if ((97 <=? n) && (n <=? 122))%nat then ascii_of_nat (n - 32) else a.

Definition lower_char (a : ascii) : ascii :=
  let n := nat_of_ascii a in
  if ((65 <=? n) && (n <=? 90))%nat then ascii_of_nat (n + 32) else a.

(** [s.upper()], [s.lower()] (the C locale: ASCII letters only). *)
Definition upper : string -> string := map_chars upper_char.
Definition lower : string -> string := map_chars lower_char.

(** [s.replace(old, new)] for one-byte [old] and [new]. *)
Definition replace_char (old new : ascii) : string -> string :=
  map_chars (fun a => if decide (a = old) then new else a).

(** [s.lstrip()], [s.rstrip()], [s.strip()]: white space is
    [" \t\n\v\f\r"]. *)
Fixpoint lstrip (s : string) : string :=
  match s with
  | EmptyString => EmptyString
  | String a s' => if Ascii.is_space a then lstrip s' else s
  end.

Fixpoint rstrip (s : string) : string :=
  match s with
  | EmptyString => EmptyString
  | String a s' =>
      match rstrip s' with
      | EmptyString => if Ascii.is_space a then EmptyString
                       else String a EmptyString
      | r => String a r
      end
  end.

Definition strip (s : string) : string := rstrip (lstrip s).

(** [chr(i)] *)
Definition chr (i : nat) : string := String (ascii_of_nat i) EmptyString.

(** [str(n)] and ["%d" % n] for [n >= 0]: the digits from the last to
    the first. A number has no more than [n + 1] digits (see
    [decimal_go_enough]). *)
Definition digit (n : nat) : ascii := ascii_of_nat (48 + n).

Fixpoint decimal_go (fuel n : nat) (acc : string) : string :=
  match fuel with
  | O => acc
  | S fuel' =>
      let acc' := String (digit (n mod 10)) acc in
      if (n / 10 =? 0)%nat then acc' else decimal_go fuel' (n / 10) acc'
  end.

Definition decimal (n : nat) : string := decimal_go (S n) n EmptyString.

(** Left padding to a minimal width, as the ["%02d"], ["%4d"] and
    ["%3s"] conversions do. *)
Fixpoint repeat_char (a : ascii) (n : nat) : string :=
  match n with
  | O => EmptyString
  | S n' => String a (repeat_char a n')
  end.

Definition lpad (fill : ascii) (width : nat) (s : string) : string :=
  repeat_char fill (width - len s) +:+ s.

(** ["".join(l)] *)
Definition concat (l : list string) : string :=
  foldr String.append EmptyString l.

End PyStr.

(** ** [charfromhex] and [urlunquote] *)

Definition hex_lower : list ascii :=
  ["0"; "1"; "2"; "3"; "4"; "5"; "6"; "7";
   "8"; "9"; "a"; "b"; "c"; "d"; "e"; "f"]%char.

Definition hex_upper : list ascii :=
  ["0"; "1"; "2"; "3"; "4"; "5"; "6"; "7";
   "8"; "9"; "A"; "B"; "C"; "D"; "E"; "F"]%char.

(** ["%02x" % i] and ["%02X" % i] for [i] in [xrange(256)]: two digits. *)
Definition format_02 (digits : list ascii) (i : nat) : string :=
  String (nth (i / 16) digits "0"%char)
    (String (nth (i mod 16) digits "0"%char) EmptyString).

Definition format_02x : nat -> string := format_02 hex_lower.
Definition format_02X : nat -> string := format_02 hex_upper.

(** The module-level loop
    [for i in xrange(256):
         charfromhex["%02x" % i] = charfromhex["%02X" % i] = chr(i)]. *)
Definition charfromhex : gmap string string :=
  foldl (fun table i =>
           <[format_02X i := PyStr.chr i]>
             (<[format_02x i := PyStr.chr i]> table))
        ∅ (seq 0 256).

(** The [while "%" in quoted] loop of [urlunquote]. Each round removes
    at least the ["%"] from [quoted], so [len quoted] rounds suffice;
    [None] is the loop running out of [fuel]. *)
Fixpoint urlunquote_loop (fuel : nat) (quoted unquoted : string)
  : option string :=
  if PyStr.contains "%" quoted then
    match fuel with
    | O => None
    | S fuel' =>
        let '(before, _, after) := PyStr.partition quoted "%" in
        let code := PyStr.take 2 after in
        let quoted := PyStr.drop 2 after in
        urlunquote_loop fuel' quoted
          (unquoted +:+ (before +:+ default ("%" +:+ code) (charfromhex !! code)))
    end
  else Some (unquoted +:+ quoted).

Definition urlunquote_run (quoted : string) : option string :=
  urlunquote_loop (PyStr.len quoted) quoted "".

(** [urlunquote(quoted)]. The loop always ends within its fuel
    ([urlunquote_run_total]), so the default is never returned. *)
Definition urlunquote (quoted : string) : string :=
  default quoted (urlunquote_run quoted).

(** ** Exceptions and the state-and-exception monad *)

(** [sys.exc_info()]-style triple handed to [start_response]; the
    traceback is not modelled. *)
Record exc_info := ExcInfo { exc_type : string; exc_value : string }.

Inductive exn :=
| ValueError
| TypeError
| AttributeError (attr : string)
| NameError (name : string)
| ImportError (name : string)
| SocketError (errno : Z)            (* [socket.error] *)
| AppError (e : exc_info)            (* raised by or into the application *)
| SystemExit (code : Z).

Definition EINTR : Z := 4.
Definition EBADF : Z := 9.
Definition EPIPE : Z := 32.

Inductive result (S A : Type) :=
| Ok (a : A) (s : S)
| Raise (e : exn) (s : S).
Arguments Ok {S A} a s.
Arguments Raise {S A} e s.

Definition state_of {S A} (r : result S A) : S :=
  match r with Ok _ s => s | Raise _ s => s end.

Definition M (S A : Type) : Type := S -> result S A.

Definition ret {S A} (a : A) : M S A := fun s => Ok a s.

Definition bind {S A B} (m : M S A) (k : A -> M S B) : M S B :=
  fun s => match m s with
           | Ok a s' => k a s'
           | Raise e s' => Raise e s'
           end.

Definition raise {S A} (e : exn) : M S A := fun s => Raise e s.
Definition gets {S A} (f : S -> A) : M S A := fun s => Ok (f s) s.
Definition modify {S} (f : S -> S) : M S unit := fun s => Ok tt (f s).

(** Run a computation on a component of the state. *)
Definition zoom {S T A} (get : S -> T) (set : T -> S -> S) (m : M T A)
  : M S A :=
  fun s => match m (get s) with
           | Ok a t => Ok a (set t s)
           | Raise e t => Raise e (set t s)
           end.

Declare Scope monad_scope.
Delimit Scope monad_scope with monad.
Notation "x <- m ;; k" := (bind m (fun x => k))
  (at level 100, m at next level, right associativity) : monad_scope.
Notation "m ;; k" := (bind m (fun _ => k))
  (at level 100, right associativity) : monad_scope.
Local Open Scope monad_scope.

(** ** [http_date] *)

(** What [time.gmtime] returns, as far as [http_date] reads it. *)
Record struct_time := StructTime {
  tm_year : nat; tm_mon : nat; tm_mday : nat;
  tm_hour : nat; tm_min : nat; tm_sec : nat;
  tm_wday : nat
}.

Definition HTTP_WDAY : list string :=
  ["Mon"; "Tue"; "Wed"; "Thu"; "Fri"; "Sat"; "Sun"].

Definition HTTP_MONTH : list (option string) :=
  [None; Some "Jan"; Some "Feb"; Some "Mar"; Some "Apr"; Some "May";
   Some "Jun"; Some "Jul"; Some "Aug"; Some "Sep"; Some "Oct"; Some "Nov";
   Some "Dec"].

(** ["%s" % x] for [x] a string or [None]. *)
Definition str_of (x : option string) : string := default "None" x.

Definition fmt_02d (n : nat) : string := PyStr.lpad "0" 2 (PyStr.decimal n).
Definition fmt_4d (n : nat) : string := PyStr.lpad " " 4 (PyStr.decimal n).
Definition fmt_3s (s : string) : string := PyStr.lpad " " 3 s.

(** [http_date()], given the broken-down current GMT time. [gmtime]
    returns [tm_wday] in 0..6 and [tm_mon] in 1..12, so both tuple
    lookups are in range. *)
Definition http_date (now : struct_time) : string :=
  default "" (HTTP_WDAY !! tm_wday now) +:+ ", " +:+
  fmt_02d (tm_mday now) +:+ " " +:+
  fmt_3s (str_of (default None (HTTP_MONTH !! tm_mon now))) +:+ " " +:+
  fmt_4d (tm_year now) +:+ " " +:+
  fmt_02d (tm_hour now) +:+ ":" +:+
  fmt_02d (tm_min now) +:+ ":" +:+
  fmt_02d (tm_sec now) +:+ " GMT".

(** ** Sockets and [IOStream] *)

(** A connected socket, seen from the server: what the successive
    [recv] calls are going to return (the empty list is a closed peer:
    [recv] returns [""]), the bytes [sendall] has delivered so far,
    whether [close()] was called, and the error [sendall] fails with,
    if the connection is broken. *)
Record Socket := MkSocket {
  inbox : list string;
  outbox : string;
  closed : bool;
  send_error : option Z
}.

Module Sock.

Definition recv (sock : Socket) : string * Socket :=
  match inbox sock with
  | [] => (EmptyString, sock)
  | chunk :: rest =>
      (chunk, MkSocket rest (outbox sock) (closed sock) (send_error sock))
  end.

Definition sendall (data : string) : M Socket unit :=
  fun sock =>
    match send_error sock with
    | Some errno => Raise (SocketError errno) sock
    | None =>
        Ok tt (MkSocket (inbox sock) (outbox sock +:+ data)
                        (closed sock) (send_error sock))
    end.

Definition close (sock : Socket) : Socket :=
  MkSocket (inbox sock) (outbox sock) true (send_error sock).

Definition set_inbox (l : list string) (sock : Socket) : Socket :=
  MkSocket l (outbox sock) (closed sock) (send_error sock).

(** The bytes the peer sends before it closes: the chunks up to the
    first empty one, which is how [recv] reports end of stream. *)
Fixpoint pending (chunks : list string) : string :=
  match chunks with
  | [] => ""
  | chunk :: rest =>
      if decide (chunk = "") then "" else chunk +:+ pending rest
  end.

End Sock.

Module IOStream.

(** Buffered file-like wrapper for sockets. *)
Record t := Mk {
  socket : Socket;
  read_buffer : string;
  write_buffer : string
}.

(** [IOStream(socket)] *)
Definition new (sock : Socket) : t := Mk sock "" "".

Definition set_socket (sock : Socket) (st : t) : t :=
  Mk sock (read_buffer st) (write_buffer st).

(** The receive loops. Each calls [recv] once per round; they are
    written by recursion on the chunks [recv] is going to return and
    give back the chunks left and the buffer. An empty chunk is what
    [recv] returns at end of stream: the loop breaks. *)

(** [while True: chunk = recv(4096); if not chunk: break; buf += chunk] *)
Fixpoint recv_all (chunks : list string) (buf : string)
  : list string * string :=
  match chunks with
  | [] => ([], buf)
  | chunk :: rest =>
      if decide (chunk = "") then (rest, buf)
      else recv_all rest (buf +:+ chunk)
  end.

(** [while len(buf) < size: ...] *)
Fixpoint recv_size (size : nat) (chunks : list string) (buf : string)
  : list string * string :=
  if (PyStr.len buf <? size)%nat then
    match chunks with
    | [] => ([], buf)
    | chunk :: rest =>
        if decide (chunk = "") then (rest, buf)
        else recv_size size rest (buf +:+ chunk)
    end
  else (chunks, buf).

(** [while delimiter not in buf: ...] *)
Fixpoint recv_until (delimiter : string) (chunks : list string)
  (buf : string) : list string * string :=
  if PyStr.contains delimiter buf then (chunks, buf)
  else
    match chunks with
    | [] => ([], buf)
    | chunk :: rest =>
        if decide (chunk = "") then (rest, buf)
        else recv_until delimiter rest (buf +:+ chunk)
    end.

(** [read(size=-1)] *)
Definition read (size : Z) : M t string :=
  fun st =>
    if (size <? 0)%Z then
      let '(rest, buf) := recv_all (inbox (socket st)) (read_buffer st) in
      Ok buf (Mk (Sock.set_inbox rest (socket st)) "" (write_buffer st))
    else
      let n := Z.to_nat size in
      let '(rest, buf) :=
        recv_size n (inbox (socket st)) (read_buffer st) in
      Ok (PyStr.take n buf)
         (Mk (Sock.set_inbox rest (socket st)) (PyStr.drop n buf)
             (write_buffer st)).

(** [read_until(delimiter)] *)
Definition read_until (delimiter : string) : M t string :=
  fun st =>
    let '(rest, buf) :=
      recv_until delimiter (inbox (socket st)) (read_buffer st) in
    let st' := Mk (Sock.set_inbox rest (socket st)) buf (write_buffer st) in
    let index := PyStr.find buf delimiter in
    if negb (0 <? index)%Z then Raise ValueError st'
    else
      let upto := Z.to_nat (index + Z.of_nat (PyStr.len delimiter)) in
      Ok (PyStr.take upto buf)
         (Mk (socket st') (PyStr.drop upto buf) (write_buffer st')).

(** [readline()] *)
Definition readline : M t string :=
  fun st =>
    match read_until (String "010" "") st with
    | Ok line st' => Ok line st'
    | Raise ValueError st' => Ok "" st'
    | Raise e st' => Raise e st'
    end.

(** [write(data)] *)
Definition write (data : string) : M t unit :=
  modify (fun st => Mk (socket st) (read_buffer st) (write_buffer st +:+ data)).

(** [writelines(lines)] *)
Fixpoint writelines (lines : list string) : M t unit :=
  match lines with
  | [] => ret tt
  | line :: rest => write line ;; writelines rest
  end.

(** [flush()]: [sendall] of the write buffer, then the buffer is
    emptied; when [sendall] raises, the assignment is not reached. *)
Definition flush : M t unit :=
  (data <- gets write_buffer ;;
   zoom socket set_socket (Sock.sendall data) ;;
   modify (fun st => Mk (socket st) (read_buffer st) ""))%monad.

(** [close()] *)
Definition close : M t unit := flush.

(** All the bytes the stream is going to read: its buffer, then what
    the peer sends before closing. *)
Definition readable (st : t) : string :=
  read_buffer st +:+ Sock.pending (inbox (socket st)).

(** Every byte written to the stream so far, in order: those already
    handed to the socket, then those still in the write buffer. *)
Definition wire (st : t) : string := outbox (socket st) +:+ write_buffer st.

(** [next()]: the next line, or [None] for [StopIteration]. *)
Definition next : M t (option string) :=
  line <- readline ;;
  ret (if decide (line = "") then None else Some line).

(** [list(self)]: [next()] until it raises [StopIteration]. A line
    that is returned is at least two bytes of what the stream can
    read, so [len (readable st)] rounds suffice (see
    [iterate_enough]); [None] is the loop running out of [fuel]. *)
Fixpoint iterate (fuel : nat) (lines : list string) (st : t)
  : option (result t (list string)) :=
  match next st with
  | Ok (Some line) st' =>
      match fuel with
      | O => None
      | S fuel' => iterate fuel' (lines ++ [line]) st'
      end
  | Ok None st' => Some (Ok lines st')
  | Raise e st' => Some (Raise e st')
  end.

(** [readlines()] *)
Definition readlines : M t (list string) :=
  fun st => default (Ok [] st) (iterate (PyStr.len (readable st)) [] st).

End IOStream.

(** ** The WSGI side: environment, application, configuration *)

Definition CRLF : string := String "013" (String "010" "").

(** The values a WSGI environment holds. *)
Inductive value :=
| VStr (s : string)
| VBool (b : bool)
| VVersion (major minor : Z)     (* [wsgi.version] *)
| VErrors                        (* [sys.stderr] *)
| VInput.                        (* the request's [IOStream] *)

Abbreviation environ := (gmap string value).
Abbreviation header := (string * string)%type.

(** What an application does, as the server sees it: calls of
    [start_response], calls of the write sink [start_response]
    returned, exceptions. *)
Inductive app_op :=
| CallStartResponse (status : string) (response_headers : list header)
                    (exc : option exc_info)
| CallWrite (data : string)
| RaiseExc (e : exc_info).

(** One [next()] of the returned iterable runs application code up to
    the next [yield]: a generator is the sequence of what it does and
    what it yields, and ends with [StopIteration]. *)
Inductive gen_step :=
| Yield (chunk : string)
| Do (op : app_op).

Record iterable := Iterable {
  steps : list gen_step;
  has_close : bool                (* [hasattr(it, "close")] *)
}.

(** A list is an iterable that yields its items and has no [close]. *)
Definition iter_list (l : list string) : iterable :=
  Iterable (Yield <$> l) false.

(** [app(environ, start_response)]: what the call does before it
    returns, and the iterable it returns. *)
Record app_run := AppRun {
  call_ops : list app_op;
  returned : iterable
}.

Definition application : Type := environ -> app_run.

(** [demo_app] *)
Definition demo_app : application := fun _ =>
  AppRun [CallStartResponse "200 OK" [("Content-Type", "text/html")] None]
         (iter_list
            ["<html><head><title>Hello world!</title></head>" +:+
             "<body><h1>Hello world!</h1></body></html>" +:+
             String "010" (String "010" "")]).

Inductive app_ref :=
| AppCallable (a : application)
| AppName (name : string).        (* "my_module.my_object" *)

Record Config := MkConfig {
  cfg_application : app_ref;
  cfg_listen_port : nat;
  cfg_worker_processes : nat;
  cfg_access_log : bool;            (* truth value of the configured sink *)
  cfg_real_ip_header : option string
}.

(** Peer address as [accept] returns it: a [(host, port)] pair for
    [AF_INET], a path string for [AF_UNIX]. *)
Inductive address :=
| AddrInet (host : string) (port : nat)
| AddrUnix (path : string).

Inductive log_entry :=
| LogInfo (msg : string)
| LogError (msg : string)
| LogRequest (client : value) (request : string) (status : string)
             (length : nat).

(** ** [HornedWorkerProcess] *)

Module HornedWorkerProcess.

(** The instance, and with it what the worker process sees of the
    world: the clock and the log. [stream] and [headers_sent] are
    assigned by [handle_request] before anything reads them. *)
Record t := Mk {
  config : Config;
  app : application;
  access_log : bool;
  alive : bool;
  requests : nat;
  errors : nat;
  wpipe : string;                 (* bytes written to the self-pipe *)
  baseenv : environ;
  stream : IOStream.t;
  headers_sent : bool;
  clock : struct_time;            (* [time.gmtime()] *)
  logged : list log_entry;
  close_calls : nat               (* [close()] calls on returned iterables *)
}.

Definition set_stream (s : IOStream.t) (w : t) : t :=
  Mk (config w) (app w) (access_log w) (alive w) (requests w) (errors w)
     (wpipe w) (baseenv w) s (headers_sent w) (clock w) (logged w)
     (close_calls w).

Definition set_headers_sent (b : bool) (w : t) : t :=
  Mk (config w) (app w) (access_log w) (alive w) (requests w) (errors w)
     (wpipe w) (baseenv w) (stream w) b (clock w) (logged w)
     (close_calls w).

Definition set_alive (b : bool) (w : t) : t :=
  Mk (config w) (app w) (access_log w) b (requests w) (errors w)
     (wpipe w) (baseenv w) (stream w) (headers_sent w) (clock w)
     (logged w) (close_calls w).

Definition set_requests (n : nat) (w : t) : t :=
  Mk (config w) (app w) (access_log w) (alive w) n (errors w)
     (wpipe w) (baseenv w) (stream w) (headers_sent w) (clock w)
     (logged w) (close_calls w).

Definition set_errors (n : nat) (w : t) : t :=
  Mk (config w) (app w) (access_log w) (alive w) (requests w) n
     (wpipe w) (baseenv w) (stream w) (headers_sent w) (clock w)
     (logged w) (close_calls w).

Definition set_wpipe (p : string) (w : t) : t :=
  Mk (config w) (app w) (access_log w) (alive w) (requests w) (errors w)
     p (baseenv w) (stream w) (headers_sent w) (clock w)
     (logged w) (close_calls w).

Definition log (e : log_entry) (w : t) : t :=
  Mk (config w) (app w) (access_log w) (alive w) (requests w) (errors w)
     (wpipe w) (baseenv w) (stream w) (headers_sent w) (clock w)
     (logged w ++ [e]) (close_calls w).

Definition count_close (w : t) : t :=
  Mk (config w) (app w) (access_log w) (alive w) (requests w) (errors w)
     (wpipe w) (baseenv w) (stream w) (headers_sent w) (clock w)
     (logged w) (S (close_calls w)).

(** A stream method called on [self.stream]. *)
Definition on_stream {A} (m : M IOStream.t A) : M t A :=
  zoom stream set_stream m.

(** *** [__init__] *)

(** The names [getattr] resolves on the instance half way through
    [__init__]: the attributes assigned so far, the methods of the
    class, the attributes of [object]. *)
Definition class_methods : list string :=
  ["__init__"; "run"; "die_gracefully"; "die_immediately";
   "handle_request"; "parse_request"; "execute_request";
   "send_headers"; "send_response"].

Definition object_attributes : list string :=
  ["__class__"; "__delattr__"; "__dict__"; "__doc__"; "__format__";
   "__getattribute__"; "__hash__"; "__init__"; "__module__"; "__new__";
   "__reduce__"; "__reduce_ex__"; "__repr__"; "__setattr__";
   "__sizeof__"; "__str__"; "__subclasshook__"; "__weakref__"].

Definition has_attribute (assigned : list string) (name : string) : bool :=
  bool_decide (name ∈ assigned ++ class_methods ++ object_attributes).

Section Init.

(** [get_app(name)]: the import of a dotted name, which this file
    does not decide. *)
Variable get_app : string -> exn + application.

(** What calling an attribute that does exist, with one string
    argument, evaluates to (as a truth value) or raises. *)
Variable call_attribute : string -> string -> exn + bool.

(** [HornedWorkerProcess(sock, config)], in a process whose
    environment is [os_environ], on the host [hostname], with the
    listening socket bound to [port]. *)
Definition __init__ (port : nat) (cfg : Config)
  (os_environ : gmap string string) (hostname : string)
  (now : struct_time) : exn + t :=
  (* self.sock = sock; self.config = config *)
  (* self.app = self.config.get("application") ... get_app(self.app) *)
  match (match cfg_application cfg with
         | AppCallable a => inr a
         | AppName name => get_app name
         end) with
  | inl e => inl e
  | inr the_app =>
      (* self.access_log = self.get("access_log") *)
      if has_attribute ["sock"; "config"; "app"] "get" then
        match call_attribute "get" "access_log" with
        | inl e => inl e
        | inr the_access_log =>
            let env : environ :=
              <["wsgi.run_once" := VBool false]>
              (<["wsgi.multiprocess" := VBool true]>
              (<["wsgi.multithread" := VBool false]>
              (<["wsgi.errors" := VErrors]>
              (<["wsgi.url_scheme" := VStr "http"]>
              (<["wsgi.version" := VVersion 1 0]>
              (<["SCRIPT_NAME" := VStr ""]>
              (<["SERVER_PORT" := VStr (PyStr.decimal port)]>
              (<["SERVER_NAME" := VStr hostname]>
              (VStr <$> os_environ))))))))) in
            inr (Mk cfg the_app the_access_log true 0 0 "" env
                    (IOStream.new (MkSocket [] "" true None)) false
                    now [] 0)
        end
      else inl (AttributeError "get")
  end.

End Init.

(** *** [parse_request] *)

(** [client_address and client_address[0] or ""] *)
Definition remote_addr (client_address : address) : string :=
  match client_address with
  | AddrInet host _ => host
  | AddrUnix path => PyStr.take 1 path
  end.

(** The loop over [lines[1:]]. *)
Fixpoint parse_headers (lines : list string) (env : environ) : environ :=
  match lines with
  | [] => env
  | line :: rest =>
      if decide (line = "") then env
      else
        let '(key, _, value) := PyStr.partition line ":" in
        let key := PyStr.upper (PyStr.replace_char "-" "_" key) in
        let value := PyStr.strip value in
        parse_headers rest (<["HTTP_" +:+ key := VStr value]> env)
  end.

Definition parse_request (client_address : address)
  : M t (string * environ) :=
  header_data <- on_stream (IOStream.read_until (CRLF +:+ CRLF)) ;;
  let lines := PyStr.split header_data CRLF in
  let reqline := hd "" lines in
  match PyStr.split_max 2 reqline " " with
  | [method; path; protocol] =>
      env <- gets baseenv ;;
      let env := <["REQUEST_METHOD" := VStr method]> env in
      let env := <["SERVER_PROTOCOL" := VStr protocol]> env in
      let env := <["REMOTE_ADDR" := VStr (remote_addr client_address)]> env in
      let '(path, env) :=
        if PyStr.contains "?" path then
          let '(path, _, query) := PyStr.partition path "?" in
          (path, <["QUERY_STRING" := VStr query]> env)
        else (path, env) in
      let env := <["PATH_INFO" := VStr (urlunquote path)]> env in
      let env := <["wsgi.input" := VInput]> env in
      let env := parse_headers (tail lines) env in
      cfg <- gets config ;;
      let env :=
        match cfg_real_ip_header cfg with
        | Some real_ip_header =>
            match env !! real_ip_header with
            | Some v => <["REMOTE_ADDR" := v]> env
            | None => env
            end
        | None => env
        end in
      ret (reqline, env)
  | _ => raise ValueError     (* too few values to unpack *)
  end.

(** *** [execute_request] and the response driver *)

(** The locals of [execute_request] that [start_response] closes
    over: the list [response = [None, [], data]] and the list [data]
    it shares. *)
Record Locals := MkLocals {
  response_status : option string;       (* [response[0]] *)
  response_headers : list header;        (* [response[1]] *)
  data : list string
}.

(** [data.append], the write sink. *)
Definition data_append (bytes : string) (l : Locals) : Locals :=
  MkLocals (response_status l) (response_headers l) (data l ++ [bytes]).

(** The closure [start_response(status, response_headers, exc_info)]. *)
Definition start_response (status : string) (headers : list header)
  (exc : option exc_info) (l : Locals)
  : M t ((string -> Locals -> Locals) * Locals) :=
  match exc with
  | Some e =>
      sent <- gets headers_sent ;;
      if sent then raise (AppError e) else ret tt
  | None => ret tt
  end ;;
  (* response[0:2] = [status, response_headers] *)
  ret (data_append, MkLocals (Some status) headers (data l)).

(** Application code running: each operation acts on the locals it
    reaches through the closure; an exception is not caught by the
    application and comes out of it. *)
Definition run_op (op : app_op) (l : Locals) : M t Locals :=
  match op with
  | CallStartResponse status headers exc =>
      r <- start_response status headers exc l ;; ret (snd r)
  | CallWrite bytes => ret (data_append bytes l)
  | RaiseExc e => raise (AppError e)
  end.

Fixpoint run_ops (ops : list app_op) (l : Locals) : M t Locals :=
  match ops with
  | [] => ret l
  | op :: rest => l' <- run_op op l ;; run_ops rest l'
  end.

(** The loop [for header in headers] of [send_headers]. *)
Fixpoint write_headers (headers : list header) : M IOStream.t unit :=
  match headers with
  | [] => ret tt
  | h :: rest =>
      (if bool_decide (PyStr.lower (fst h) ∈ ["connection"; "date"])
       then ret tt
       else IOStream.write (fst h +:+ ": " +:+ snd h +:+ CRLF)) ;;
      write_headers rest
  end.

(** [send_headers(status, headers)] *)
Definition send_headers (status : option string) (headers : list header)
  : M t unit :=
  sent <- gets headers_sent ;;
  if negb sent then
    now <- gets clock ;;
    on_stream (IOStream.write ("HTTP/1.0 " +:+ str_of status +:+ CRLF)) ;;
    on_stream (IOStream.write ("Date: " +:+ http_date now +:+ CRLF)) ;;
    on_stream (write_headers headers) ;;
    on_stream (IOStream.write ("Connection: close" +:+ CRLF)) ;;
    on_stream (IOStream.write CRLF) ;;
    modify (set_headers_sent true) ;;
    on_stream IOStream.flush
  else ret tt.

(** The inner loop [for chunk in chunks] of [send_response], over
    what the iterable does; [length] is the running total. *)
Fixpoint for_chunk (status : option string) (headers : list header)
  (todo : list gen_step) (length : nat) (l : Locals)
  : M t (nat * Locals) :=
  match todo with
  | [] => ret (length, l)
  | Do op :: rest =>
      l' <- run_op op l ;;
      for_chunk status headers rest length l'
  | Yield chunk :: rest =>
      sent <- gets headers_sent ;;
      (if negb sent then send_headers status headers else ret tt) ;;
      on_stream (IOStream.write chunk) ;;
      for_chunk status headers rest (length + PyStr.len chunk) l
  end.

(** The outer loop [for chunks in [data, chunks, [""]]]. Its variable
    is the parameter [chunks]: every round rebinds it, and the loop
    returns the binding it ends with. *)
Fixpoint for_chunks (status : option string) (headers : list header)
  (sources : list iterable) (chunks : iterable) (length : nat)
  (l : Locals) : M t (iterable * nat * Locals) :=
  match sources with
  | [] => ret (chunks, length, l)
  | source :: rest =>
      let chunks := source in
      r <- for_chunk status headers (steps chunks) length l ;;
      for_chunks status headers rest chunks (fst r) (snd r)
  end.

(** [send_response(status, headers, chunks, data)] *)
Definition send_response (status : option string) (headers : list header)
  (chunks : iterable) (data : list string) (l : Locals)
  : M t (nat * Locals) :=
  r <- for_chunks status headers
         [iter_list data; chunks; iter_list [""]] chunks 0 l ;;
  let '(chunks, length, l') := r in
  (if has_close chunks then modify count_close else ret tt) ;;
  ret (length, l').

(** [execute_request(app, env)]. The body calls [self.app], not its
    parameter. *)
Definition execute_request (_ : application) (env : environ)
  : M t (option string * nat) :=
  let l := MkLocals None [] [] in
  self_app <- gets app ;;
  let called := self_app env in
  l <- run_ops (call_ops called) l ;;
  let chunks := returned called in
  (* status, headers, data = response *)
  r <- send_response (response_status l) (response_headers l) chunks
         (data l) l ;;
  ret (response_status l, fst r).

(** *** [handle_request] *)

Definition handle_request (connection : Socket) (client_address : address)
  : M t unit :=
  modify (set_stream (IOStream.new connection)) ;;
  modify (set_headers_sent false) ;;
  parsed <- parse_request client_address ;;
  let '(reqline, env) := parsed in
  self_app <- gets app ;;
  executed <- execute_request self_app env ;;
  let '(status, length) := executed in
  on_stream IOStream.close ;;
  self_access_log <- gets access_log ;;
  if self_access_log then
    let client := default (VStr "-") (env !! "REMOTE_ADDR") in
    match status with
    | Some status =>
        modify (log (LogRequest client reqline (PyStr.take 3 status) length))
    | None => raise TypeError          (* [None[:3]] *)
    end
  else ret tt.

(** *** The accept loop *)

Inductive signal := SIGQUIT | SIGINT | SIGTERM.

(** [die_gracefully(signum, frame)] *)
Definition die_gracefully (w : t) : t :=
  set_wpipe (wpipe w +:+ ".") (set_alive false w).

(** What [select] does in one round: it raises [select.error], or
    returns with the listening socket readable or not. *)
Inductive select_result :=
| SelectRaises (errno : Z)
| SelectReturns (sock_ready : bool).

(** What [accept] does when it is called. *)
Inductive accept_result :=
| AcceptRaises (errno : Z)
| Accepts (connection : Socket) (client_address : address).

Inductive event :=
| Round (sel : select_result) (acc : accept_result)
| Signal (sig : signal).

Inductive control := Continue | Break.

(** The [try: accept, handle_request ... except socket.error ...
    finally: connection.close()] statement. The accepted socket is the
    one [self.stream] wraps; when [accept] raised there is no
    connection of this round to close and the [finally] clause
    swallows whatever its [close()] does. *)
Definition serve (acc : accept_result) : M t unit :=
  fun w =>
    let tried :=
      match acc with
      | AcceptRaises errno => Raise (SocketError errno) w
      | Accepts connection client_address =>
          (handle_request connection client_address ;;
           n <- gets requests ;; modify (set_requests (n + 1))) w
      end in
    let handled :=
      match tried with
      | Raise (SocketError errno) w' =>
          let w' := set_errors (errors w' + 1) w' in
          if decide (errno = EPIPE) then Ok tt (log (LogError "Broken pipe") w')
          else if decide (errno = EINTR)
               then Ok tt (log (LogError "accept() interrupted") w')
               else Ok tt w'
      | other => other
      end in
    let finally (w' : t) : t :=
      match acc with
      | Accepts _ _ =>
          set_stream
            (IOStream.set_socket (Sock.close (IOStream.socket (stream w')))
                                 (stream w')) w'
      | AcceptRaises _ => w'
      end in
    match handled with
    | Ok a w' => Ok a (finally w')
    | Raise e w' => Raise e (finally w')
    end.

(** One round of the [while self.alive] loop. [socks] is the loop's
    local of that name, reduced to [self.sock in socks]; it is [None]
    until the first [select] returns. *)
Definition round (sel : select_result) (acc : accept_result)
  (socks : option bool) : M t (control * option bool) :=
  let after_select (socks : option bool) : M t (control * option bool) :=
    match socks with
    | None => raise (NameError "socks")
    | Some true => serve acc ;; ret (Continue, socks)
    | Some false => ret (Continue, socks)
    end in
  match sel with
  | SelectReturns ready => after_select (Some ready)
  | SelectRaises errno =>
      if decide (errno = EINTR) then ret (Continue, socks)
      else if decide (errno = EBADF) then
        modify (log (LogError "select() returned EBADF.")) ;;
        ret (Break, socks)
      else after_select socks
  end.

(** How a worker process stands after a sequence of events. *)
Inductive outcome :=
| Waiting (socks : option bool) (w : t)   (* in the loop, in [select] *)
| Exited (code : Z) (w : t)
| Crashed (e : exn) (w : t).              (* uncaught exception *)

(** After the loop: [log.info(...); sys.exit(0)]. *)
Definition shut_down (w : t) : outcome :=
  Exited 0 (log (LogInfo "Worker shutting down") w).

Fixpoint loop (events : list event) (socks : option bool) (w : t)
  : outcome :=
  if alive w then
    match events with
    | [] => Waiting socks w
    | Signal SIGQUIT :: rest => loop rest socks (die_gracefully w)
    | Signal _ :: _ => Exited 0 w            (* [die_immediately] *)
    | Round sel acc :: rest =>
        match round sel acc socks w with
        | Ok (Continue, socks') w' => loop rest socks' w'
        | Ok (Break, _) w' => shut_down w'
        | Raise (SystemExit code) w' => Exited code w'
        | Raise e w' => Crashed e w'
        end
    end
  else shut_down w.

(** [run()] *)
Definition run (events : list event) (w : t) : outcome :=
  loop events None (log (LogInfo "Fired up; ready to go!") w).

End HornedWorkerProcess.

(** ** [HornedWorker.run], the child side of the fork *)

Module HornedWorker.

Section Child.

Variable get_app : string -> exn + application.
Variable call_attribute : string -> string -> exn + bool.

(** [HornedWorkerProcess(self.sock, self.config).run()] *)
Definition child (port : nat) (cfg : Config)
  (os_environ : gmap string string) (hostname : string)
  (now : struct_time) (events : list HornedWorkerProcess.event)
  : exn + HornedWorkerProcess.outcome :=
  match HornedWorkerProcess.__init__ get_app call_attribute
          port cfg os_environ hostname now with
  | inl e => inl e
  | inr w => inr (HornedWorkerProcess.run events w)
  end.

End Child.

End HornedWorker.

(** ** [HornedManager], and [HornedWorker] on the parent side *)

Module HornedManager.

(** The manager process: the instance, and what it does to the world
    (the log, the signals sent with [os.kill], the number of
    [os.fork] calls so far). The set [self.workers] holds the
    [HornedWorker] objects; it is the list of their pids here, in the
    order the loops visit them. *)
Record t := Mk {
  worker_processes : nat;
  workers : list positive;
  alive : bool;
  logged : list log_entry;
  killed : list (positive * HornedWorkerProcess.signal);
  forks : nat
}.

Definition set_workers (l : list positive) (m : t) : t :=
  Mk (worker_processes m) l (alive m) (logged m) (killed m) (forks m).

Definition set_alive (b : bool) (m : t) : t :=
  Mk (worker_processes m) (workers m) b (logged m) (killed m) (forks m).

Definition log (e : log_entry) (m : t) : t :=
  Mk (worker_processes m) (workers m) (alive m) (logged m ++ [e])
     (killed m) (forks m).

(** [os.kill(pid, sig)] *)
Definition kill (pid : positive) (sig : HornedWorkerProcess.signal) (m : t)
  : t :=
  Mk (worker_processes m) (workers m) (alive m) (logged m)
     (killed m ++ [(pid, sig)]) (forks m).

Definition count_fork (m : t) : t :=
  Mk (worker_processes m) (workers m) (alive m) (logged m) (killed m)
     (S (forks m)).

(** [HornedManager(config)] *)
Definition __init__ (cfg : Config) : t :=
  Mk (cfg_worker_processes cfg) [] true [] [] 0.

(** ["%d" % pid] *)
Definition pid_str (pid : positive) : string :=
  PyStr.decimal (Pos.to_nat pid).

(** [self.workers.remove(worker)]: one object leaves the set. *)
Fixpoint remove (pid : positive) (l : list positive) : list positive :=
  match l with
  | [] => []
  | p :: rest => if decide (p = pid) then rest else p :: remove pid rest
  end.

(** What [os.waitpid(pid, os.WNOHANG)] returns for a child:
    [(pid, status)] once it has exited, [(0, 0)] while it runs. The
    answers of one sweep over the workers are a function of the pid:
    [Some status] and [None]. *)
Definition waitpid_result : Type := positive -> option Z.

(** [cleanup_workers()]: the loop over [list(self.workers)]. *)
Fixpoint cleanup_loop (waitpid : waitpid_result) (todo : list positive)
  (m : t) : t :=
  match todo with
  | [] => m
  | pid :: rest =>
      match waitpid pid with
      | Some _ =>
          cleanup_loop waitpid rest
            (log (LogInfo ("Worker #" +:+ pid_str pid +:+ " died."))
                 (set_workers (remove pid (workers m)) m))
      | None => cleanup_loop waitpid rest m
      end
  end.

Definition cleanup_workers (waitpid : waitpid_result) (m : t) : t :=
  cleanup_loop waitpid (workers m) m.

(** [HornedWorker.die_gracefully()] and [die_immediately()] *)
Definition worker_die_gracefully (pid : positive) (m : t) : t :=
  kill pid HornedWorkerProcess.SIGQUIT
    (log (LogInfo ("Sending SIGQUIT to worker #" +:+ pid_str pid)) m).

Definition worker_die_immediately (pid : positive) (m : t) : t :=
  kill pid HornedWorkerProcess.SIGTERM
    (log (LogInfo ("Sending SIGTERM to worker #" +:+ pid_str pid)) m).

(** [stop_workers()] *)
Definition stop_workers (m : t) : t :=
  foldl (fun m pid => worker_die_gracefully pid m)
        (log (LogInfo "Stopping workers...") m) (workers m).

(** [die_gracefully(signum, frame)] *)
Definition die_gracefully (m : t) : t :=
  set_alive false (log (LogInfo "Manager shutting down gracefully...") m).

(** [die_immediately(signum, frame)], up to its [sys.exit(0)]. *)
Definition die_immediately (m : t) : t :=
  log (LogInfo "Bye.")
    (foldl (fun m pid => worker_die_immediately pid m)
           (log (LogInfo "Immediate death requested...") m) (workers m)).

(** One round of the loop of [reap_workers]: whether the deadline
    test [time.time() - t > 10] holds, and what the [wait] calls of
    the round return. *)
Record tick := Tick {
  late : bool;
  waited : waitpid_result
}.

(** The loop [for worker in list(self.workers)] of [reap_workers]. *)
Fixpoint wait_loop (waitpid : waitpid_result) (todo : list positive)
  (m : t) : t :=
  match todo with
  | [] => m
  | pid :: rest =>
      match waitpid pid with
      | Some _ =>
          wait_loop waitpid rest (set_workers (remove pid (workers m)) m)
      | None => wait_loop waitpid rest m
      end
  end.

(** How the manager process stands after a sequence of events. *)
Inductive outcome :=
| Looping (m : t)             (* in the [while self.alive] loop, asleep *)
| Reaping (m : t)             (* in the loop of [reap_workers], asleep *)
| Returned (m : t)            (* the method returned *)
| Exited (code : Z) (m : t)
| Crashed (e : exn) (m : t).  (* uncaught exception *)

(** [reap_workers()]. When the deadline has passed, the arguments of
    the [log.error] call are evaluated first, and [self.children] is
    an attribute the class does not have. *)
Fixpoint reap_workers (ticks : list tick) (m : t) : outcome :=
  match workers m with
  | [] => Returned m
  | _ :: _ =>
      match ticks with
      | [] => Reaping m
      | tick :: rest =>
          if late tick then Crashed (AttributeError "children") m
          else reap_workers rest (wait_loop (waited tick) (workers m) m)
      end
  end.

Section Process.

(** The pid [os.fork()] returns in the parent, call after call. *)
Variable fork : nat -> positive.

(** [HornedWorker.run()], in the parent. *)
Definition worker_run (m : t) : positive * t :=
  let pid := fork (forks m) in
  (pid, log (LogInfo ("Spawned worker #" +:+ pid_str pid +:+ "."))
            (count_fork m)).

(** The loop of [spawn_workers]. Every round adds one worker, so
    [worker_processes - len(workers)] rounds suffice (see
    [spawn_loop_enough]); [None] is the loop running out of [fuel]. *)
Fixpoint spawn_loop (fuel : nat) (m : t) : option t :=
  if (length (workers m) <? worker_processes m)%nat then
    match fuel with
    | O => None
    | S fuel' =>
        let '(pid, m') := worker_run m in
        spawn_loop fuel' (set_workers (workers m' ++ [pid]) m')
    end
  else Some m.

(** [spawn_workers()] *)
Definition spawn_workers (m : t) : t :=
  default m (spawn_loop (worker_processes m - length (workers m)) m).

(** What happens to the manager while it sleeps in its loop: the
    second is over, and the [waitpid] calls of the next sweep return
    what they return; or a signal arrives. *)
Inductive event :=
| Iteration (waitpid : waitpid_result)
| Signal (sig : HornedWorkerProcess.signal).

(** After the loop of [run]. *)
Definition shut_down (ticks : list tick) (m : t) : outcome :=
  match reap_workers ticks (stop_workers m) with
  | Returned m' => Returned (log (LogInfo "Manager done. Exiting.") m')
  | other => other
  end.

Fixpoint loop (events : list event) (ticks : list tick) (m : t) : outcome :=
  if alive m then
    match events with
    | [] => Looping m
    | Iteration waitpid :: rest =>
        loop rest ticks (spawn_workers (cleanup_workers waitpid m))
    | Signal HornedWorkerProcess.SIGQUIT :: rest =>
        loop rest ticks (die_gracefully m)
    | Signal _ :: _ => Exited 0 (die_immediately m)
    end
  else shut_down ticks m.

(** [run()] *)
Definition run (events : list event) (ticks : list tick) (m : t) : outcome :=
  loop events ticks
    (log (LogInfo "Fired up; ready to go!")
         (log (LogInfo "Starting manager...") m)).

End Process.

End HornedManager.

(** ** The response on the wire, as the specification words it *)

(** What the worker has written to the current connection. *)
Definition wire (w : HornedWorkerProcess.t) : string :=
  IOStream.wire (HornedWorkerProcess.stream w).

(** An application-supplied header is suppressed when its name is
    [connection] or [date], whatever the case of its letters. *)
Definition suppressed (h : header) : Prop :=
  PyStr.lower (fst h) ∈ ["connection"; "date"].

Definition kept_headers (headers : list header) : list header :=
  filter (fun h => ¬ suppressed h) headers.

Definition header_line (h : header) : string :=
  fst h +:+ ": " +:+ snd h +:+ CRLF.

(** The header block: status line, [Date], the application's headers
    that are kept, [Connection: close], blank line. *)
Definition header_block (status : option string) (headers : list header)
  (now : struct_time) : string :=
  ("HTTP/1.0 " +:+ str_of status +:+ CRLF) +:+
  ("Date: " +:+ http_date now +:+ CRLF) +:+
  PyStr.concat (header_line <$> kept_headers headers) +:+
  ("Connection: close" +:+ CRLF) +:+
  CRLF.

(** Numbers in two and in four decimal digits. *)
Definition two_digits (n : nat) : string :=
  String (PyStr.digit (n / 10)) (String (PyStr.digit (n mod 10)) "").

Definition four_digits (n : nat) : string :=
  String (PyStr.digit (n / 1000))
    (String (PyStr.digit (n / 100 mod 10))
       (String (PyStr.digit (n / 10 mod 10))
          (String (PyStr.digit (n mod 10)) ""))).

(** The chunks an iterable yields, in order. *)
Fixpoint yields (todo : list gen_step) : list string :=
  match todo with
  | [] => []
  | Yield chunk :: rest => chunk :: yields rest
  | Do _ :: rest => yields rest
  end.

(** Application code that cannot raise: it calls [start_response]
    without [exc_info], or the write sink. *)
Definition quiet (step : gen_step) : Prop :=
  match step with
  | Yield _ => True
  | Do (CallStartResponse _ _ None) => True
  | Do (CallWrite _) => True
  | Do _ => False
  end.

(** ** A request on the wire, as the specification words it *)

(** The request line: three tokens separated by single spaces. *)
Definition request_line (method target protocol : string) : string :=
  method +:+ " " +:+ target +:+ " " +:+ protocol.

(** The request target: the path, and the query after a ["?"] when
    there is one. *)
Definition request_target (path : string) (query : option string) : string :=
  match query with
  | Some q => path +:+ "?" +:+ q
  | None => path
  end.

(** A header line: raw name, colon, raw value. *)
Definition request_header (h : header) : string :=
  fst h +:+ ":" +:+ snd h.

(** The lines of a header block, each ended by CRLF. *)
Definition join_lines (lines : list string) : string :=
  PyStr.concat ((fun line => line +:+ CRLF) <$> lines).

(** The head of a request: request line, header lines, blank line. *)
Definition request_head (reqline : string) (headers : list header) : string :=
  join_lines (reqline :: (request_header <$> headers)) +:+ CRLF.

(** The canonical name of a header: upper case, ["-"] as ["_"]. *)
Definition canonical (name : string) : string :=
  PyStr.upper (PyStr.replace_char "-" "_" name).

(** A header of a well-formed request: no colon in the name, no CRLF
    in the line. *)
Definition well_formed_header (h : header) : Prop :=
  PyStr.contains ":" (fst h) = false /\
  PyStr.contains CRLF (request_header h) = false.

(** The last header of a request whose canonical name is [key]. *)
Definition last_header (key : string) (headers : list header)
  : option header :=
  last (filter (fun h => canonical (fst h) = key) headers).

(** The environment after the header loop has run over [headers]. *)
Definition with_headers (headers : list header) (env : environ) : environ :=
  foldl (fun e h =>
           <["HTTP_" +:+ canonical (fst h) := VStr (PyStr.strip (snd h))]> e)
        env headers.

(** How far the response has got between two states [w] and [w'] of
    a worker, [done] being the chunks written in between: nothing was
    written and the headers are still to be sent, or the header block
    was written (unless it had been before [w]) and then the chunks.
    The clock, the state of the connection and the count of [close()]
    calls are those of [w]. *)
Definition progress (status : option string) (headers : list header)
  (w w' : HornedWorkerProcess.t) (done : list string) : Prop :=
  HornedWorkerProcess.clock w' = HornedWorkerProcess.clock w /\
  send_error (IOStream.socket (HornedWorkerProcess.stream w'))
  = send_error (IOStream.socket (HornedWorkerProcess.stream w)) /\
  HornedWorkerProcess.close_calls w' = HornedWorkerProcess.close_calls w /\
  if HornedWorkerProcess.headers_sent w then
    HornedWorkerProcess.headers_sent w' = true /\
    wire w' = wire w +:+ PyStr.concat done
  else
    (HornedWorkerProcess.headers_sent w' = false /\ done = [] /\
     wire w' = wire w) \/
    (HornedWorkerProcess.headers_sent w' = true /\
     wire w' = wire w +:+
               header_block status headers (HornedWorkerProcess.clock w) +:+
               PyStr.concat done).

(** Sample values. *)
Definition sample_clock : struct_time := StructTime 2011 3 7 9 5 0 0.

Definition sample_worker (a : application) (connection : Socket)
  : HornedWorkerProcess.t :=
  HornedWorkerProcess.Mk
    (MkConfig (AppCallable a) 80 4 true None) a true true 0 0 ""
    (<["SERVER_NAME" := VStr "localhost"]> (<["SERVER_PORT" := VStr "80"]> ∅))
    (IOStream.new connection) false sample_clock [] 0.

Definition sample_peer (sent : list string) : Socket :=
  MkSocket sent "" false None.

(** ** Further vocabulary *)

(** Percent-encoding as a client does it: the bytes [escape] selects,
    and every ["%"], are written as ["%"] and two hexadecimal digits
    taken from [digits]; the other bytes stand for themselves. *)
Definition percent_encode (digits : list ascii) (escape : ascii -> bool)
  : string -> string :=
  fix go s :=
    match s with
    | EmptyString => EmptyString
    | String a s' =>
        if escape a || bool_decide (a = "%"%char)
        then "%" +:+ format_02 digits (nat_of_ascii a) +:+ go s'
        else String a (go s')
    end.

(** How often the byte [c] occurs in [s]. *)
Fixpoint count_char (c : ascii) (s : string) : nat :=
  match s with
  | EmptyString => 0%nat
  | String a s' => ((if decide (a = c) then 1 else 0) + count_char c s')%nat
  end.

(** The text before the first CRLF, or all of it. *)
Definition first_line (text : string) : string :=
  match PyStr.index CRLF text with
  | Some i => PyStr.take i text
  | None => text
  end.

(** The line feed, and a line as [readline] returns it: at least one
    byte that is not a line feed, then the line feed. *)
Definition LF : string := String "010" "".

Definition is_line (line : string) : Prop :=
  exists body, body <> "" /\ PyStr.contains LF body = false /\
               line = body +:+ LF.

(** A socket whose peer sends data and then closes for good: no
    [recv] returns [""] before the last one. *)
Definition proper (sock : Socket) : Prop :=
  Forall (fun chunk => chunk <> "") (inbox sock).

(** What stays as it is while a worker serves: everything but the
    stream, the [headers_sent] flag, the counters and the log. *)
Definition setup (w : HornedWorkerProcess.t)
  : Config * application * bool * environ * struct_time :=
  (HornedWorkerProcess.config w, HornedWorkerProcess.app w,
   HornedWorkerProcess.access_log w, HornedWorkerProcess.baseenv w,
   HornedWorkerProcess.clock w).

(** The worker an [outcome] of the accept loop ends with. *)
Definition worker_of (o : HornedWorkerProcess.outcome)
  : HornedWorkerProcess.t :=
  match o with
  | HornedWorkerProcess.Waiting _ w => w
  | HornedWorkerProcess.Exited _ w => w
  | HornedWorkerProcess.Crashed _ w => w
  end.

(** The rounds among the events of the accept loop. *)
Fixpoint rounds (events : list HornedWorkerProcess.event) : nat :=
  match events with
  | [] => 0%nat
  | HornedWorkerProcess.Round _ _ :: rest => S (rounds rest)
  | HornedWorkerProcess.Signal _ :: rest => rounds rest
  end.

(** What serving a request leaves as it is, beside the [setup]:
    whether the worker is alive, the counters and the self-pipe. *)
Definition steady (w : HornedWorkerProcess.t)
  : (Config * application * bool * environ * struct_time) *
    bool * nat * nat * string :=
  (setup w, HornedWorkerProcess.alive w, HornedWorkerProcess.requests w,
   HornedWorkerProcess.errors w, HornedWorkerProcess.wpipe w).

(** A computation of the worker that does not change what [proj]
    shows of the worker, whether it returns or raises. *)
Definition preserves {A B} (proj : HornedWorkerProcess.t -> B)
  (m : M HornedWorkerProcess.t A) : Prop :=
  forall w, proj (state_of (m w)) = proj w.

(** An operation of the application that is a call of
    [start_response]. *)
Definition calls_start_response (op : app_op) : Prop :=
  match op with
  | CallStartResponse _ _ _ => True
  | _ => False
  end.

(** A computation that never raises [SystemExit]. *)
Definition no_exit {S A} (m : M S A) : Prop :=
  forall s e s', m s = Raise e s' -> forall code, e <> SystemExit code.

(** The manager an [outcome] ends with. *)
Definition manager_of (o : HornedManager.outcome) : HornedManager.t :=
  match o with
  | HornedManager.Looping m => m
  | HornedManager.Reaping m => m
  | HornedManager.Returned m => m
  | HornedManager.Exited _ m => m
  | HornedManager.Crashed _ m => m
  end.

(** The workers a sweep of [waitpid] calls finds running, and those
    it finds dead. *)
Definition running (waitpid : HornedManager.waitpid_result)
  (l : list positive) : list positive :=
  filter (fun pid => waitpid pid = None) l.

Definition dead (waitpid : HornedManager.waitpid_result)
  (l : list positive) : list positive :=
  filter (fun pid => is_Some (waitpid pid)) l.

(** * Properties *)

(** ** Facts about the string methods *)

Section StringFacts.

Implicit Types (s t u sub : string) (a b c : ascii) (n i : nat).

Lemma str_app_nil_l s : "" +:+ s = s.
Proof. reflexivity. Qed.

Lemma str_app_cons a s t : String a s +:+ t = String a (s +:+ t).
Proof. reflexivity. Qed.

Lemma str_app_nil_r s : s +:+ "" = s.
Proof. induction s as [|a s IH]; [done|]. by rewrite str_app_cons, IH. Qed.

Lemma str_app_assoc s t u : (s +:+ t) +:+ u = s +:+ (t +:+ u).
Proof. induction s as [|a s IH]; [done|]. by rewrite !str_app_cons, IH. Qed.

Lemma str_len_app s t : PyStr.len (s +:+ t) = (PyStr.len s + PyStr.len t)%nat.
Proof.
  induction s as [|a s IH]; [done|].
  rewrite str_app_cons. unfold PyStr.len in *. simpl. by rewrite IH.
Qed.

Lemma str_len_nil s : PyStr.len s = 0%nat -> s = "".
Proof. by destruct s. Qed.

Lemma str_take_0 s : PyStr.take 0 s = "".
Proof. by destruct s. Qed.

Lemma str_drop_0 s : PyStr.drop 0 s = s.
Proof. by destruct s. Qed.

Lemma str_take_drop n s : PyStr.take n s +:+ PyStr.drop n s = s.
Proof.
  revert s. induction n as [|n IH]; intros [|a s]; try done.
  simpl. by rewrite str_app_cons, IH.
Qed.

Lemma str_take_app_len s t : PyStr.take (PyStr.len s) (s +:+ t) = s.
Proof.
  induction s as [|a s IH]; [by rewrite str_take_0|].
  rewrite str_app_cons. unfold PyStr.len in *. simpl. by rewrite IH.
Qed.

Lemma str_drop_app_len s t : PyStr.drop (PyStr.len s) (s +:+ t) = t.
Proof.
  induction s as [|a s IH]; [by rewrite str_drop_0|].
  rewrite str_app_cons. unfold PyStr.len in *. simpl. by rewrite IH.
Qed.

Lemma str_drop_app_plus s t n :
  PyStr.drop (PyStr.len s + n) (s +:+ t) = PyStr.drop n t.
Proof.
  induction s as [|a s IH]; [done|].
  rewrite str_app_cons. unfold PyStr.len in *. simpl. by rewrite IH.
Qed.

Lemma str_take_app_le n s t :
  (n <= PyStr.len s)%nat -> PyStr.take n (s +:+ t) = PyStr.take n s.
Proof.
  revert s. induction n as [|n IH]; intros s Hn; [by rewrite !str_take_0|].
  destruct s as [|a s]; [unfold PyStr.len in Hn; simpl in Hn; lia|].
  rewrite str_app_cons. simpl. rewrite IH; [done|].
  unfold PyStr.len in *. simpl in Hn. lia.
Qed.

Lemma str_drop_app_le n s t :
  (n <= PyStr.len s)%nat -> PyStr.drop n (s +:+ t) = PyStr.drop n s +:+ t.
Proof.
  revert s. induction n as [|n IH]; intros s Hn; [by rewrite !str_drop_0|].
  destruct s as [|a s]; [unfold PyStr.len in Hn; simpl in Hn; lia|].
  rewrite str_app_cons. simpl. rewrite IH; [done|].
  unfold PyStr.len in *. simpl in Hn. lia.
Qed.

Lemma str_len_drop n s : PyStr.len (PyStr.drop n s) = (PyStr.len s - n)%nat.
Proof.
  revert s. induction n as [|n IH]; intros s.
  - rewrite str_drop_0. lia.
  - destruct s as [|a s]; [done|]. simpl. by rewrite IH.
Qed.

(** [startswith] and [index] *)

Lemma startswith_app sub t : PyStr.startswith sub (sub +:+ t) = true.
Proof.
  induction sub as [|a sub IH]; [done|].
  rewrite str_app_cons. simpl. by rewrite decide_True.
Qed.

Lemma startswith_spec sub s :
  PyStr.startswith sub s = true <-> exists t, s = sub +:+ t.
Proof.
  split.
  - revert s. induction sub as [|a sub IH]; intros s H; [by exists s|].
    destruct s as [|b s]; [done|]. simpl in H.
    destruct (decide (a = b)) as [->|]; [|done].
    destruct (IH _ H) as [t ->]. by exists t.
  - intros [t ->]. apply startswith_app.
Qed.

(** A prefix of [s] long enough to hold [sub] decides [startswith]. *)
Lemma startswith_app_l sub s t :
  (PyStr.len sub <= PyStr.len s)%nat ->
  PyStr.startswith sub (s +:+ t) = PyStr.startswith sub s.
Proof.
  revert s. induction sub as [|a sub IH]; intros s H; [done|].
  destruct s as [|b s]; [unfold PyStr.len in H; simpl in H; lia|].
  rewrite str_app_cons. simpl. destruct (decide (a = b)); [|done].
  apply IH. unfold PyStr.len in *. simpl in H. lia.
Qed.

Lemma startswith_true_app sub s t :
  PyStr.startswith sub s = true -> PyStr.startswith sub (s +:+ t) = true.
Proof.
  intros [u ->]%startswith_spec. rewrite str_app_assoc. apply startswith_app.
Qed.

Lemma startswith_len sub s :
  PyStr.startswith sub s = true -> (PyStr.len sub <= PyStr.len s)%nat.
Proof. intros [u ->]%startswith_spec. rewrite str_len_app. lia. Qed.

Lemma index_cons_false sub a s :
  PyStr.startswith sub (String a s) = false ->
  PyStr.index sub (String a s) = S <$> PyStr.index sub s.
Proof. intros H. simpl PyStr.index. by rewrite H. Qed.

Lemma index_true sub s :
  PyStr.startswith sub s = true -> PyStr.index sub s = Some 0%nat.
Proof. intros H. destruct s; simpl; by rewrite H. Qed.

(** [index] finds an occurrence that fits in [s]. *)
Lemma index_bound sub s i :
  PyStr.index sub s = Some i -> (i + PyStr.len sub <= PyStr.len s)%nat.
Proof.
  revert i. induction s as [|a s IH]; intros i.
  - simpl. destruct (PyStr.startswith sub "") eqn:E; [|done].
    intros [= <-]. by apply startswith_len in E.
  - simpl. destruct (PyStr.startswith sub (String a s)) eqn:E.
    + intros [= <-]. by apply startswith_len in E.
    + destruct (PyStr.index sub s) as [j|]; [|done].
      intros [= <-]. specialize (IH j eq_refl).
      unfold PyStr.len in *. simpl. lia.
Qed.

(** The occurrence [index] finds, and that none starts before it. *)
Lemma index_Some sub s i :
  PyStr.index sub s = Some i ->
  PyStr.startswith sub (PyStr.drop i s) = true /\
  forall j, (j < i)%nat -> PyStr.startswith sub (PyStr.drop j s) = false.
Proof.
  revert i. induction s as [|a s IH]; intros i.
  - simpl. destruct (PyStr.startswith sub "") eqn:E; [|done].
    intros [= <-]. split; [done|lia].
  - simpl PyStr.index. destruct (PyStr.startswith sub (String a s)) eqn:E.
    + intros [= <-]. split; [done|lia].
    + destruct (PyStr.index sub s) as [k|]; [|done].
      intros [= <-]. destruct (IH k eq_refl) as [H1 H2]. split; [done|].
      intros [|j] Hj; [done|]. simpl. apply H2. lia.
Qed.

Lemma index_None sub s :
  PyStr.index sub s = None ->
  forall j, PyStr.startswith sub (PyStr.drop j s) = false.
Proof.
  induction s as [|a s IH].
  - simpl. destruct (PyStr.startswith sub "") eqn:E; [done|].
    intros _ [|j]; done.
  - simpl PyStr.index. destruct (PyStr.startswith sub (String a s)) eqn:E; [done|].
    destruct (PyStr.index sub s) as [k|] eqn:Ek; [done|].
    intros _ [|j]; [done|]. simpl. by apply IH.
Qed.

(** Conversely: the first position at which [sub] starts. *)
Lemma index_first sub s i :
  (i <= PyStr.len s)%nat ->
  PyStr.startswith sub (PyStr.drop i s) = true ->
  (forall j, (j < i)%nat -> PyStr.startswith sub (PyStr.drop j s) = false) ->
  PyStr.index sub s = Some i.
Proof.
  revert i. induction s as [|a s IH]; intros i Hi H1 H2.
  - assert (i = 0%nat) as -> by (unfold PyStr.len in Hi; simpl in Hi; lia).
    simpl in *. by rewrite H1.
  - destruct i as [|i].
    + by apply index_true.
    + rewrite index_cons_false; [|by apply (H2 0%nat); lia].
      rewrite (IH i); [done| |done|].
      * unfold PyStr.len in *. simpl in Hi. lia.
      * intros j Hj. apply (H2 (S j)). lia.
Qed.

(** Appending bytes does not move an occurrence already found. *)
Lemma index_app_Some sub s t i :
  PyStr.index sub s = Some i -> PyStr.index sub (s +:+ t) = Some i.
Proof.
  revert i. induction s as [|a s IH]; intros i.
  - simpl. destruct (PyStr.startswith sub "") eqn:E; [|done].
    intros [= <-]. apply index_true. by apply (startswith_true_app _ "").
  - simpl PyStr.index at 1.
    destruct (PyStr.startswith sub (String a s)) eqn:E.
    + intros [= <-]. apply index_true. by apply startswith_true_app.
    + destruct (PyStr.index sub s) as [k|] eqn:Ek; [|done].
      intros [= <-]. rewrite str_app_cons, index_cons_false.
      * by rewrite (IH k).
      * rewrite <- str_app_cons, startswith_app_l; [done|].
        apply index_bound in Ek. unfold PyStr.len in *. simpl. lia.
Qed.

(** An occurrence found in [s +:+ t] that fits in [s] is found in [s]. *)
Lemma index_app_inv sub s t i :
  PyStr.index sub (s +:+ t) = Some i ->
  (i + PyStr.len sub <= PyStr.len s)%nat ->
  PyStr.index sub s = Some i.
Proof.
  intros H Hi. destruct (PyStr.index sub s) as [k|] eqn:Ek.
  - apply (index_app_Some _ _ t) in Ek. congruence.
  - exfalso. pose proof (index_None _ _ Ek i) as Hn.
    apply index_Some in H as [H _].
    rewrite str_drop_app_le in H by lia.
    rewrite startswith_app_l in H; [congruence|].
    rewrite str_len_drop. lia.
Qed.

Lemma contains_index sub s :
  PyStr.contains sub s = true <-> is_Some (PyStr.index sub s).
Proof.
  unfold PyStr.contains. destruct (PyStr.index sub s); split; done.
Qed.

Lemma contains_false sub s :
  PyStr.contains sub s = false <-> PyStr.index sub s = None.
Proof. unfold PyStr.contains. by destruct (PyStr.index sub s). Qed.

End StringFacts.


(** ** Loops that run on fuel *)

Section Fuel.

Local Open Scope nat_scope.

(** [split] without a limit: a split removes the separator from the
    string, so no more than [len s] splits are made and a larger limit
    changes nothing. *)
Lemma split_max_enough n m s sep :
  sep <> "" -> PyStr.len s <= n -> PyStr.len s <= m ->
  PyStr.split_max n s sep = PyStr.split_max m s sep.
Proof.
  intros Hsep. revert m s. induction n as [|n IH]; intros m s Hn Hm.
  - assert (s = "") as -> by (apply str_len_nil; lia).
    destruct m as [|m]; [done|]. cbn. by destruct sep.
  - destruct m as [|m].
    + assert (s = "") as -> by (apply str_len_nil; lia).
      cbn. by destruct sep.
    + cbn [PyStr.split_max].
      destruct (PyStr.index sep s) as [i|] eqn:Hi; [|done].
      f_equal. pose proof (index_bound _ _ _ Hi) as Hb.
      assert (0 < PyStr.len sep) by (destruct sep; [done|cbn; lia]).
      apply IH; rewrite str_len_drop; lia.
Qed.

Lemma split_split_max n s sep :
  sep <> "" -> PyStr.len s <= n ->
  PyStr.split s sep = PyStr.split_max n s sep.
Proof. intros. unfold PyStr.split. by apply split_max_enough. Qed.

(** [decimal]: a number has no more digits than its value plus one,
    so the fuel never runs out. *)
Lemma decimal_go_enough fuel1 fuel2 n acc :
  n < fuel1 -> n < fuel2 ->
  PyStr.decimal_go fuel1 n acc = PyStr.decimal_go fuel2 n acc.
Proof.
  revert fuel1 fuel2 acc. induction n as [n IH] using lt_wf_ind.
  intros [|fuel1] [|fuel2] acc H1 H2; [lia..|].
  cbn [PyStr.decimal_go]. destruct (n / 10 =? 0) eqn:E; [done|].
  apply Nat.eqb_neq in E.
  assert (n / 10 < n) by (apply Nat.div_lt; [|lia]; destruct n; [done|lia]).
  apply IH; lia.
Qed.

End Fuel.

(** ** [charfromhex] *)

(** The table holds every two-digit code in lower case and in upper
    case. *)
Lemma charfromhex_lookup i :
  (i < 256)%nat ->
  charfromhex !! format_02x i = Some (PyStr.chr i) /\
  charfromhex !! format_02X i = Some (PyStr.chr i).
Proof.
  intros Hi.
  assert (forallb (fun i =>
            bool_decide (charfromhex !! format_02x i = Some (PyStr.chr i)) &&
            bool_decide (charfromhex !! format_02X i = Some (PyStr.chr i)))
            (seq 0 256) = true) as H by (vm_compute; reflexivity).
  rewrite forallb_forall in H.
  assert (In i (seq 0 256)) as Hin by (apply in_seq; lia).
  apply H in Hin. apply andb_prop in Hin as [H1 H2].
  split; by eapply bool_decide_eq_true_1.
Qed.

(** And nothing else: a key of the table is a code in one case. *)
Lemma charfromhex_keys code c :
  charfromhex !! code = Some c ->
  exists i, (i < 256)%nat /\ c = PyStr.chr i /\
            (code = format_02x i \/ code = format_02X i).
Proof.
  unfold charfromhex.
  assert (forall (l : list nat) (m : gmap string string),
    (forall x, x ∈ l -> (x < 256)%nat) ->
    (m !! code = Some c ->
      exists i, (i < 256)%nat /\ c = PyStr.chr i /\
                (code = format_02x i \/ code = format_02X i)) ->
    foldl (fun table i =>
             <[format_02X i := PyStr.chr i]>
               (<[format_02x i := PyStr.chr i]> table)) m l !! code = Some c ->
    exists i, (i < 256)%nat /\ c = PyStr.chr i /\
              (code = format_02x i \/ code = format_02X i)) as Hgen.
  { induction l as [|x l IH]; intros m Hl Hm; [done|].
    simpl. apply IH.
    - intros y Hy. apply Hl. by right.
    - intros Hc. assert (x < 256)%nat as Hx by (apply Hl; by left).
      rewrite lookup_insert in Hc. case_decide as E1.
      { injection Hc as <-. exists x. eauto. }
      rewrite lookup_insert in Hc. case_decide as E2.
      { injection Hc as <-. exists x. eauto. }
      by apply Hm. }
  apply Hgen; [|by rewrite lookup_empty].
  intros x Hx%list_elem_of_In%in_seq. lia.
Qed.

(** ** [urlunquote] *)

#[local] Opaque charfromhex.

Section Urlunquote.

Implicit Types (quoted unquoted before after code : string) (fuel : nat).

(** One byte as a separator: it is found where it first occurs. *)
Lemma index_char_app c before after :
  PyStr.contains (String c "") before = false ->
  PyStr.index (String c "") (before +:+ String c after)
  = Some (PyStr.len before).
Proof.
  induction before as [|a before IH]; intros H.
  - rewrite str_app_nil_l. simpl. by rewrite decide_True.
  - apply contains_false in H. rewrite str_app_cons.
    destruct (PyStr.startswith (String c "") (String a before)) eqn:E.
    { by rewrite index_true in H. }
    rewrite index_cons_false in H by done.
    rewrite index_cons_false.
    + rewrite IH; [done|]. apply contains_false.
      by destruct (PyStr.index (String c "") before).
    + simpl in *. by destruct (decide (c = a)).
Qed.

Lemma partition_char_app c before after :
  PyStr.contains (String c "") before = false ->
  PyStr.partition (before +:+ String c after) (String c "")
  = (before, String c "", after).
Proof.
  intros H. unfold PyStr.partition. rewrite index_char_app by done.
  rewrite str_take_app_len.
  change (String c after) with (String c "" +:+ after).
  rewrite <- str_app_assoc, <- str_len_app. by rewrite str_drop_app_len.
Qed.

Lemma contains_char_app c before after :
  PyStr.contains (String c "") (before +:+ String c after) = true.
Proof.
  induction before as [|a before IH].
  - rewrite str_app_nil_l. unfold PyStr.contains. simpl. by rewrite decide_True.
  - rewrite str_app_cons. unfold PyStr.contains in *. simpl.
    destruct (decide (c = a)); [done|].
    by destruct (PyStr.index (String c "") (before +:+ String c after)).
Qed.

(** A string splits at the first occurrence [index] reports. *)
Lemma index_split sub s i :
  PyStr.index sub s = Some i ->
  s = PyStr.take i s +:+ sub +:+ PyStr.drop (i + PyStr.len sub) s.
Proof.
  revert i. induction s as [|a s IH]; intros i.
  - simpl. destruct (PyStr.startswith sub "") eqn:E; [|done].
    intros [= <-]. by destruct sub.
  - simpl PyStr.index. destruct (PyStr.startswith sub (String a s)) eqn:E.
    + intros [= <-]. apply startswith_spec in E as [t Ht].
      rewrite str_take_0, str_app_nil_l, Ht. simpl.
      by rewrite str_drop_app_len.
    + destruct (PyStr.index sub s) as [k|]; [|done].
      intros [= <-]. simpl. rewrite str_app_cons. f_equal. by apply IH.
Qed.

(** One round of the loop, and its exit. *)
Lemma urlunquote_loop_round fuel quoted unquoted i :
  PyStr.index "%" quoted = Some i ->
  urlunquote_loop (S fuel) quoted unquoted
  = let after := PyStr.drop (i + 1) quoted in
    urlunquote_loop fuel (PyStr.drop 2 after)
      (unquoted +:+ (PyStr.take i quoted +:+
         default ("%" +:+ PyStr.take 2 after)
                 (charfromhex !! PyStr.take 2 after))).
Proof.
  intros H. cbn [urlunquote_loop].
  unfold PyStr.contains, PyStr.partition. by rewrite H.
Qed.

Lemma urlunquote_loop_exit fuel quoted unquoted :
  PyStr.index "%" quoted = None ->
  urlunquote_loop fuel quoted unquoted = Some (unquoted +:+ quoted).
Proof.
  intros H. destruct fuel; cbn [urlunquote_loop];
    unfold PyStr.contains; by rewrite H.
Qed.

Lemma urlunquote_loop_0 quoted unquoted i :
  PyStr.index "%" quoted = Some i ->
  urlunquote_loop 0 quoted unquoted = None.
Proof.
  intros H. cbn [urlunquote_loop]. unfold PyStr.contains. by rewrite H.
Qed.

(** The accumulator is only ever appended to. *)
Lemma urlunquote_loop_acc fuel quoted unquoted :
  urlunquote_loop fuel quoted unquoted
  = (fun r => unquoted +:+ r) <$> urlunquote_loop fuel quoted "".
Proof.
  revert quoted unquoted. induction fuel as [|fuel IH]; intros quoted unquoted.
  - destruct (PyStr.index "%" quoted) as [i|] eqn:Hi.
    + by rewrite !(urlunquote_loop_0 _ _ i).
    + by rewrite !urlunquote_loop_exit.
  - destruct (PyStr.index "%" quoted) as [i|] eqn:Hi.
    + rewrite !(urlunquote_loop_round _ _ _ i) by done. cbv zeta.
      rewrite IH. rewrite (IH _ ("" +:+ _)).
      destruct (urlunquote_loop fuel _ ""); [|done].
      simpl. by rewrite !str_app_nil_l, str_app_assoc.
    + by rewrite !urlunquote_loop_exit.
Qed.

(** The loop ends within [len quoted] rounds, and more fuel changes
    nothing. *)
Lemma urlunquote_loop_total fuel quoted unquoted :
  (PyStr.len quoted <= fuel)%nat ->
  urlunquote_loop fuel quoted unquoted
  = urlunquote_loop (PyStr.len quoted) quoted unquoted /\
  is_Some (urlunquote_loop fuel quoted unquoted).
Proof.
  remember (PyStr.len quoted) as n eqn:Hn.
  revert fuel quoted unquoted Hn.
  induction n as [n IHn] using lt_wf_ind. intros fuel quoted unquoted Hn Hf.
  destruct (PyStr.index "%" quoted) as [i|] eqn:Hi.
  - pose proof (index_bound _ _ _ Hi) as Hb.
    change (PyStr.len "%") with 1%nat in Hb.
    destruct n as [|n]; [lia|]. destruct fuel as [|fuel]; [lia|].
    rewrite !(urlunquote_loop_round _ _ _ i) by done. cbv zeta.
    set (q := PyStr.drop 2 (PyStr.drop (i + 1) quoted)).
    set (u := unquoted +:+ _).
    assert (PyStr.len q <= n)%nat as Hq.
    { unfold q. rewrite !str_len_drop. lia. }
    destruct (IHn (PyStr.len q) ltac:(lia) fuel q u eq_refl ltac:(lia))
      as [E1 S1].
    destruct (IHn (PyStr.len q) ltac:(lia) n q u eq_refl ltac:(lia))
      as [E2 S2].
    split; [congruence|done].
  - rewrite !urlunquote_loop_exit by done. eauto.
Qed.

Lemma urlunquote_run_total quoted :
  urlunquote_run quoted = Some (urlunquote quoted).
Proof.
  unfold urlunquote.
  destruct (urlunquote_loop_total (PyStr.len quoted) quoted "" ltac:(lia))
    as [_ [r Hr]].
  unfold urlunquote_run. by rewrite Hr.
Qed.

(** A string without ["%"] is returned as it is. *)
Lemma urlunquote_plain quoted :
  PyStr.contains "%" quoted = false -> urlunquote quoted = quoted.
Proof.
  intros H%contains_false. unfold urlunquote, urlunquote_run.
  by rewrite urlunquote_loop_exit.
Qed.

(** One round of the loop: the text before the first ["%"] is copied,
    the two bytes after it are looked up in [charfromhex] and replaced
    by the byte found there, or else copied together with the ["%"];
    the rest is unquoted in the same way. *)
Lemma urlunquote_escape before after :
  PyStr.contains "%" before = false ->
  urlunquote (before +:+ "%" +:+ after)
  = before +:+
    default ("%" +:+ PyStr.take 2 after) (charfromhex !! PyStr.take 2 after)
    +:+ urlunquote (PyStr.drop 2 after).
Proof.
  intros H.
  pose proof (urlunquote_run_total (before +:+ "%" +:+ after)) as Hrun.
  unfold urlunquote_run in Hrun.
  change ("%" +:+ after) with (String "%" after) in *.
  assert (PyStr.len (before +:+ String "%" after)
          = S (PyStr.len before + PyStr.len after)) as Hl.
  { rewrite str_len_app. unfold PyStr.len. simpl. lia. }
  rewrite Hl in Hrun.
  rewrite (urlunquote_loop_round _ _ _ (PyStr.len before)) in Hrun
    by (by apply index_char_app).
  cbv zeta in Hrun.
  rewrite str_take_app_len in Hrun.
  assert (PyStr.drop (PyStr.len before + 1) (before +:+ String "%" after)
          = after) as Hd.
  { rewrite str_drop_app_plus. done. }
  rewrite Hd in Hrun.
  rewrite urlunquote_loop_acc in Hrun.
  destruct (urlunquote_loop_total (PyStr.len before + PyStr.len after)
              (PyStr.drop 2 after) "") as [E _].
  { rewrite str_len_drop. lia. }
  rewrite E in Hrun. fold (urlunquote_run (PyStr.drop 2 after)) in Hrun.
  rewrite urlunquote_run_total in Hrun. simpl in Hrun.
  injection Hrun as <-. by rewrite str_app_nil_l, str_app_assoc.
Qed.

(** An escape whose two digits are both in lower case, or both in
    upper case, is replaced by the byte it denotes. *)
Lemma urlunquote_decodes before i code rest :
  PyStr.contains "%" before = false -> (i < 256)%nat ->
  code = format_02x i \/ code = format_02X i ->
  urlunquote (before +:+ "%" +:+ code +:+ rest)
  = before +:+ PyStr.chr i +:+ urlunquote rest.
Proof.
  intros Hb Hi Hcode. rewrite urlunquote_escape by done.
  destruct (charfromhex_lookup i Hi) as [Hx HX].
  assert (PyStr.take 2 (code +:+ rest) = code /\
          PyStr.drop 2 (code +:+ rest) = rest) as [-> ->]
    by (by destruct Hcode as [->| ->]).
  by destruct Hcode as [->| ->]; rewrite ?Hx, ?HX.
Qed.

(** Any other escape is copied: the ["%"] and up to two bytes after
    it. *)
Lemma urlunquote_keeps before after :
  PyStr.contains "%" before = false ->
  charfromhex !! PyStr.take 2 after = None ->
  urlunquote (before +:+ "%" +:+ after)
  = before +:+ ("%" +:+ PyStr.take 2 after) +:+
    urlunquote (PyStr.drop 2 after).
Proof. intros Hb Hnone. rewrite urlunquote_escape by done. by rewrite Hnone. Qed.

End Urlunquote.

(** Two hexadecimal letters of different case are not a key of the
    table. *)
Lemma charfromhex_mixed_case x y :
  x ∈ ["a"; "b"; "c"; "d"; "e"; "f"]%char ->
  y ∈ ["A"; "B"; "C"; "D"; "E"; "F"]%char ->
  charfromhex !! String x (String y "") = None /\
  charfromhex !! String y (String x "") = None.
Proof.
  intros Hx Hy.
  repeat (apply elem_of_cons in Hx as [->|Hx]);
    try (by apply elem_of_nil in Hx);
    repeat (apply elem_of_cons in Hy as [->|Hy]);
    try (by apply elem_of_nil in Hy);
    split; vm_compute; reflexivity.
Qed.

(** So a mixed-case escape is never decoded. *)
Lemma urlunquote_mixed_case_kept before x y rest :
  PyStr.contains "%" before = false ->
  x ∈ ["a"; "b"; "c"; "d"; "e"; "f"]%char ->
  y ∈ ["A"; "B"; "C"; "D"; "E"; "F"]%char ->
  urlunquote (before +:+ "%" +:+ String x (String y rest))
  = before +:+ "%" +:+ String x (String y (urlunquote rest)) /\
  urlunquote (before +:+ "%" +:+ String y (String x rest))
  = before +:+ "%" +:+ String y (String x (urlunquote rest)).
Proof.
  intros Hb Hx Hy. destruct (charfromhex_mixed_case x y Hx Hy) as [H1 H2].
  split; by rewrite urlunquote_keeps.
Qed.

(** C4 (code defect). [urlunquote] decodes an escape only when its two
    hexadecimal digits are both in lower case or both in upper case,
    the only spellings [charfromhex] holds: ["%2F"], ["%2f"], ["%ab"]
    and ["%AB"] are decoded, but the mixed-case escapes ["%aB"] and
    ["%Ab"], which denote the byte 171 as well, are left as they are.
    Truncated and non-hexadecimal escapes (["%A"], ["%GZ"]) are kept
    literally, as specified. *)
Theorem C4_urlunquote_mixed_case_escape_kept :
  urlunquote "/a%2Fb%2fc" = "/a/b/c" /\
  urlunquote "%ab" = PyStr.chr 171 /\
  urlunquote "%AB" = PyStr.chr 171 /\
  urlunquote "x%aBy" = "x%aBy" /\
  urlunquote "x%Aby" = "x%Aby" /\
  urlunquote "/p%A" = "/p%A" /\
  urlunquote "/p%GZ" = "/p%GZ".
Proof. repeat split; vm_compute; reflexivity. Qed.


(** ** [IOStream] *)

Section IOStreamFacts.

Implicit Types (st : IOStream.t) (delimiter buf : string)
  (chunks : list string).

(** The receive loop of [read_until] stops after some [k] calls of
    [recv], with the chunks it did not read and a buffer that holds
    what it had and what it read. The first occurrence of the
    delimiter in the buffer, if there is one before the peer closes,
    is where it is in the whole stream, and no byte is lost. *)
Lemma recv_until_spec delimiter chunks buf :
  let '(rest, buf') := IOStream.recv_until delimiter chunks buf in
  PyStr.index delimiter buf'
  = PyStr.index delimiter (buf +:+ Sock.pending chunks) /\
  (is_Some (PyStr.index delimiter buf') ->
   buf' +:+ Sock.pending rest = buf +:+ Sock.pending chunks) /\
  exists k, rest = drop k chunks /\
            buf' = buf +:+ PyStr.concat (take k chunks).
Proof.
  revert buf. induction chunks as [|chunk chunks IH]; intros buf.
  - cbn [IOStream.recv_until Sock.pending]. rewrite str_app_nil_r.
    destruct (PyStr.contains delimiter buf);
      (split; [done|split; [intros _; apply str_app_nil_r|]]);
      exists 0%nat; (split; [done|]); symmetry; apply str_app_nil_r.
  - cbn [IOStream.recv_until].
    destruct (PyStr.contains delimiter buf) eqn:Hc.
    + apply contains_index in Hc as [i Hi]. split; [|split].
      * rewrite Hi. symmetry. by apply index_app_Some.
      * done.
      * exists 0%nat. split; [done|]. symmetry. apply str_app_nil_r.
    + cbn [Sock.pending]. destruct (decide (chunk = "")) as [->|Hne].
      * rewrite str_app_nil_r. apply contains_false in Hc.
        split; [done|split]; [by rewrite Hc; intros [? ?]|].
        exists 1%nat. split; [done|]. symmetry. apply str_app_nil_r.
      * specialize (IH (buf +:+ chunk)).
        destruct (IOStream.recv_until delimiter chunks (buf +:+ chunk))
          as [rest buf'].
        rewrite str_app_assoc in IH. destruct IH as (H1 & H2 & k & Hk & Hb).
        split; [done|split; [done|]]. exists (S k). split; [done|].
        rewrite Hb. cbn [take PyStr.concat foldr]. apply str_app_assoc.
Qed.

(** The delimiter first occurs at an index [i > 0]: [read_until]
    returns the bytes up to the end of that occurrence and the stream
    keeps the rest: its buffer holds what was received after the
    occurrence, the socket what was not received yet. *)
Lemma read_until_found delimiter st i :
  PyStr.index delimiter (IOStream.readable st) = Some i -> (0 < i)%nat ->
  exists st',
    IOStream.read_until delimiter st
    = Ok (PyStr.take (i + PyStr.len delimiter) (IOStream.readable st)) st' /\
    IOStream.readable st'
    = PyStr.drop (i + PyStr.len delimiter) (IOStream.readable st) /\
    (exists k,
       inbox (IOStream.socket st') = drop k (inbox (IOStream.socket st)) /\
       IOStream.read_buffer st'
       = PyStr.drop (i + PyStr.len delimiter)
           (IOStream.read_buffer st +:+
            PyStr.concat (take k (inbox (IOStream.socket st))))) /\
    IOStream.write_buffer st' = IOStream.write_buffer st /\
    outbox (IOStream.socket st') = outbox (IOStream.socket st) /\
    closed (IOStream.socket st') = closed (IOStream.socket st) /\
    send_error (IOStream.socket st') = send_error (IOStream.socket st).
Proof.
  intros Hi Hpos. unfold IOStream.read_until, IOStream.readable in *.
  pose proof (recv_until_spec delimiter (inbox (IOStream.socket st))
                (IOStream.read_buffer st)) as Hspec.
  destruct (IOStream.recv_until delimiter (inbox (IOStream.socket st))
              (IOStream.read_buffer st)) as [rest buf'].
  destruct Hspec as (H1 & H2 & k & Hk & Hbuf). rewrite Hi in H1.
  specialize (H2 ltac:(by rewrite H1)).
  pose proof (index_bound _ _ _ H1) as Hb.
  unfold PyStr.find. rewrite H1.
  assert ((0 <? Z.of_nat i) = true) as -> by (apply Z.ltb_lt; lia).
  cbn [negb].
  assert (Z.to_nat (Z.of_nat i + Z.of_nat (PyStr.len delimiter))
          = (i + PyStr.len delimiter)%nat) as -> by lia.
  exists (IOStream.Mk (Sock.set_inbox rest (IOStream.socket st))
            (PyStr.drop (i + PyStr.len delimiter) buf')
            (IOStream.write_buffer st)).
  rewrite <- H2. split; [|split; [|split; [|by repeat split]]].
  - by rewrite str_take_app_le.
  - unfold IOStream.readable. cbn. by rewrite str_drop_app_le.
  - exists k. cbn. by rewrite <- Hbuf.
Qed.

(** The delimiter does not occur before the peer closes, or it occurs
    at index 0: [read_until] raises [ValueError]. *)
Lemma read_until_raises delimiter st :
  PyStr.index delimiter (IOStream.readable st) = None \/
  PyStr.index delimiter (IOStream.readable st) = Some 0%nat ->
  exists st', IOStream.read_until delimiter st = Raise ValueError st'.
Proof.
  intros Hi. unfold IOStream.read_until, IOStream.readable in *.
  pose proof (recv_until_spec delimiter (inbox (IOStream.socket st))
                (IOStream.read_buffer st)) as Hspec.
  destruct (IOStream.recv_until delimiter (inbox (IOStream.socket st))
              (IOStream.read_buffer st)) as [rest buf'].
  destruct Hspec as (H1 & _ & _). unfold PyStr.find.
  destruct Hi as [Hi|Hi]; rewrite Hi in H1; rewrite H1; cbn; eauto.
Qed.

(** C9. [read_until(delimiter)] on a stream [st], for every delimiter,
    buffer and incoming chunks; [IOStream.readable st] is the buffer
    followed by the bytes the peer sends before closing. When the
    delimiter first occurs in these bytes at an index [i > 0], the
    call returns their prefix through the end of that occurrence,
    after some [k] calls of [recv]; the read buffer is left with
    exactly the bytes received after the occurrence, and these
    followed by what the peer has still to send are what later reads
    get. The call raises [ValueError] exactly when the delimiter does
    not occur before the peer closes or first occurs at index 0. *)
Theorem C9_read_until_first_occurrence delimiter st :
  (forall i,
      PyStr.index delimiter (IOStream.readable st) = Some i /\ (0 < i)%nat ->
      exists st',
        IOStream.read_until delimiter st
        = Ok (PyStr.take (i + PyStr.len delimiter) (IOStream.readable st))
             st' /\
        IOStream.readable st'
        = PyStr.drop (i + PyStr.len delimiter) (IOStream.readable st) /\
        exists k,
          inbox (IOStream.socket st') = drop k (inbox (IOStream.socket st)) /\
          IOStream.read_buffer st'
          = PyStr.drop (i + PyStr.len delimiter)
              (IOStream.read_buffer st +:+
               PyStr.concat (take k (inbox (IOStream.socket st))))) /\
  ((exists st', IOStream.read_until delimiter st = Raise ValueError st') <->
   PyStr.index delimiter (IOStream.readable st) = None \/
   PyStr.index delimiter (IOStream.readable st) = Some 0%nat).
Proof.
  split.
  - intros i [Hi Hpos].
    destruct (read_until_found delimiter st i Hi Hpos)
      as (st' & H1 & H2 & H3 & _).
    by exists st'.
  - split; [|apply read_until_raises].
    intros [st' Hraise].
    destruct (PyStr.index delimiter (IOStream.readable st))
      as [[|i]|] eqn:Hi; auto.
    destruct (read_until_found delimiter st (S i) Hi ltac:(lia))
      as (st'' & H1 & _).
    congruence.
Qed.

(** A request in two chunks, with the start of a body in the second. *)
Example read_until_blank_line :
  IOStream.read_until (CRLF +:+ CRLF)
    (IOStream.new
       (sample_peer ["GET / HT"; "TP/1.0" +:+ CRLF +:+ CRLF +:+ "body"]))
  = Ok ("GET / HTTP/1.0" +:+ CRLF +:+ CRLF)
       (IOStream.Mk (sample_peer []) "body" "").
Proof. vm_compute. reflexivity. Qed.

(** C10 as stated fails: [close()] leaves the socket open. A stream
    over an open socket with ["bye"] in its write buffer: after
    [close()] the peer has the bytes and the socket is still open. *)
Lemma C10_close_leaves_socket_open :
  let st := IOStream.Mk (MkSocket [] "" false None) "" "bye" in
  exists st', IOStream.close st = Ok tt st' /\
              outbox (IOStream.socket st') = "bye" /\
              closed (IOStream.socket st') = false.
Proof. cbv zeta. eexists. split; [reflexivity|]. split; reflexivity. Qed.

(** C10 (amended). [close()] on a stream whose socket accepts the
    bytes is [flush()]: the whole write buffer is delivered to the
    peer, after what was delivered before, and the buffer is emptied;
    the socket keeps the state it had, so an open socket stays open
    (the accept loop closes it after the request). *)
Theorem C10_close_flushes_only st :
  send_error (IOStream.socket st) = None ->
  exists st',
    IOStream.close st = Ok tt st' /\
    outbox (IOStream.socket st')
    = outbox (IOStream.socket st) +:+ IOStream.write_buffer st /\
    IOStream.write_buffer st' = "" /\
    IOStream.read_buffer st' = IOStream.read_buffer st /\
    inbox (IOStream.socket st') = inbox (IOStream.socket st) /\
    closed (IOStream.socket st') = closed (IOStream.socket st).
Proof.
  intros Hs. destruct st as [[i o c e] rb wb]. simpl in Hs. subst e.
  eexists. split; [reflexivity|]. by repeat split.
Qed.

Lemma C10_close_flushes_only_witness :
  exists st',
    IOStream.close (IOStream.Mk (MkSocket [] "HTTP" false None) "" "/1.0")
    = Ok tt st' /\
    outbox (IOStream.socket st') = "HTTP" +:+ "/1.0" /\
    IOStream.write_buffer st' = "" /\
    IOStream.read_buffer st' = "" /\
    inbox (IOStream.socket st') = [] /\
    closed (IOStream.socket st') = false.
Proof.
  exact (C10_close_flushes_only
           (IOStream.Mk (MkSocket [] "HTTP" false None) "" "/1.0") eq_refl).
Defined.

End IOStreamFacts.

(** ** [http_date] *)

Section HttpDate.

Local Open Scope nat_scope.

Lemma decimal_go_last fuel n acc :
  n < 10 -> PyStr.decimal_go (S fuel) n acc = String (PyStr.digit n) acc.
Proof.
  intros Hn. cbn [PyStr.decimal_go].
  rewrite Nat.mod_small by done. rewrite Nat.div_small by done. done.
Qed.

Lemma decimal_go_more fuel n acc :
  10 <= n ->
  PyStr.decimal_go (S fuel) n acc
  = PyStr.decimal_go fuel (n / 10) (String (PyStr.digit (n mod 10)) acc).
Proof.
  intros Hn. cbn [PyStr.decimal_go].
  destruct (n / 10 =? 0) eqn:E; [|done].
  apply Nat.eqb_eq in E. apply Nat.div_small_iff in E; lia.
Qed.

Lemma decimal_one_digit n : n < 10 -> PyStr.decimal n = PyStr.chr (48 + n).
Proof. intros Hn. unfold PyStr.decimal. by rewrite decimal_go_last. Qed.

Lemma fmt_02d_two_digits n : n < 100 -> fmt_02d n = two_digits n.
Proof.
  intros Hn. unfold fmt_02d, two_digits, PyStr.decimal.
  destruct (decide (n < 10)) as [Hs|Hl].
  - rewrite decimal_go_last by done.
    rewrite Nat.div_small, Nat.mod_small by done. done.
  - destruct n as [|n]; [lia|].
    rewrite decimal_go_more by lia.
    rewrite decimal_go_last by (apply Nat.Div0.div_lt_upper_bound; lia).
    done.
Qed.

Lemma fmt_4d_four_digits n :
  10 <= n / 100 < 100 -> fmt_4d n = four_digits n.
Proof.
  intros Hn. unfold fmt_4d, four_digits, PyStr.decimal.
  assert (100 <= n) as H100.
  { destruct (decide (100 <= n)); [done|].
    rewrite Nat.div_small in Hn by lia. lia. }
  replace (S n) with (S (S (S (S (n - 3))))) by lia.
  set (m := n) in *.
  rewrite (decimal_go_more _ m) by lia.
  rewrite (decimal_go_more _ (m / 10)).
  2:{ apply Nat.div_le_lower_bound; lia. }
  assert (m / 10 / 10 = m / 100) as E by (by rewrite Nat.Div0.div_div).
  rewrite E.
  rewrite (decimal_go_more _ (m / 100)) by lia.
  rewrite decimal_go_last by (apply Nat.Div0.div_lt_upper_bound; lia).
  assert (m / 100 / 10 = m / 1000) as -> by (by rewrite Nat.Div0.div_div).
  done.
Qed.

(** The format of the date: week day, two-digit day, month name,
    four-digit year, two-digit hour, minute and second. *)
Lemma http_date_format now wday month :
  HTTP_WDAY !! tm_wday now = Some wday ->
  HTTP_MONTH !! tm_mon now = Some (Some month) ->
  tm_mday now < 100 -> 10 <= tm_year now / 100 < 100 ->
  tm_hour now < 100 -> tm_min now < 100 -> tm_sec now < 100 ->
  http_date now
  = wday +:+ ", " +:+ two_digits (tm_mday now) +:+ " " +:+ month +:+ " " +:+
    four_digits (tm_year now) +:+ " " +:+ two_digits (tm_hour now) +:+ ":" +:+
    two_digits (tm_min now) +:+ ":" +:+ two_digits (tm_sec now) +:+ " GMT".
Proof.
  intros Hw Hm Hd Hy Hh Hmi Hs. unfold http_date.
  rewrite Hw, Hm, !fmt_02d_two_digits, fmt_4d_four_digits by done.
  change (default "" (Some wday)) with wday.
  change (str_of (default None (Some (Some month)))) with month.
  assert (fmt_3s month = month) as ->; [|done].
  destruct (tm_mon now) as [|k]; [by simplify_eq/=|].
  do 12 (destruct k as [|k]; [by simplify_eq/=|]). done.
Qed.

End HttpDate.


(** ** The response driver *)

Section ResponseDriver.

Import HornedWorkerProcess.

Implicit Types (w : HornedWorkerProcess.t) (st : IOStream.t)
  (status : option string) (headers : list header) (l : Locals).

Lemma bind_ok {S A B} (m : M S A) (k : A -> M S B) s a s' :
  m s = Ok a s' -> bind m k s = k a s'.
Proof. intros H. unfold bind. by rewrite H. Qed.

Lemma bind_raise {S A B} (m : M S A) (k : A -> M S B) s e s' :
  m s = Raise e s' -> bind m k s = Raise e s'.
Proof. intros H. unfold bind. by rewrite H. Qed.

(** The loop of [send_headers] appends the lines of the kept headers
    to the write buffer. *)
Lemma write_headers_spec headers st :
  write_headers headers st
  = Ok tt (IOStream.Mk (IOStream.socket st) (IOStream.read_buffer st)
             (IOStream.write_buffer st +:+
              PyStr.concat (header_line <$> kept_headers headers))).
Proof.
  revert st. induction headers as [|h headers IH]; intros st.
  - cbn. rewrite str_app_nil_r. by destruct st.
  - cbn [write_headers]. unfold kept_headers. rewrite filter_cons.
    unfold bind at 1. destruct (decide (¬ suppressed h)) as [Hk|Hs].
    + rewrite bool_decide_eq_false_2 by done.
      cbn [IOStream.write modify]. rewrite IH. cbn.
      by rewrite str_app_assoc.
    + rewrite bool_decide_eq_true_2 by (by apply dec_stable).
      cbn [ret]. by rewrite IH.
Qed.

(** [send_headers] when the headers were not sent yet: the flag is
    set, and the header block follows what was written before. When
    the socket takes the bytes the call returns, with everything
    delivered; when [sendall] fails its error comes out. *)
Lemma send_headers_fresh status headers w :
  headers_sent w = false ->
  let r := send_headers status headers w in
  headers_sent (state_of r) = true /\
  wire (state_of r) = wire w +:+ header_block status headers (clock w) /\
  clock (state_of r) = clock w /\
  send_error (IOStream.socket (stream (state_of r)))
  = send_error (IOStream.socket (stream w)) /\
  close_calls (state_of r) = close_calls w /\
  r = match send_error (IOStream.socket (stream w)) with
      | None => Ok tt (state_of r)
      | Some errno => Raise (SocketError errno) (state_of r)
      end.
Proof.
  intros Hs. destruct w as [cfg ap al av rq er wp be [[ib ob cl se] rb wb] hs ck lg cc].
  cbn in Hs. subst hs. unfold send_headers, bind, gets, on_stream, zoom.
  cbn -[header_block str_of http_date]. rewrite write_headers_spec.
  cbn -[header_block str_of http_date kept_headers].
  unfold IOStream.flush, bind, gets, zoom, Sock.sendall.
  cbn -[header_block str_of http_date kept_headers].
  unfold wire, IOStream.wire, header_block.
  destruct se as [errno|]; cbn -[str_of http_date kept_headers];
    rewrite ?str_app_nil_r, ?str_app_assoc; by repeat split.
Qed.

(** [send_headers] when they were sent already does nothing. *)
Lemma send_headers_sent status headers w :
  headers_sent w = true -> send_headers status headers w = Ok tt w.
Proof. intros Hs. unfold send_headers, bind, gets. by rewrite Hs. Qed.

(** C7. The header block [send_headers] emits, after whatever was
    written before: the status line, the [Date] header, one line per
    application header that is kept, in the order supplied,
    [Connection: close], and a blank line. A header is kept when its
    name in lower case is neither [connection] nor [date], so every
    application-supplied [Date] or [Connection] header is suppressed.
    The date reads [<WDay>, <DD> <Mon> <YYYY> <HH>:<MM>:<SS> GMT] for
    the broken-down times [gmtime] returns. *)
Theorem C7_send_headers_block status headers w :
  headers_sent w = false ->
  wire (state_of (send_headers status headers w))
  = wire w +:+
    ("HTTP/1.0 " +:+ str_of status +:+ CRLF) +:+
    ("Date: " +:+ http_date (clock w) +:+ CRLF) +:+
    PyStr.concat (header_line <$> kept_headers headers) +:+
    ("Connection: close" +:+ CRLF) +:+
    CRLF /\
  (forall h, h ∈ kept_headers headers <->
             h ∈ headers /\ PyStr.lower (fst h) <> "connection" /\
             PyStr.lower (fst h) <> "date") /\
  (forall wday month,
      HTTP_WDAY !! tm_wday (clock w) = Some wday /\
      HTTP_MONTH !! tm_mon (clock w) = Some (Some month) /\
      (tm_mday (clock w) < 100)%nat /\
      (10 <= tm_year (clock w) / 100 < 100)%nat /\
      (tm_hour (clock w) < 100)%nat /\ (tm_min (clock w) < 100)%nat /\
      (tm_sec (clock w) < 100)%nat ->
      http_date (clock w)
      = wday +:+ ", " +:+ two_digits (tm_mday (clock w)) +:+ " " +:+
        month +:+ " " +:+ four_digits (tm_year (clock w)) +:+ " " +:+
        two_digits (tm_hour (clock w)) +:+ ":" +:+
        two_digits (tm_min (clock w)) +:+ ":" +:+
        two_digits (tm_sec (clock w)) +:+ " GMT").
Proof.
  intros Hs. split; [|split].
  - by destruct (send_headers_fresh status headers w Hs) as (_ & -> & _).
  - intros h. unfold kept_headers, suppressed.
    rewrite list_elem_of_filter, !elem_of_cons, elem_of_nil. tauto.
  - intros wday month (? & ? & ? & ? & ? & ? & ?).
    by apply http_date_format.
Qed.

Lemma C7_send_headers_block_witness :
  wire (state_of (send_headers (Some "200 OK")
                    [("Content-Type", "text/plain"); ("DATE", "today");
                     ("connection", "keep-alive")]
                    (sample_worker demo_app (sample_peer []))))
  = "HTTP/1.0 200 OK" +:+ CRLF +:+
    "Date: Mon, 07 Mar 2011 09:05:00 GMT" +:+ CRLF +:+
    "Content-Type: text/plain" +:+ CRLF +:+
    "Connection: close" +:+ CRLF +:+ CRLF.
Proof.
  exact (proj1 (C7_send_headers_block (Some "200 OK")
                  [("Content-Type", "text/plain"); ("DATE", "today");
                   ("connection", "keep-alive")]
                  (sample_worker demo_app (sample_peer [])) eq_refl)).
Defined.

(** *** The chunk loops *)

Lemma str_concat_app (l1 l2 : list string) :
  PyStr.concat (l1 ++ l2) = PyStr.concat l1 +:+ PyStr.concat l2.
Proof.
  induction l1 as [|x l1 IH]; [done|].
  cbn. unfold PyStr.concat in *. by rewrite IH, str_app_assoc.
Qed.

Lemma str_concat_singleton (x : string) : PyStr.concat [x] = x.
Proof. unfold PyStr.concat. cbn. apply str_app_nil_r. Qed.

Lemma progress_refl status headers w : progress status headers w w [].
Proof.
  unfold progress. repeat split.
  destruct (headers_sent w) eqn:E.
  - split; [done|]. by rewrite str_app_nil_r.
  - by left.
Qed.

Lemma progress_trans status headers w w1 w2 done1 done2 :
  progress status headers w w1 done1 ->
  progress status headers w1 w2 done2 ->
  progress status headers w w2 (done1 ++ done2).
Proof.
  unfold progress. intros (C1 & E1 & K1 & H1) (C2 & E2 & K2 & H2).
  split; [congruence|]. split; [congruence|]. split; [congruence|].
  rewrite str_concat_app. destruct (headers_sent w).
  - destruct H1 as [S1 W1]. rewrite S1 in H2. destruct H2 as [S2 W2].
    split; [done|]. by rewrite W2, W1, str_app_assoc.
  - destruct H1 as [(S1 & -> & W1)|(S1 & W1)]; rewrite S1 in H2.
    + rewrite C1, W1 in H2. by rewrite str_app_nil_l.
    + destruct H2 as [S2 W2]. right. split; [done|].
      by rewrite W2, W1, !str_app_assoc.
Qed.

(** Application code does not touch the worker. *)
Lemma run_op_state op l w : state_of (run_op op l w) = w.
Proof.
  destruct op as [s h [e|]| |]; cbn; try done.
  unfold start_response, bind, gets, raise, ret.
  by destruct (headers_sent w).
Qed.

Lemma run_op_quiet op l w :
  quiet (Do op) -> exists l', run_op op l w = Ok l' w.
Proof. destruct op as [s h [e|]| |]; cbn; intros H; by eauto. Qed.

(** One chunk: the headers if they are still to be sent, then the
    chunk. *)
Lemma write_chunk_spec status headers chunk w :
  let r := ((sent <- gets headers_sent ;;
             (if negb sent then send_headers status headers else ret tt) ;;
             on_stream (IOStream.write chunk))%monad) w in
  (exists w', r = Ok tt w' /\ progress status headers w w' [chunk]) \/
  (exists e w', r = Raise e w' /\ progress status headers w w' []) /\
  send_error (IOStream.socket (stream w)) <> None.
Proof.
  cbv zeta. unfold bind, gets. cbv beta iota.
  assert (forall w0, exists w',
    on_stream (IOStream.write chunk) w0 = Ok tt w' /\
    headers_sent w' = headers_sent w0 /\ clock w' = clock w0 /\
    send_error (IOStream.socket (stream w')) =
      send_error (IOStream.socket (stream w0)) /\
    close_calls w' = close_calls w0 /\
    wire w' = wire w0 +:+ chunk) as Hwrite.
  { intros w0. eexists. split; [reflexivity|].
    destruct w0 as [? ? ? ? ? ? ? ? [[? ? ? ?] ? ?] ? ? ? ?].
    unfold wire, IOStream.wire. cbn. by rewrite str_app_assoc. }
  destruct (headers_sent w) eqn:Hs; cbn [negb].
  - cbn [ret]. destruct (Hwrite w) as (w' & -> & S' & C' & E' & K' & W').
    left. exists w'. split; [done|]. unfold progress. rewrite Hs.
    rewrite str_concat_singleton. by repeat split; try congruence.
  - destruct (send_headers_fresh status headers w Hs)
      as (S1 & W1 & C1 & E1 & K1 & R1).
    destruct (send_error (IOStream.socket (stream w))) as [errno|] eqn:Herr.
    + right. split; [|done]. rewrite R1. do 2 eexists. split; [done|].
      unfold progress. rewrite Hs. cbv beta iota.
      split; [done|]. split; [congruence|]. split; [done|].
      right. split; [done|]. change (PyStr.concat []) with "".
      by rewrite str_app_nil_r.
    + left. rewrite R1.
      destruct (Hwrite (state_of (send_headers status headers w)))
        as (w' & -> & S' & C' & E' & K' & W').
      exists w'. split; [done|]. unfold progress. rewrite Hs.
      cbv beta iota. split; [congruence|]. split; [congruence|]. split; [congruence|].
      right. split; [congruence|].
      by rewrite W', W1, str_concat_singleton, str_app_assoc.
Qed.

Lemma for_chunk_yield status headers chunk rest n l w :
  for_chunk status headers (Yield chunk :: rest) n l w
  = bind (sent <- gets headers_sent ;;
          (if negb sent then send_headers status headers else ret tt) ;;
          on_stream (IOStream.write chunk))%monad
         (fun _ => for_chunk status headers rest (n + PyStr.len chunk) l) w.
Proof.
  cbn [for_chunk]. unfold bind, gets. cbv beta iota.
  destruct (headers_sent w); cbn [negb].
  - cbn [ret]. by destruct (on_stream (IOStream.write chunk) w).
  - destruct (send_headers status headers w) as [[] w1|e w1]; [|done].
    by destruct (on_stream (IOStream.write chunk) w1).
Qed.

(** The inner loop: it writes the chunks the iterable yields, in
    order, as far as it gets; it gets to the end unless application
    code raises or the socket fails. *)
Lemma for_chunk_spec status headers todo n l w :
  let r := for_chunk status headers todo n l w in
  exists done,
    done `prefix_of` yields todo /\
    progress status headers w (state_of r) done /\
    (forall res w', r = Ok res w' ->
       done = yields todo /\
       fst res = (n + sum_list_with PyStr.len (yields todo))%nat) /\
    (Forall quiet todo ->
     send_error (IOStream.socket (stream w)) = None ->
     exists res, r = Ok res (state_of r)).
Proof.
  cbv zeta. revert n l w.
  induction todo as [|[chunk|op] rest IH]; intros n l w.
  - exists []. cbn. split; [done|]. split; [apply progress_refl|].
    split; [|by eauto]. intros res w' [= <- <-]. cbn. split; [done|lia].
  - rewrite for_chunk_yield.
    destruct (write_chunk_spec status headers chunk w)
      as [(w1 & H1 & P1)|[(e & w1 & H1 & P1) Herr]].
    all: cbv zeta in H1.
    all: first [rewrite (bind_ok _ _ _ _ _ H1)|rewrite (bind_raise _ _ _ _ _ H1)].
    + destruct (IH (n + PyStr.len chunk)%nat l w1)
        as (done & Hpre & P2 & Hok & Hq).
      exists (chunk :: done). cbn [yields]. split; [by apply prefix_cons|].
      split; [by apply (progress_trans _ _ w w1 _ [chunk] done)|]. split.
      * intros res w' Hr. destruct (Hok res w' Hr) as [-> ->].
        split; [done|]. cbn. lia.
      * intros Hall Herr. apply Forall_cons in Hall as [_ Hall].
        apply Hq; [done|]. destruct P1 as (_ & -> & _). done.
    + exists []. cbn [state_of]. split; [apply prefix_nil|].
      split; [done|]. split; [done|]. by intros _ ?.
  - cbn [for_chunk yields].
    pose proof (run_op_state op l w) as Hst.
    destruct (run_op op l w) as [l' w1|e w1] eqn:Hop; cbn in Hst; subst w1.
    all: first [rewrite (bind_ok _ _ _ _ _ Hop)|rewrite (bind_raise _ _ _ _ _ Hop)].
    + destruct (IH n l' w) as (done & Hpre & P2 & Hok & Hq).
      exists done. split; [done|]. split; [done|]. split; [done|].
      intros Hall Herr. apply Forall_cons in Hall as [_ Hall]. by apply Hq.
    + exists []. cbn [state_of]. split; [apply prefix_nil|].
      split; [apply progress_refl|]. split; [done|].
      intros Hall _. apply Forall_cons in Hall as [Hq _].
      destruct (run_op_quiet op l w Hq) as [l' Hl]. congruence.
Qed.

Lemma yields_iter_list (items : list string) :
  yields (steps (iter_list items)) = items.
Proof. induction items as [|x items IH]; [done|]. cbn. by f_equal. Qed.

Lemma quiet_iter_list (items : list string) :
  Forall quiet (steps (iter_list items)).
Proof. induction items as [|x items IH]; cbn; by constructor. Qed.

(** The outer loop: the same over the sources one after the other;
    when it gets to the end, the iterable it returns is the last
    source, which is what its variable [chunks] is then bound to. *)
Lemma for_chunks_spec status headers sources chunks n l w :
  let r := for_chunks status headers sources chunks n l w in
  let all := concat ((fun source => yields (steps source)) <$> sources) in
  exists done,
    done `prefix_of` all /\
    progress status headers w (state_of r) done /\
    (forall res w', r = Ok res w' ->
       done = all /\
       fst (fst res) = default chunks (last sources) /\
       snd (fst res) = (n + sum_list_with PyStr.len all)%nat) /\
    (Forall (fun source => Forall quiet (steps source)) sources ->
     send_error (IOStream.socket (stream w)) = None ->
     exists res, r = Ok res (state_of r)).
Proof.
  cbv zeta. revert chunks n l w.
  induction sources as [|source sources IH]; intros chunks n l w.
  - exists []. cbn. split; [done|]. split; [apply progress_refl|].
    split; [|by eauto]. intros res w' [= <- <-]. cbn. repeat split. lia.
  - cbn [for_chunks fmap list_fmap concat].
    destruct (for_chunk_spec status headers (steps source) n l w)
      as (done1 & Hpre1 & P1 & Hok1 & Hq1). cbv zeta in *.
    destruct (for_chunk status headers (steps source) n l w)
      as [res1 w1|e w1] eqn:Hrun.
    + rewrite (bind_ok _ _ _ _ _ Hrun). cbn [state_of] in P1.
      destruct (Hok1 res1 w1 eq_refl) as [-> Hn1].
      destruct (IH source (fst res1) (snd res1) w1)
        as (done2 & Hpre2 & P2 & Hok2 & Hq2).
      exists (yields (steps source) ++ done2).
      split; [apply prefix_app; exact Hpre2|].
      split; [exact (progress_trans _ _ _ _ _ _ _ P1 P2)|]. split.
      * intros res w' Hr. destruct (Hok2 res w' Hr) as (-> & Hc & Hn).
        split; [done|]. split.
        -- rewrite Hc. destruct sources as [|s2 sources]; [done|].
           rewrite last_cons_cons.
           destruct (last (s2 :: sources)) eqn:E; [done|].
           by apply last_None in E.
        -- rewrite Hn, Hn1, sum_list_with_app. lia.
      * intros Hall Herr. apply Forall_cons in Hall as [Hq Hall].
        apply Hq2; [done|]. destruct P1 as (_ & -> & _). done.
    + rewrite (bind_raise _ _ _ _ _ Hrun). cbn [state_of] in *.
      exists done1.
      split; [apply prefix_app_r; exact Hpre1|]. split; [exact P1|].
      split; [done|].
      intros Hall Herr. apply Forall_cons in Hall as [Hq _].
      destruct (Hq1 Hq Herr) as [res Hres]. congruence.
Qed.

(** What [send_response] does, whatever the application and the
    socket do. *)
Lemma send_response_spec status headers chunks items l w :
  let r := send_response status headers chunks items l w in
  let all := items ++ yields (steps chunks) ++ [""] in
  exists done,
    done `prefix_of` all /\
    progress status headers w (state_of r) done /\
    (forall res w', r = Ok res w' ->
       done = all /\ fst res = sum_list_with PyStr.len all) /\
    (Forall quiet (steps chunks) ->
     send_error (IOStream.socket (stream w)) = None ->
     exists res, r = Ok res (state_of r)).
Proof.
  cbv zeta. unfold send_response.
  destruct (for_chunks_spec status headers
              [iter_list items; chunks; iter_list [""]] chunks 0%nat l w)
    as (done & Hpre & P & Hok & Hq). cbv zeta in *.
  cbn [fmap list_fmap concat] in *. rewrite !yields_iter_list in *.
  rewrite app_nil_r in *.
  destruct (for_chunks status headers
              [iter_list items; chunks; iter_list [""]] chunks 0%nat l w)
    as [[[last_chunks n] l'] w1|e w1] eqn:Hrun.
  - rewrite (bind_ok _ _ _ _ _ Hrun).
    destruct (Hok _ _ eq_refl) as (-> & Hc & Hn). cbn in Hc, Hn. subst.
    cbn. exists (items ++ yields (steps chunks) ++ [""]).
    split; [done|]. split; [done|]. split; [|by eauto].
    by intros res w' [= <- <-].
  - rewrite (bind_raise _ _ _ _ _ Hrun). exists done.
    split; [done|]. split; [done|]. split; [done|].
    intros Hall Herr. destruct Hq as [res Hres]; [|done|congruence].
    repeat constructor; [apply quiet_iter_list|done].
Qed.

(** C6. Within a request the headers go out once, before the body.
    When [send_response] starts with the headers unsent, whatever the
    application's iterable and the socket do, the connection ends up
    either untouched with the flag still false, or with the flag true
    and, after what was written before, the header block once and then
    chunks of the body, in order. When the call returns, the flag is
    true and the header block is followed by all of the body: this
    includes an application that passes no data and yields nothing,
    thanks to the empty chunk the loop ends with. The call does return
    when the iterable's code cannot raise and the socket takes the
    bytes. Once the flag is true it stays true and nothing but body
    chunks is written: no second header block. *)
Theorem C6_headers_sent_once status headers chunks items l w :
  let r := send_response status headers chunks items l w in
  let w' := state_of r in
  let body := items ++ yields (steps chunks) in
  let block := header_block status headers (clock w) in
  (headers_sent w = false ->
     ((headers_sent w' = false /\ wire w' = wire w) \/
      (headers_sent w' = true /\
       exists done, done `prefix_of` body ++ [""] /\
                    wire w' = wire w +:+ block +:+ PyStr.concat done)) /\
     (forall res w'', r = Ok res w'' ->
        headers_sent w'' = true /\
        wire w'' = wire w +:+ block +:+ PyStr.concat body) /\
     (body = [] -> forall res w'', r = Ok res w'' ->
        headers_sent w'' = true /\ wire w'' = wire w +:+ block) /\
     (Forall quiet (steps chunks) ->
      send_error (IOStream.socket (stream w)) = None ->
      exists res, r = Ok res w')) /\
  (headers_sent w = true ->
     headers_sent w' = true /\
     exists done, done `prefix_of` body ++ [""] /\
                  wire w' = wire w +:+ PyStr.concat done).
Proof.
  cbv zeta.
  destruct (send_response_spec status headers chunks items l w)
    as (done & Hpre & P & Hok & Hq). cbv zeta in *.
  rewrite <- app_assoc.
  assert (forall res w'',
            send_response status headers chunks items l w = Ok res w'' ->
            headers_sent w = false ->
            headers_sent w'' = true /\
            wire w'' = wire w +:+ header_block status headers (clock w) +:+
                       PyStr.concat (items ++ yields (steps chunks))) as Hdone.
  { intros res w'' Hr Hs. destruct (Hok res w'' Hr) as [-> _].
    rewrite Hr in P. cbn [state_of] in P. destruct P as (_ & _ & _ & P).
    rewrite Hs in P. destruct P as [(_ & Hnil & _)|[Hs' Hw]].
    - destruct items; [destruct (yields (steps chunks))|]; done.
    - split; [done|]. rewrite Hw.
      replace (items ++ yields (steps chunks) ++ [""])
        with ((items ++ yields (steps chunks)) ++ [""])
        by (by rewrite <- app_assoc).
      by rewrite (str_concat_app _ [""]), str_concat_singleton,
        str_app_nil_r. }
  split.
  - intros Hs. split; [|split; [|split]].
    + destruct P as (_ & _ & _ & P). rewrite Hs in P.
      destruct P as [(Hs' & _ & Hw)|[Hs' Hw]]; [by left|].
      right. split; [done|]. by exists done.
    + intros res w'' Hr. by eapply Hdone.
    + intros Hnil res w'' Hr. destruct (Hdone res w'' Hr Hs) as [Hs' Hw].
      split; [done|]. rewrite Hw, Hnil. by rewrite str_app_nil_r.
    + done.
  - intros Hs. destruct P as (_ & _ & _ & P). rewrite Hs in P.
    destruct P as [Hs' Hw]. split; [done|]. by exists done.
Qed.

(** C3 (code defect). [send_response] never calls [close()] on the
    iterable the application returned, whether or not it has one: when
    the loop is over, its variable [chunks] is the last source, the
    list [[""]], and that is what [hasattr(chunks, "close")] is asked
    of. An application that returns one chunk from an iterable with a
    [close()] method: the response is sent and [close()] is not called. *)
Theorem C3_send_response_never_closes :
  (forall status headers chunks items l w,
     close_calls (state_of (send_response status headers chunks items l w))
     = close_calls w) /\
  (let chunks := Iterable [Yield "hi"] true in
   let w := sample_worker demo_app (sample_peer []) in
   exists w',
     send_response (Some "200 OK") [] chunks [] (MkLocals (Some "200 OK") [] []) w
     = Ok (2%nat, MkLocals (Some "200 OK") [] []) w' /\
     has_close chunks = true /\ close_calls w = 0%nat /\
     close_calls w' = 0%nat).
Proof.
  split.
  - intros status headers chunks items l w.
    destruct (send_response_spec status headers chunks items l w)
      as (done & _ & P & _). by destruct P as (_ & _ & -> & _).
  - cbv zeta. eexists. split; [vm_compute; reflexivity|]. by repeat split.
Qed.

(** C8. [start_response] called with an [exc_info]: when the headers
    were sent, the triple is raised (into the application, which made
    the call); when they were not, the call returns and the status and
    headers it was given replace the ones recorded before. Every call
    that returns, with or without [exc_info], returns the write sink
    [data.append], and what the sink is given is appended to the data
    chunks, which the response driver writes before the chunks of the
    returned iterable. *)
Theorem C8_start_response_exc_info (status : string) headers e l w :
  (headers_sent w = true ->
     start_response status headers (Some e) l w = Raise (AppError e) w) /\
  (headers_sent w = false ->
     exists sink l',
       start_response status headers (Some e) l w = Ok (sink, l') w /\
       response_status l' = Some status /\
       response_headers l' = headers /\ data l' = data l) /\
  (forall exc sink l' w',
     start_response status headers exc l w = Ok (sink, l') w' ->
     w' = w /\ response_status l' = Some status /\
     response_headers l' = headers /\ data l' = data l /\
     forall bytes l0,
       data (sink bytes l0) = data l0 ++ [bytes] /\
       response_status (sink bytes l0) = response_status l0 /\
       response_headers (sink bytes l0) = response_headers l0).
Proof.
  unfold start_response, bind, gets, raise, ret. split; [|split].
  - by intros ->.
  - intros ->. by do 2 eexists.
  - intros [e'|] sink l' w'; [destruct (headers_sent w); [done|]|];
      intros [= <- <- <-]; by repeat split.
Qed.

(** The error path of [start_response] at work: an application whose
    iterable yields a chunk, so that the headers are sent, and then
    calls [start_response] with an [exc_info]. The triple comes out of
    the iterable, through [send_response]. *)
Example start_response_after_headers :
  let chunks :=
    Iterable [Yield "partial";
              Do (CallStartResponse "500 Oops" [] (Some (ExcInfo "KeyError" "k")))]
             false in
  exists w',
    send_response (Some "200 OK") [] chunks []
      (MkLocals (Some "200 OK") [] [])
      (sample_worker demo_app (sample_peer []))
    = Raise (AppError (ExcInfo "KeyError" "k")) w' /\
    headers_sent w' = true.
Proof. cbv zeta. eexists. split; [vm_compute; reflexivity|done]. Qed.

End ResponseDriver.


(** ** The worker: construction and accept loop *)

Section Worker.

Import HornedWorkerProcess.

Implicit Types (w : HornedWorkerProcess.t) (connection : Socket)
  (client_address : address).

(** C1 (code defect). [HornedWorkerProcess.__init__] always raises:
    when the application is there (a callable, or a name [get_app]
    resolves), the expression [self.get("access_log")] raises
    [AttributeError], because neither the instance, nor the class, nor
    [object] has an attribute [get]; otherwise [get_app] has raised
    before. No worker object is ever built, so the child of the fork
    never reaches [run()] and its accept loop. *)
Theorem C1_init_raises_AttributeError
  (get_app : string -> exn + application)
  (call_attribute : string -> string -> exn + bool)
  (port : nat) (cfg : Config) (os_environ : gmap string string)
  (hostname : string) (now : struct_time) :
  has_attribute ["sock"; "config"; "app"] "get" = false /\
  (forall a,
     cfg_application cfg = AppCallable a \/
     (exists name, cfg_application cfg = AppName name /\
                   get_app name = inr a) ->
     __init__ get_app call_attribute port cfg os_environ hostname now
     = inl (AttributeError "get")) /\
  (forall w,
     __init__ get_app call_attribute port cfg os_environ hostname now
     <> inr w) /\
  (forall events, exists e,
     HornedWorker.child get_app call_attribute port cfg os_environ
       hostname now events = inl e).
Proof.
  assert (has_attribute ["sock"; "config"; "app"] "get" = false) as Hget
    by (vm_compute; reflexivity).
  assert (exists e, __init__ get_app call_attribute port cfg os_environ
                      hostname now = inl e) as [e He].
  { unfold __init__. rewrite Hget.
    destruct (cfg_application cfg) as [a|name]; [by eauto|].
    destruct (get_app name); by eauto. }
  split; [done|]. split; [|split].
  - intros a Ha. unfold __init__. rewrite Hget.
    destruct Ha as [->|(name & -> & ->)]; done.
  - intros w. by rewrite He.
  - intros events. exists e. unfold HornedWorker.child. by rewrite He.
Qed.

(** [read_until] touches the read side of the stream only. *)
Lemma read_until_frame delimiter (st : IOStream.t) :
  let st' := state_of (IOStream.read_until delimiter st) in
  IOStream.write_buffer st' = IOStream.write_buffer st /\
  outbox (IOStream.socket st') = outbox (IOStream.socket st) /\
  closed (IOStream.socket st') = closed (IOStream.socket st) /\
  send_error (IOStream.socket st') = send_error (IOStream.socket st).
Proof.
  cbv zeta. unfold IOStream.read_until.
  destruct (IOStream.recv_until _ _ _) as [rest buf].
  by destruct (negb _).
Qed.

(** After the header block is read, [parse_request] computes: the
    worker is as [read_until] left it. *)
Lemma parse_request_state client_address w :
  state_of (parse_request client_address w)
  = state_of (on_stream (IOStream.read_until (CRLF +:+ CRLF)) w).
Proof.
  unfold parse_request. unfold bind at 1.
  destruct (on_stream (IOStream.read_until (CRLF +:+ CRLF)) w)
    as [header_data w1|e w1]; [|done].
  cbn [state_of]. unfold bind, gets, ret, raise.
  repeat case_match; done.
Qed.

Lemma parse_request_frame client_address w :
  let w' := state_of (parse_request client_address w) in
  errors w' = errors w /\ requests w' = requests w /\
  headers_sent w' = headers_sent w /\ alive w' = alive w /\
  logged w' = logged w /\ close_calls w' = close_calls w /\
  wire w' = wire w /\
  closed (IOStream.socket (stream w'))
  = closed (IOStream.socket (stream w)).
Proof.
  cbv zeta. rewrite parse_request_state. unfold on_stream, zoom.
  pose proof (read_until_frame (CRLF +:+ CRLF) (stream w)) as Hf.
  cbv zeta in Hf.
  destruct (IOStream.read_until (CRLF +:+ CRLF) (stream w)) as [a st|e st];
    cbn [state_of] in *; destruct Hf as (Hw & Ho & Hc & He);
    unfold wire, IOStream.wire; cbn; by rewrite Hw, Ho, Hc.
Qed.

(** C2 (code defect). A request whose parse fails with the protocol
    error, [ValueError]: the round of the accept loop that serves it
    closes the connection with no byte written to it, as specified; but
    the [except socket.error] clause does not catch [ValueError], so
    the error counter is not incremented and the exception leaves
    [run()]: the worker process ends instead of going on accepting.
    The request ["GARBAGE\r\n\r\n"] is one such. *)
Theorem C2_protocol_error_ends_worker :
  (forall w socks connection client_address w1,
     parse_request client_address
       (set_headers_sent false (set_stream (IOStream.new connection) w))
     = Raise ValueError w1 ->
     exists w',
       round (SelectReturns true) (Accepts connection client_address) socks w
       = Raise ValueError w' /\
       wire w' = outbox connection /\
       closed (IOStream.socket (stream w')) = true /\
       errors w' = errors w /\ requests w' = requests w /\
       (alive w = true -> forall rest,
          loop (Round (SelectReturns true)
                  (Accepts connection client_address) :: rest) socks w
          = Crashed ValueError w')) /\
  (let garbage := sample_peer ["GARBAGE" +:+ CRLF +:+ CRLF] in
   let w := sample_worker demo_app (sample_peer []) in
   exists w',
     run [Round (SelectReturns true) (Accepts garbage (AddrInet "10.0.0.9" 4711));
          Round (SelectReturns true)
            (Accepts (sample_peer ["GET / HTTP/1.0" +:+ CRLF +:+ CRLF])
                     (AddrInet "10.0.0.9" 4712))] w
     = Crashed ValueError w' /\
     errors w' = errors w /\ requests w' = 0%nat /\
     wire w' = "" /\ closed (IOStream.socket (stream w')) = true).
Proof.
  split.
  - intros w socks connection client_address w1 Hparse.
    pose proof (parse_request_frame client_address
                  (set_headers_sent false
                     (set_stream (IOStream.new connection) w))) as Hf.
    cbv zeta in Hf. rewrite Hparse in Hf. cbn [state_of] in Hf.
    destruct Hf as (He & Hr & _ & _ & _ & _ & Hw & _).
    assert (handle_request connection client_address w = Raise ValueError w1)
      as Hh.
    { unfold handle_request. unfold bind at 1 2 3, modify.
      by rewrite Hparse. }
    exists (set_stream
              (IOStream.set_socket (Sock.close (IOStream.socket (stream w1)))
                 (stream w1)) w1).
    assert (round (SelectReturns true) (Accepts connection client_address)
              socks w
            = Raise ValueError
                (set_stream
                   (IOStream.set_socket
                      (Sock.close (IOStream.socket (stream w1)))
                      (stream w1)) w1)) as Hround.
    { unfold round. erewrite bind_raise; [done|].
      unfold serve. by rewrite (bind_raise _ _ _ _ _ Hh). }
    split; [done|]. split; [|split; [done|split; [done|split; [done|]]]].
    + transitivity (wire w1); [done|]. rewrite Hw.
      unfold wire, IOStream.wire. cbn. apply str_app_nil_r.
    + intros Ha rest. cbn [loop]. by rewrite Ha, Hround.
  - cbv zeta. eexists. split; [vm_compute; reflexivity|]. by repeat split.
Qed.

(** The sibling path: a [socket.error], here [accept()] interrupted,
    is counted and logged, and the loop goes on. *)
Example round_socket_error_counted socks w :
  round (SelectReturns true) (AcceptRaises EINTR) socks w
  = Ok (Continue, Some true)
       (log (LogError "accept() interrupted") (set_errors (errors w + 1) w)).
Proof. reflexivity. Qed.

End Worker.


(** ** Lines and tokens *)

Section Lines.

Local Open Scope nat_scope.

Implicit Types (s t sub line rest : string) (lines : list string).

Lemma fmap_plus_0 (o : option nat) : (fun i => 0 + i) <$> o = o.
Proof. by destruct o. Qed.

(** When no occurrence starts at the first [n] positions, [index]
    finds what it finds from position [n] on. *)
Lemma index_skip sub s n :
  (forall j, j < n -> PyStr.startswith sub (PyStr.drop j s) = false) ->
  n <= PyStr.len s ->
  PyStr.index sub s = (fun i => n + i) <$> PyStr.index sub (PyStr.drop n s).
Proof.
  revert s. induction n as [|n IH]; intros s Hno Hn.
  - by rewrite str_drop_0, fmap_plus_0.
  - destruct s as [|a s]; [cbn in Hn; lia|].
    rewrite index_cons_false by (apply (Hno 0); lia).
    cbn [PyStr.drop]. rewrite (IH s).
    + by destruct (PyStr.index sub (PyStr.drop n s)).
    + intros j Hj. apply (Hno (S j)). lia.
    + unfold PyStr.len in *. cbn in Hn. lia.
Qed.

Lemma startswith_app_false sub t s :
  PyStr.startswith sub s = false -> PyStr.startswith (sub +:+ t) s = false.
Proof.
  revert s. induction sub as [|a sub IH]; intros s H; [done|].
  rewrite str_app_cons. destruct s as [|b s]; [done|].
  cbn in *. destruct (decide (a = b)); [by apply IH|done].
Qed.

(** A line without CRLF, followed by CRLF: no CRLF starts inside the
    line. *)
Lemma crlf_not_inside line rest j :
  PyStr.index CRLF line = None -> j < PyStr.len line ->
  PyStr.startswith CRLF (PyStr.drop j (line +:+ CRLF +:+ rest)) = false.
Proof.
  intros Hnone Hj. rewrite str_drop_app_le by lia.
  pose proof (index_None _ _ Hnone j) as Hs.
  pose proof (str_len_drop j line) as Hl.
  destruct (PyStr.drop j line) as [|a t]; [cbn in Hl; lia|].
  rewrite str_app_cons. cbn in *.
  destruct (decide ("013"%char = a)) as [<-|]; [|done].
  destruct t as [|b t]; [done|].
  rewrite str_app_cons. by destruct (decide ("010"%char = b)).
Qed.

Lemma index_crlf_app line rest :
  PyStr.index CRLF line = None ->
  PyStr.index CRLF (line +:+ CRLF +:+ rest) = Some (PyStr.len line).
Proof.
  intros Hnone. rewrite (index_skip _ _ (PyStr.len line)).
  - rewrite str_drop_app_len. rewrite index_true by done.
    cbn. f_equal. lia.
  - intros j Hj. by apply crlf_not_inside.
  - rewrite str_len_app. lia.
Qed.

(** [split] on CRLF gives back the lines, and two empty strings for
    the CRLF CRLF at the end. *)
Lemma split_max_lines n lines :
  Forall (fun line => PyStr.index CRLF line = None) lines ->
  length lines < n ->
  PyStr.split_max n (join_lines lines +:+ CRLF) CRLF = lines ++ [""; ""].
Proof.
  revert n. induction lines as [|line lines IH]; intros n Hall Hn.
  - destruct n as [|n]; [lia|]. cbn. by destruct n.
  - destruct n as [|n]; [cbn in Hn; lia|].
    apply Forall_cons in Hall as [Hline Hall].
    unfold join_lines. cbn [fmap list_fmap PyStr.concat foldr].
    fold (PyStr.concat ((fun line => line +:+ CRLF) <$> lines)).
    fold (join_lines lines).
    rewrite !str_app_assoc. cbn [PyStr.split_max].
    rewrite index_crlf_app by done.
    rewrite str_take_app_len.
    change (PyStr.len CRLF) with 2.
    rewrite <- (str_app_assoc line CRLF).
    replace (PyStr.len line + 2) with (PyStr.len (line +:+ CRLF))
      by (rewrite str_len_app; done).
    rewrite str_drop_app_len. cbn [app]. f_equal.
    apply IH; [done|]. cbn in Hn. lia.
Qed.

Lemma len_join_lines lines :
  2 * length lines <= PyStr.len (join_lines lines).
Proof.
  induction lines as [|line lines IH]; [cbn; lia|].
  unfold join_lines in *. cbn [fmap list_fmap PyStr.concat foldr length].
  rewrite !str_len_app. change (PyStr.len CRLF) with 2.
  unfold PyStr.concat in IH. lia.
Qed.

Lemma split_lines lines :
  Forall (fun line => PyStr.index CRLF line = None) lines ->
  PyStr.split (join_lines lines +:+ CRLF) CRLF = lines ++ [""; ""].
Proof.
  intros Hall. unfold PyStr.split. apply split_max_lines; [done|].
  rewrite str_len_app. pose proof (len_join_lines lines).
  change (PyStr.len CRLF) with 2. lia.
Qed.

(** The blank line that ends the head is the first CRLF CRLF of the
    request, when no line has a CRLF inside and none is empty. *)
Lemma index_blank_line lines rest :
  lines <> [] ->
  Forall (fun line => PyStr.index CRLF line = None /\ line <> "") lines ->
  PyStr.index (CRLF +:+ CRLF) (join_lines lines +:+ CRLF +:+ rest)
  = Some (PyStr.len (join_lines lines) - 2).
Proof.
  induction lines as [|line lines IH]; intros Hne Hall; [done|].
  apply Forall_cons in Hall as [[Hline Hnonempty] Hall].
  unfold join_lines. cbn [fmap list_fmap PyStr.concat foldr].
  fold (PyStr.concat ((fun line => line +:+ CRLF) <$> lines)).
  fold (join_lines lines). rewrite !str_app_assoc.
  assert (forall tail j, j < PyStr.len line ->
            PyStr.startswith (CRLF +:+ CRLF)
              (PyStr.drop j (line +:+ CRLF +:+ tail)) = false) as Hinside.
  { intros tail j Hj. apply startswith_app_false. by apply crlf_not_inside. }
  destruct lines as [|line2 lines].
  - change (join_lines []) with "". rewrite str_app_nil_l.
    rewrite (index_skip _ _ (PyStr.len line)).
    + rewrite str_drop_app_len. rewrite index_true.
      * cbn. f_equal. rewrite !str_len_app. change (PyStr.len CRLF) with 2.
        change (PyStr.len "") with 0. lia.
      * rewrite <- str_app_assoc. apply startswith_app.
    + intros j Hj. by apply Hinside.
    + rewrite str_len_app. lia.
  - specialize (IH ltac:(done) Hall).
    apply Forall_cons in Hall as [[Hline2 Hnonempty2] _].
    set (tail := join_lines (line2 :: lines) +:+ CRLF +:+ rest) in *.
    assert (PyStr.startswith CRLF tail = false) as Htail.
    { unfold tail, join_lines.
      cbn [fmap list_fmap PyStr.concat foldr]. rewrite !str_app_assoc.
      destruct line2 as [|a line2]; [done|].
      apply (crlf_not_inside (String a line2) _ 0); [done|]. cbn. lia. }
    rewrite (index_skip _ _ (PyStr.len line + 2)).
    + replace (PyStr.len line + 2) with (PyStr.len (line +:+ CRLF))
        by (by rewrite str_len_app).
      rewrite <- (str_app_assoc line CRLF), str_drop_app_len, IH.
      cbn. f_equal. rewrite !str_len_app.
      pose proof (len_join_lines (line2 :: lines)) as Hlen. cbn in Hlen.
      change (PyStr.len CRLF) with 2. lia.
    + intros j Hj.
      destruct (decide (j < PyStr.len line)) as [Hlt|Hge];
        [by apply Hinside|].
      replace j with (PyStr.len line + (j - PyStr.len line)) by lia.
      rewrite str_drop_app_plus.
      destruct (j - PyStr.len line) as [|[|k]] eqn:Hk; [| |lia].
      * rewrite str_drop_0. change (CRLF +:+ tail)
          with (String "013" (String "010" tail)).
        change (CRLF +:+ CRLF)
          with (String "013" (String "010" CRLF)).
        cbn [PyStr.startswith]. by rewrite !decide_True.
      * change (CRLF +:+ tail) with (String "013" (String "010" tail)).
        cbn [PyStr.drop]. done.
    + rewrite !str_len_app. change (PyStr.len CRLF) with 2. lia.
Qed.

(** Tokens separated by single spaces: [split(" ", 2)] of a request
    line gives back its three tokens. *)
Lemma split_request_line method target protocol :
  PyStr.contains " " method = false ->
  PyStr.contains " " target = false ->
  PyStr.split_max 2 (request_line method target protocol) " "
  = [method; target; protocol].
Proof.
  intros Hm Ht. unfold request_line.
  change (" " +:+ target +:+ " " +:+ protocol)
    with (String " " (target +:+ " " +:+ protocol)).
  cbn [PyStr.split_max]. rewrite index_char_app by done.
  rewrite str_take_app_len. change (PyStr.len " ") with 1.
  change (String " " (target +:+ " " +:+ protocol))
    with (" " +:+ target +:+ " " +:+ protocol).
  rewrite <- (str_app_assoc method " ").
  replace (PyStr.len method + 1) with (PyStr.len (method +:+ " "))
    by (by rewrite str_len_app).
  rewrite str_drop_app_len.
  change (" " +:+ protocol) with (String " " protocol).
  rewrite index_char_app by done. rewrite str_take_app_len.
  change (String " " protocol) with (" " +:+ protocol).
  rewrite <- (str_app_assoc target " ").
  replace (PyStr.len target + 1)
    with (PyStr.len (target +:+ " ")) by (by rewrite str_len_app).
  by rewrite str_drop_app_len.
Qed.

End Lines.


(** ** [parse_request] *)

Section ParseRequest.

Import HornedWorkerProcess.

Implicit Types (w : HornedWorkerProcess.t) (env : environ)
  (headers : list header) (key : string).

Lemma parse_headers_spec headers rest env :
  Forall well_formed_header headers ->
  parse_headers ((request_header <$> headers) ++ "" :: rest) env
  = with_headers headers env.
Proof.
  revert env. induction headers as [|[name value] headers IH];
    intros env Hall; [done|].
  apply Forall_cons in Hall as [[Hname _] Hall]. cbn in Hname.
  cbn [fmap list_fmap]. rewrite <- app_comm_cons. cbn [parse_headers].
  change (request_header (name, value)) with (name +:+ String ":" value).
  rewrite decide_False by (by destruct name).
  rewrite partition_char_app by done.
  rewrite IH by done. done.
Qed.

Lemma http_key_inj a b : "HTTP_" +:+ a = "HTTP_" +:+ b -> a = b.
Proof. apply String.app_inj. Qed.

(** [HTTP_<key>] holds the trimmed value of the last header of that
    canonical name, or what it held before the loop. *)
Lemma lookup_with_headers key headers env :
  with_headers headers env !! ("HTTP_" +:+ key)
  = match last_header key headers with
    | Some h => Some (VStr (PyStr.strip (snd h)))
    | None => env !! ("HTTP_" +:+ key)
    end.
Proof.
  revert env. induction headers as [|h headers IH]; intros env; [done|].
  unfold with_headers in *. cbn [foldl]. rewrite IH.
  unfold last_header. rewrite filter_cons.
  destruct (decide (canonical (fst h) = key)) as [Heq|Hne].
  - destruct (filter _ headers) as [|h' l] eqn:E.
    + cbn. by rewrite Heq, lookup_insert_eq.
    + rewrite last_cons_cons. destruct (last (h' :: l)) eqn:El; [done|].
      by apply last_None in El.
  - destruct (last (filter _ headers)); [done|].
    rewrite lookup_insert_ne; [done|]. by intros ?%http_key_inj.
Qed.

(** Keys that are not [HTTP_...] are not touched by the loop. *)
Lemma lookup_with_headers_other k headers env :
  (forall key, k <> "HTTP_" +:+ key) ->
  with_headers headers env !! k = env !! k.
Proof.
  intros Hk. revert env. induction headers as [|h headers IH]; intros env;
    [done|].
  unfold with_headers in *. cbn [foldl]. rewrite IH.
  by rewrite lookup_insert_ne.
Qed.

(** The [real_ip_header] step only writes [REMOTE_ADDR]. *)
Lemma lookup_real_ip (real_ip_header : option string) env k :
  k <> "REMOTE_ADDR" ->
  match real_ip_header with
  | Some h => match env !! h with
              | Some v => <["REMOTE_ADDR" := v]> env
              | None => env
              end
  | None => env
  end !! k = env !! k.
Proof.
  intros Hk. destruct real_ip_header as [h|]; [|done].
  destruct (env !! h); [|done]. by rewrite lookup_insert_ne.
Qed.

Lemma not_http_key k :
  PyStr.startswith "HTTP_" k = false -> forall key, k <> "HTTP_" +:+ key.
Proof. intros Hk key ->. by rewrite startswith_app in Hk. Qed.

(** The head of a well-formed request is what [read_until] returns,
    and the body is what the stream reads next. *)
Lemma read_head reqline headers body (st : IOStream.t) :
  reqline <> "" ->
  PyStr.contains CRLF reqline = false ->
  Forall well_formed_header headers ->
  IOStream.readable st = request_head reqline headers +:+ body ->
  exists st',
    IOStream.read_until (CRLF +:+ CRLF) st
    = Ok (request_head reqline headers) st' /\
    IOStream.readable st' = body /\
    IOStream.write_buffer st' = IOStream.write_buffer st /\
    outbox (IOStream.socket st') = outbox (IOStream.socket st).
Proof.
  intros Hne Hcrlf Hall Hread.
  set (lines := reqline :: (request_header <$> headers)).
  assert (Forall (fun line => PyStr.index CRLF line = None /\ line <> "")
            lines) as Hlines.
  { apply Forall_cons. split; [by split; [apply contains_false|]|].
    apply Forall_fmap. eapply Forall_impl; [exact Hall|].
    intros [name value] [_ Hc]. split; [by apply contains_false|].
    unfold request_header. cbn. by destruct name. }
  unfold request_head in *. fold lines in Hread |- *.
  rewrite str_app_assoc in Hread.
  pose proof (index_blank_line lines body ltac:(done) Hlines) as Hidx.
  rewrite <- Hread in Hidx.
  assert (PyStr.len reqline + 2 <= PyStr.len (join_lines lines))%nat as Hlen.
  { unfold lines, join_lines. cbn [fmap list_fmap PyStr.concat foldr].
    rewrite !str_len_app. change (PyStr.len CRLF) with 2%nat. lia. }
  assert (0 < PyStr.len reqline)%nat as Hpos.
  { destruct reqline; [done|]. cbn. lia. }
  destruct (read_until_found _ _ _ Hidx ltac:(lia))
    as (st' & Hrun & Hrest & _ & Hwb & Hob & _).
  exists st'. rewrite Hrun, Hrest, Hread.
  change (PyStr.len (CRLF +:+ CRLF)) with 4%nat.
  replace (PyStr.len (join_lines lines) - 2 + 4)%nat
    with (PyStr.len (join_lines lines +:+ CRLF))
    by (rewrite str_len_app; change (PyStr.len CRLF) with 2%nat; lia).
  rewrite <- (str_app_assoc (join_lines lines) CRLF body).
  by rewrite str_take_app_len, str_drop_app_len.
Qed.

(** What [parse_request] does with the head once it is read. *)
Lemma parse_head_spec method path query protocol headers client_address w
    (st' : IOStream.t) :
  let target := request_target path query in
  let reqline := request_line method target protocol in
  PyStr.contains " " method = false ->
  PyStr.contains " " target = false ->
  PyStr.contains "?" path = false ->
  PyStr.contains CRLF reqline = false ->
  Forall well_formed_header headers ->
  IOStream.read_until (CRLF +:+ CRLF) (stream w)
  = Ok (request_head reqline headers) st' ->
  exists env,
    parse_request client_address w = Ok (reqline, env) (set_stream st' w) /\
    forall k, k <> "REMOTE_ADDR" ->
      env !! k
      = with_headers headers
          (<["wsgi.input" := VInput]>
           (<["PATH_INFO" := VStr (urlunquote path)]>
            (match query with
             | Some q => <["QUERY_STRING" := VStr q]>
             | None => fun e => e
             end
               (<["REMOTE_ADDR" := VStr (remote_addr client_address)]>
                (<["SERVER_PROTOCOL" := VStr protocol]>
                 (<["REQUEST_METHOD" := VStr method]> (baseenv w))))))) !! k.
Proof.
  intros target reqline Hm Ht Hp Hc Hall Hread.
  assert (on_stream (IOStream.read_until (CRLF +:+ CRLF)) w
          = Ok (request_head reqline headers) (set_stream st' w)) as Hon.
  { unfold on_stream, zoom. by rewrite Hread. }
  unfold parse_request. rewrite (bind_ok _ _ _ _ _ Hon). cbv zeta.
  assert (Forall (fun line => PyStr.index CRLF line = None)
            (reqline :: (request_header <$> headers))) as Hlines.
  { apply Forall_cons. split; [by apply contains_false|].
    apply Forall_fmap. eapply Forall_impl; [exact Hall|].
    intros h [_ Hh]. by apply contains_false. }
  unfold request_head. rewrite (split_lines _ Hlines).
  rewrite <- app_comm_cons. cbn [hd tail].
  unfold reqline at 1. rewrite split_request_line by done.
  unfold bind, gets, ret. cbv beta iota.
  unfold target. destruct query as [q|]; cbn [request_target].
  - change ("?" +:+ q) with (String "?" q).
    rewrite contains_char_app, partition_char_app by done. cbv beta iota.
    rewrite (parse_headers_spec headers [""]) by done.
    eexists. split; [reflexivity|]. intros k Hk. by apply lookup_real_ip.
  - rewrite Hp. cbv beta iota.
    rewrite (parse_headers_spec headers [""]) by done.
    eexists. split; [reflexivity|].
    intros k Hk. by apply lookup_real_ip.
Qed.

(** C5 as stated fails in two ways. Two headers of the same name: the
    environment has one entry for both, holding the value of the
    second, and none holding the value of the first. A target without
    ["?"]: [QUERY_STRING] is present all the same when the base
    environment, a copy of the process environment, has it. *)
Lemma C5_one_entry_per_header_name :
  match parse_request (AddrInet "10.0.0.9" 4711)
          (set_stream
             (IOStream.new
                (sample_peer ["GET / HTTP/1.0" +:+ CRLF +:+ "A: 1" +:+ CRLF +:+
                              "A: 2" +:+ CRLF +:+ CRLF]))
             (sample_worker demo_app (sample_peer [])))
  with
  | Ok (reqline, env) _ =>
      reqline = "GET / HTTP/1.0" /\
      env !! "HTTP_A" = Some (VStr "2") /\
      env !! "HTTP_A" <> Some (VStr "1")
  | Raise _ _ => False
  end /\
  match parse_request (AddrInet "10.0.0.9" 4711)
          (Mk (MkConfig (AppCallable demo_app) 80 4 true None) demo_app
              true true 0 0 "" (<["QUERY_STRING" := VStr "stale=1"]> ∅)
              (IOStream.new
                 (sample_peer ["GET / HTTP/1.0" +:+ CRLF +:+ CRLF]))
              false sample_clock [] 0)
  with
  | Ok (reqline, env) _ =>
      reqline = "GET / HTTP/1.0" /\
      PyStr.contains "?" "/" = false /\
      env !! "QUERY_STRING" = Some (VStr "stale=1")
  | Raise _ _ => False
  end.
Proof. vm_compute. repeat split. discriminate. Qed.

(** C5 (amended). A well-formed request: a request line of three
    tokens separated by single spaces, the first two without a space,
    header lines [name:value] without a colon in the name, no CRLF
    inside a line, a blank line, then the body. However the bytes of
    the head and body arrive, [parse_request] returns the request line
    and an environment in which [REQUEST_METHOD] is the method as
    sent, [SERVER_PROTOCOL] the protocol, [PATH_INFO] is [urlunquote]
    of the path (the target up to the first ["?"]), [QUERY_STRING] is
    the text after that ["?"], not decoded, when the target has one,
    and is left as in the base environment when it has none; and for
    every canonical header name, [HTTP_<NAME>] holds the trimmed value
    of the last header of that canonical name, or is left as in the
    base environment when the request has no such header. The body is
    what the stream reads next. *)
Theorem C5_parse_request_environment
    method path query protocol headers body client_address w :
  PyStr.contains " " method = false ->
  PyStr.contains " " (request_target path query) = false ->
  PyStr.contains "?" path = false ->
  PyStr.contains CRLF
    (request_line method (request_target path query) protocol) = false ->
  Forall well_formed_header headers ->
  IOStream.readable (stream w)
  = request_head (request_line method (request_target path query) protocol)
      headers +:+ body ->
  exists env w',
    parse_request client_address w
    = Ok (request_line method (request_target path query) protocol, env) w' /\
    IOStream.readable (stream w') = body /\
    env !! "REQUEST_METHOD" = Some (VStr method) /\
    env !! "SERVER_PROTOCOL" = Some (VStr protocol) /\
    env !! "PATH_INFO" = Some (VStr (urlunquote path)) /\
    env !! "QUERY_STRING"
    = match query with
      | Some q => Some (VStr q)
      | None => baseenv w !! "QUERY_STRING"
      end /\
    forall key,
      env !! ("HTTP_" +:+ key)
      = match last_header key headers with
        | Some h => Some (VStr (PyStr.strip (snd h)))
        | None => baseenv w !! ("HTTP_" +:+ key)
        end.
Proof.
  intros Hm Ht Hp Hc Hall Hread.
  assert (request_line method (request_target path query) protocol <> "")
    as Hne by (unfold request_line; by destruct method).
  destruct (read_head
              (request_line method (request_target path query) protocol)
              headers body (stream w) Hne Hc Hall Hread)
    as (st' & Hrun & Hbody & _).
  destruct (parse_head_spec method path query protocol headers
              client_address w st' Hm Ht Hp Hc Hall Hrun) as (env & Hparse & Henv).
  exists env, (set_stream st' w). split; [done|]. split; [done|].
  assert (forall k, PyStr.startswith "HTTP_" k = false ->
                    k <> "REMOTE_ADDR" ->
                    forall env0, with_headers headers env0 !! k = env0 !! k)
    as Hother.
  { intros k Hk _ env0. apply lookup_with_headers_other. by apply not_http_key. }
  repeat split.
  - rewrite Henv, Hother by done.
    destruct query; rewrite ?lookup_insert_ne by done;
      by rewrite lookup_insert_eq.
  - rewrite Henv, Hother by done.
    destruct query; rewrite ?lookup_insert_ne by done;
      by rewrite lookup_insert_eq.
  - rewrite Henv, Hother by done.
    rewrite ?lookup_insert_ne by done. by rewrite lookup_insert_eq.
  - rewrite Henv, Hother by done.
    destruct query; rewrite ?lookup_insert_ne by done;
      [by rewrite lookup_insert_eq|done].
  - intros key. rewrite Henv.
    2:{ change ("HTTP_" +:+ key)
          with (String "H" (String "T" (String "T" (String "P" (String "_" key))))).
        done. }
    rewrite lookup_with_headers. destruct (last_header key headers); [done|].
    assert (forall k0, PyStr.startswith "HTTP_" k0 = false ->
                       k0 <> "HTTP_" +:+ key) as Hkey.
    { intros k0 Hk0 ->. by rewrite startswith_app in Hk0. }
    destruct query; by rewrite !lookup_insert_ne by (by apply Hkey).
Qed.

Lemma C5_parse_request_environment_witness :
  exists env w',
    parse_request (AddrInet "10.0.0.9" 4711)
      (set_stream
         (IOStream.new
            (sample_peer ["GET /a%20b?x=%20 HT";
                          "TP/1.0" +:+ CRLF +:+ "Host: x" +:+ CRLF +:+
                          "Accept:*/*" +:+ CRLF;
                          CRLF +:+ "body"]))
         (sample_worker demo_app (sample_peer [])))
    = Ok ("GET /a%20b?x=%20 HTTP/1.0", env) w' /\
    env !! "REQUEST_METHOD" = Some (VStr "GET") /\
    env !! "PATH_INFO" = Some (VStr "/a b") /\
    env !! "QUERY_STRING" = Some (VStr "x=%20") /\
    env !! "HTTP_HOST" = Some (VStr "x").
Proof.
  destruct (C5_parse_request_environment
              "GET" "/a%20b" (Some "x=%20") "HTTP/1.0"
              [("Host", " x"); ("Accept", "*/*")] "body"
              (AddrInet "10.0.0.9" 4711)
              (set_stream
                 (IOStream.new
                    (sample_peer ["GET /a%20b?x=%20 HT";
                                  "TP/1.0" +:+ CRLF +:+ "Host: x" +:+ CRLF +:+
                                  "Accept:*/*" +:+ CRLF;
                                  CRLF +:+ "body"]))
                 (sample_worker demo_app (sample_peer []))))
    as (env & w' & Hparse & _ & Hmethod & _ & Hpath & Hquery & Hheaders).
  - vm_compute; reflexivity.
  - vm_compute; reflexivity.
  - vm_compute; reflexivity.
  - vm_compute; reflexivity.
  - repeat constructor.
  - vm_compute; reflexivity.
  - exists env, w'. split; [exact Hparse|]. split; [exact Hmethod|].
    split; [rewrite Hpath; vm_compute; reflexivity|].
    split; [exact Hquery|].
    change "HTTP_HOST" with ("HTTP_" +:+ "HOST").
    rewrite Hheaders. vm_compute; reflexivity.
Defined.

End ParseRequest.

(** ** One request, end to end *)

Section Request.

Import HornedWorkerProcess.

Implicit Types (w : HornedWorkerProcess.t) (connection : Socket)
  (client_address : address).

Lemma modify_run {S} (f : S -> S) s : modify f s = Ok tt (f s).
Proof. reflexivity. Qed.

Lemma gets_run {S A} (f : S -> A) s : gets f s = Ok (f s) s.
Proof. reflexivity. Qed.

Lemma parse_request_clock client_address w :
  clock (state_of (parse_request client_address w)) = clock w.
Proof.
  rewrite parse_request_state. unfold on_stream, zoom.
  by destruct (IOStream.read_until (CRLF +:+ CRLF) (stream w)).
Qed.

Lemma run_ops_state ops l w : state_of (run_ops ops l w) = w.
Proof.
  revert l. induction ops as [|op ops IH]; intros l; [done|].
  cbn [run_ops]. pose proof (run_op_state op l w) as Hop.
  destruct (run_op op l w) as [l' w1|e w1] eqn:E; cbn in Hop; subst w1.
  - rewrite (bind_ok _ _ _ _ _ E). apply IH.
  - by rewrite (bind_raise _ _ _ _ _ E).
Qed.

(** [execute_request] writes what [send_response] writes. *)
Lemma execute_request_progress a env w :
  exists status headers done,
    progress status headers w (state_of (execute_request a env w)) done.
Proof.
  unfold execute_request. rewrite (bind_ok _ _ _ _ _ (gets_run _ _)).
  set (l0 := MkLocals None [] []).
  pose proof (run_ops_state (call_ops (app w env)) l0 w) as Hops.
  destruct (run_ops (call_ops (app w env)) l0 w) as [l w1|e w1] eqn:E;
    cbn in Hops; subst w1.
  - rewrite (bind_ok _ _ _ _ _ E).
    destruct (send_response_spec (response_status l) (response_headers l)
                (returned (app w env)) (data l) l w)
      as (done & _ & P & _). cbv zeta in P.
    exists (response_status l), (response_headers l), done.
    destruct (send_response _ _ _ _ _ w) as [r w2|e w2] eqn:Es.
    + by rewrite (bind_ok _ _ _ _ _ Es).
    + by rewrite (bind_raise _ _ _ _ _ Es).
  - rewrite (bind_raise _ _ _ _ _ E). exists None, [], [].
    apply progress_refl.
Qed.

(** [close()] on the stream moves bytes from the write buffer to the
    socket, or fails: what was written is the same. *)
Lemma close_frame w :
  let w' := state_of (on_stream IOStream.close w) in
  wire w' = wire w /\ headers_sent w' = headers_sent w /\
  clock w' = clock w.
Proof.
  destruct w as [? ? ? ? ? ? ? ? [[ib ob cl [errno|]] rb wb] ? ? ? ?];
    unfold wire, IOStream.wire; cbn; [done|].
  by rewrite str_app_nil_r.
Qed.

(** Within one request: what [handle_request] leaves written on the
    connection is either nothing, the flag being false, or, the flag
    being true, one header block followed by chunks of the body. *)
Lemma handle_request_wire connection client_address w :
  let w' := state_of (handle_request connection client_address w) in
  (headers_sent w' = false /\ wire w' = outbox connection) \/
  (headers_sent w' = true /\
   exists status headers done,
     wire w' = outbox connection +:+
               header_block status headers (clock w) +:+ PyStr.concat done).
Proof.
  cbv zeta. unfold handle_request.
  rewrite !(bind_ok _ _ _ _ _ (modify_run _ _)).
  set (w0 := set_headers_sent false (set_stream (IOStream.new connection) w)).
  assert (wire w0 = outbox connection) as Hw0
    by (unfold wire, IOStream.wire; cbn; apply str_app_nil_r).
  pose proof (parse_request_frame client_address w0) as Hf.
  pose proof (parse_request_clock client_address w0) as Hc.
  cbv zeta in Hf. destruct Hf as (_ & _ & Hs1 & _ & _ & _ & Hw1 & _).
  destruct (parse_request client_address w0) as [[reqline env] w1|e w1] eqn:Ep;
    cbn [state_of] in *.
  2:{ rewrite (bind_raise _ _ _ _ _ Ep). cbn [state_of]. left.
      by rewrite Hs1, Hw1. }
  rewrite (bind_ok _ _ _ _ _ Ep).
  rewrite (bind_ok _ _ _ _ _ (gets_run _ _)).
  destruct (execute_request_progress (app w1) env w1)
    as (status & headers & done & P).
  assert (forall w2, progress status headers w1 w2 done ->
            (headers_sent w2 = false /\ wire w2 = outbox connection) \/
            (headers_sent w2 = true /\
             exists status headers done,
               wire w2 = outbox connection +:+
                         header_block status headers (clock w) +:+
                         PyStr.concat done)) as Hprog.
  { intros w2 (_ & _ & _ & P2). rewrite Hs1 in P2. cbn in P2.
    destruct P2 as [(Hs2 & _ & Hw2)|(Hs2 & Hw2)].
    - left. by rewrite Hs2, Hw2, Hw1.
    - right. split; [done|]. exists status, headers, done.
      by rewrite Hw2, Hw1, Hw0, Hc. }
  destruct (execute_request (app w1) env w1) as [[st len] w2|e w2] eqn:Ee;
    cbn [state_of] in P.
  2:{ rewrite (bind_raise _ _ _ _ _ Ee). cbn [state_of]. by apply Hprog. }
  rewrite (bind_ok _ _ _ _ _ Ee).
  destruct (close_frame w2) as (Hw3 & Hs3 & _).
  assert (forall w3, wire w3 = wire w2 -> headers_sent w3 = headers_sent w2 ->
            (headers_sent w3 = false /\ wire w3 = outbox connection) \/
            (headers_sent w3 = true /\
             exists status headers done,
               wire w3 = outbox connection +:+
                         header_block status headers (clock w) +:+
                         PyStr.concat done)) as Hsame.
  { intros w3 -> ->. by apply Hprog. }
  destruct (on_stream IOStream.close w2) as [[] w3|e w3] eqn:Ec;
    cbn [state_of] in *.
  2:{ rewrite (bind_raise _ _ _ _ _ Ec). cbn [state_of]. by apply Hsame. }
  rewrite (bind_ok _ _ _ _ _ Ec).
  rewrite (bind_ok _ _ _ _ _ (gets_run _ _)).
  destruct (access_log w3); [|by apply Hsame].
  destruct st as [st|]; [|by apply Hsame].
  apply Hsame; by destruct w3.
Qed.

(** An application that returns no chunk at all: the header block is
    sent all the same, and the logged length is 0. *)
Example empty_body_response :
  let a : application := fun _ =>
    AppRun [CallStartResponse "204 No Content" [] None] (iter_list []) in
  match run [Round (SelectReturns true)
               (Accepts (sample_peer ["GET / HTTP/1.0" +:+ CRLF +:+ CRLF])
                        (AddrInet "10.0.0.9" 4711))]
            (sample_worker a (sample_peer [])) with
  | Waiting _ w' =>
      outbox (IOStream.socket (stream w'))
      = "HTTP/1.0 204 No Content" +:+ CRLF +:+
        "Date: Mon, 07 Mar 2011 09:05:00 GMT" +:+ CRLF +:+
        "Connection: close" +:+ CRLF +:+ CRLF /\
      requests w' = 1%nat /\
      logged w' = [LogInfo "Fired up; ready to go!";
                   LogRequest (VStr "10.0.0.9") "GET / HTTP/1.0" "204" 0]
  | _ => False
  end.
Proof. vm_compute. by repeat split. Qed.

End Request.

(** * Further properties *)

(** ** [urlunquote]: round trip and length *)

Section UrlunquoteMore.

Implicit Types (s before rest : string) (a c : ascii) (i : nat).

Lemma index_char_cons c a s :
  a <> c ->
  PyStr.index (String c "") (String a s) = S <$> PyStr.index (String c "") s.
Proof.
  intros Hac. apply index_cons_false. cbn. by destruct (decide (c = a)).
Qed.

(** No occurrence before the first one. *)
Lemma index_char_take c s i :
  PyStr.index (String c "") s = Some i ->
  PyStr.contains (String c "") (PyStr.take i s) = false.
Proof.
  revert i. induction s as [|a s IH]; intros i Hi; [done|].
  destruct (decide (a = c)) as [->|Hac].
  - rewrite index_true in Hi by (cbn; by destruct (decide (c = c))).
    by injection Hi as <-.
  - rewrite index_char_cons in Hi by done.
    destruct (PyStr.index (String c "") s) as [j|] eqn:Hj; [|done].
    injection Hi as <-. cbn [PyStr.take].
    apply contains_false. rewrite index_char_cons by done.
    specialize (IH j eq_refl). apply contains_false in IH. by rewrite IH.
Qed.

(** A byte that is not ["%"] is copied. *)
Lemma urlunquote_cons a rest :
  a <> "%"%char -> urlunquote (String a rest) = String a (urlunquote rest).
Proof.
  intros Ha.
  destruct (PyStr.index "%" rest) as [i|] eqn:Hi.
  - pose proof (index_split _ _ _ Hi) as Hsplit.
    pose proof (index_char_take _ _ _ Hi) as Hbefore.
    assert (PyStr.contains "%" (String a (PyStr.take i rest)) = false) as Hb.
    { apply contains_false. rewrite index_char_cons by done.
      apply contains_false in Hbefore. by rewrite Hbefore. }
    rewrite Hsplit at 1 2.
    rewrite <- str_app_cons.
    rewrite (urlunquote_escape (String a (PyStr.take i rest))) by done.
    rewrite (urlunquote_escape (PyStr.take i rest)) by done.
    by rewrite !str_app_cons.
  - rewrite !urlunquote_plain; [done|by apply contains_false|].
    apply contains_false. rewrite index_char_cons by done. by rewrite Hi.
Qed.

Lemma chr_nat_of_ascii a : PyStr.chr (nat_of_ascii a) = String a "".
Proof. unfold PyStr.chr. by rewrite ascii_nat_embedding. Qed.

Lemma percent_encode_decoded digits escape s :
  digits = hex_lower \/ digits = hex_upper ->
  urlunquote (percent_encode digits escape s) = s.
Proof.
  intros Hd. induction s as [|a s IH]; [done|].
  cbn [percent_encode].
  destruct (escape a || bool_decide (a = "%"%char)) eqn:E.
  - pose proof (urlunquote_decodes "" (nat_of_ascii a)
                  (format_02 digits (nat_of_ascii a))
                  (percent_encode digits escape s) eq_refl
                  (nat_ascii_bounded a)) as H.
    rewrite !str_app_nil_l in H. rewrite H.
    + by rewrite chr_nat_of_ascii, IH, str_app_cons, str_app_nil_l.
    + destruct Hd as [->| ->]; [by left|by right].
  - apply orb_false_iff in E as [_ E]. apply bool_decide_eq_false in E.
    by rewrite urlunquote_cons, IH.
Qed.

(** X1. Decoding undoes percent-encoding: whichever bytes the client
    chose to escape beside ["%"], and whether it wrote the hexadecimal
    digits in lower or in upper case, [urlunquote] gives back the
    string that was encoded. *)
Theorem X1_urlunquote_percent_encode :
  (forall escape s, urlunquote (percent_encode hex_lower escape s) = s) /\
  (forall escape s, urlunquote (percent_encode hex_upper escape s) = s).
Proof.
  split; intros escape s; apply percent_encode_decoded; [by left|by right].
Qed.

Lemma str_len_take n s :
  PyStr.len (PyStr.take n s) = (n `min` PyStr.len s)%nat.
Proof.
  revert s. induction n as [|n IH]; intros [|a s]; cbn; try done.
  by rewrite IH.
Qed.

Lemma urlunquote_len_le n s :
  (PyStr.len s <= n)%nat -> (PyStr.len (urlunquote s) <= PyStr.len s)%nat.
Proof.
  revert s. induction n as [|n IH]; intros s Hn.
  - assert (s = "") as -> by (apply str_len_nil; lia). done.
  - destruct (PyStr.index "%" s) as [i|] eqn:Hi.
    + pose proof (index_split _ _ _ Hi) as Hsplit.
      pose proof (index_char_take _ _ _ Hi) as Hbefore.
      set (after := PyStr.drop (i + PyStr.len "%") s) in *.
      set (before := PyStr.take i s) in *.
      rewrite Hsplit. rewrite urlunquote_escape by done.
      rewrite !str_len_app.
      assert (PyStr.len s = PyStr.len before + 1 + PyStr.len after)%nat as Hs.
      { rewrite Hsplit at 1. rewrite !str_len_app. cbn. lia. }
      assert (PyStr.len (urlunquote (PyStr.drop 2 after))
              <= PyStr.len (PyStr.drop 2 after))%nat as Hrec.
      { apply IH. rewrite str_len_drop. lia. }
      rewrite str_len_drop in Hrec.
      change (PyStr.len "%") with 1%nat.
      destruct (charfromhex !! PyStr.take 2 after) as [c|] eqn:Hc; cbn [default].
      * apply charfromhex_keys in Hc as (j & _ & -> & Hcode).
        assert (PyStr.len (PyStr.take 2 after) = 2)%nat as Hlen
          by (by destruct Hcode as [->| ->]).
        rewrite str_len_take in Hlen.
        change (PyStr.len (id (PyStr.chr j))) with 1%nat. lia.
      * rewrite str_len_app, str_len_take.
        change (PyStr.len "%") with 1%nat. lia.
    + rewrite urlunquote_plain; [done|by apply contains_false].
Qed.

(** X2. [urlunquote] never makes a string longer, and it leaves a
    string without ["%"] as it is. *)
Theorem X2_urlunquote_never_longer s :
  (PyStr.len (urlunquote s) <= PyStr.len s)%nat /\
  (count_char "%" s = 0%nat -> urlunquote s = s).
Proof.
  split; [by apply (urlunquote_len_le (PyStr.len s))|].
  intros Hcount. apply urlunquote_plain, contains_false.
  induction s as [|a s IH]; [done|].
  cbn [count_char] in Hcount. destruct (decide (a = "%"%char)); [lia|].
  rewrite index_char_cons by done. rewrite IH; [done|lia].
Qed.

End UrlunquoteMore.

(** ** [http_date]: a fixed width *)

Section HttpDateMore.

Local Open Scope nat_scope.

Lemma len_two_digits n : PyStr.len (two_digits n) = 2.
Proof. done. Qed.

Lemma len_four_digits n : PyStr.len (four_digits n) = 4.
Proof. done. Qed.

Lemma HTTP_WDAY_lookup wday :
  wday < 7 -> exists name, HTTP_WDAY !! wday = Some name /\ PyStr.len name = 3.
Proof.
  intros H. do 7 (destruct wday as [|wday]; [by eexists|]). lia.
Qed.

Lemma HTTP_MONTH_lookup month :
  1 <= month <= 12 ->
  exists name, HTTP_MONTH !! month = Some (Some name) /\ PyStr.len name = 3.
Proof.
  intros H. destruct month as [|month]; [lia|].
  do 12 (destruct month as [|month]; [by eexists|]). lia.
Qed.

(** X3. For every time [gmtime] can return in the years 1000 to 9999,
    [http_date] is 29 bytes long: the fields have a fixed width. *)
Theorem X3_http_date_width now :
  tm_wday now < 7 -> 1 <= tm_mon now <= 12 ->
  tm_mday now < 100 -> 10 <= tm_year now / 100 < 100 ->
  tm_hour now < 100 -> tm_min now < 100 -> tm_sec now < 100 ->
  PyStr.len (http_date now) = 29.
Proof.
  intros Hw Hm Hd Hy Hh Hmin Hs.
  destruct (HTTP_WDAY_lookup _ Hw) as (wday & Ewday & Lwday).
  destruct (HTTP_MONTH_lookup _ Hm) as (month & Emonth & Lmonth).
  rewrite (http_date_format now wday month) by done.
  rewrite !str_len_app, !len_two_digits, len_four_digits, Lwday, Lmonth.
  done.
Qed.

Lemma X3_http_date_width_witness : PyStr.len (http_date sample_clock) = 29.
Proof.
  apply X3_http_date_width; vm_compute; lia.
Defined.

End HttpDateMore.

(** ** [IOStream]: [read], [readline], [readlines], [writelines] *)

Section IOStreamMore.

Implicit Types (st : IOStream.t) (buf s : string) (chunks : list string)
  (n m : nat).

Lemma str_take_all n s : (PyStr.len s <= n)%nat -> PyStr.take n s = s.
Proof.
  unfold PyStr.len.
  revert s. induction n as [|n IH]; intros [|a s] H; cbn in *; try done.
  - lia.
  - rewrite IH; [done|lia].
Qed.

Lemma str_drop_all n s : (PyStr.len s <= n)%nat -> PyStr.drop n s = "".
Proof.
  unfold PyStr.len.
  revert s. induction n as [|n IH]; intros [|a s] H; cbn in *; try done.
  - lia.
  - apply IH. lia.
Qed.

Lemma str_take_take n m s :
  PyStr.take n s +:+ PyStr.take m (PyStr.drop n s) = PyStr.take (n + m) s.
Proof.
  revert s. induction n as [|n IH]; intros s.
  - by rewrite str_take_0, str_drop_0, str_app_nil_l.
  - destruct s as [|a s]; cbn [PyStr.take PyStr.drop Nat.add].
    + by destruct m.
    + by rewrite str_app_cons, IH.
Qed.

Lemma str_drop_drop n m s :
  PyStr.drop m (PyStr.drop n s) = PyStr.drop (n + m) s.
Proof.
  revert s. induction n as [|n IH]; intros s.
  - by rewrite str_drop_0.
  - destruct s as [|a s]; cbn [PyStr.drop Nat.add]; [by destruct m|apply IH].
Qed.

(** The loop of [read(size)]: it stops with [size] bytes in the
    buffer, or at the end of the stream. *)
Lemma recv_size_spec n chunks buf :
  let '(rest, buf') := IOStream.recv_size n chunks buf in
  let all := buf +:+ Sock.pending chunks in
  PyStr.take n buf' = PyStr.take n all /\
  ((n <= PyStr.len all)%nat \/ Forall (fun c => c <> "") chunks ->
     PyStr.drop n buf' +:+ Sock.pending rest = PyStr.drop n all) /\
  ((PyStr.len all < n)%nat -> PyStr.drop n buf' = "") /\
  exists k, rest = drop k chunks.
Proof.
  revert buf. induction chunks as [|chunk chunks IH]; intros buf.
  - cbn [IOStream.recv_size Sock.pending]. rewrite str_app_nil_r.
    destruct (PyStr.len buf <? n)%nat eqn:E; cbv zeta;
      (split_and!;
       [done|intros _; by rewrite str_app_nil_r
       |intros; apply str_drop_all; lia|by exists 0%nat]).
  - cbn [IOStream.recv_size Sock.pending].
    destruct (PyStr.len buf <? n)%nat eqn:E.
    + apply Nat.ltb_lt in E.
      destruct (decide (chunk = "")) as [->|Hne].
      * cbv zeta. rewrite str_app_nil_r. split_and!.
        -- done.
        -- intros [H|H]; [lia|]. by apply Forall_cons in H as [? _].
        -- intros _. apply str_drop_all. lia.
        -- by exists 1%nat.
      * specialize (IH (buf +:+ chunk)).
        destruct (IOStream.recv_size n chunks (buf +:+ chunk)) as [rest buf'].
        cbv zeta in IH |- *. rewrite str_app_assoc in IH.
        destruct IH as (H1 & H2 & H3 & k & Hk).
        split_and!; [done| |done|by exists (S k)].
        intros [H|H]; apply H2; [by left|right].
        by apply Forall_cons in H as [_ ?].
    + apply Nat.ltb_ge in E. cbv zeta. split_and!.
      * by rewrite str_take_app_le.
      * intros _. by rewrite str_drop_app_le.
      * rewrite str_len_app. lia.
      * by exists 0%nat.
Qed.

Lemma proper_drop k (sock : Socket) rest :
  proper sock -> rest = drop k (inbox sock) ->
  proper (Sock.set_inbox rest sock).
Proof.
  unfold proper. intros H ->. cbn. by apply Forall_drop.
Qed.

Lemma read_size_spec n st :
  exists st',
    IOStream.read (Z.of_nat n) st
    = Ok (PyStr.take n (IOStream.readable st)) st' /\
    ((n <= PyStr.len (IOStream.readable st))%nat \/
     proper (IOStream.socket st) ->
       IOStream.readable st' = PyStr.drop n (IOStream.readable st)) /\
    ((PyStr.len (IOStream.readable st) < n)%nat ->
       IOStream.read_buffer st' = "") /\
    (proper (IOStream.socket st) -> proper (IOStream.socket st')) /\
    IOStream.write_buffer st' = IOStream.write_buffer st /\
    outbox (IOStream.socket st') = outbox (IOStream.socket st) /\
    closed (IOStream.socket st') = closed (IOStream.socket st).
Proof.
  unfold IOStream.read, IOStream.readable.
  replace (Z.of_nat n <? 0)%Z with false by (symmetry; apply Z.ltb_ge; lia).
  rewrite Nat2Z.id.
  pose proof (recv_size_spec n (inbox (IOStream.socket st))
                (IOStream.read_buffer st)) as H.
  destruct (IOStream.recv_size n _ _) as [rest buf'].
  cbv zeta in H. destruct H as (H1 & H2 & H3 & k & Hk).
  eexists. split; [by rewrite H1|]. cbn.
  split_and!; [done|done| |done|done|done].
  intros Hp. by eapply proper_drop.
Qed.


(** The loop of [read()]: it stops at the end of the stream. *)
Lemma recv_all_spec chunks buf :
  let '(rest, buf') := IOStream.recv_all chunks buf in
  buf' = buf +:+ Sock.pending chunks /\
  (Forall (fun c => c <> "") chunks -> rest = []).
Proof.
  revert buf. induction chunks as [|chunk chunks IH]; intros buf.
  - cbn. by rewrite str_app_nil_r.
  - cbn [IOStream.recv_all Sock.pending].
    destruct (decide (chunk = "")) as [->|Hne].
    + rewrite str_app_nil_r. split; [done|].
      intros H. by apply Forall_cons in H as [? _].
    + specialize (IH (buf +:+ chunk)).
      destruct (IOStream.recv_all chunks (buf +:+ chunk)) as [rest buf'].
      rewrite str_app_assoc in IH. destruct IH as [H1 H2].
      split; [done|]. intros H. apply H2. by apply Forall_cons in H as [_ ?].
Qed.

(** X5. [read()] with a negative size returns everything up to the
    end of the stream and leaves the read buffer empty; on a peer that
    has closed for good, nothing is left to read. *)
Theorem X5_read_all size st :
  (size < 0)%Z ->
  exists st',
    IOStream.read size st = Ok (IOStream.readable st) st' /\
    IOStream.read_buffer st' = "" /\
    (proper (IOStream.socket st) -> IOStream.readable st' = "") /\
    IOStream.wire st' = IOStream.wire st /\
    closed (IOStream.socket st') = closed (IOStream.socket st).
Proof.
  intros Hsize. unfold IOStream.read, IOStream.readable.
  replace (size <? 0)%Z with true by (symmetry; apply Z.ltb_lt; lia).
  pose proof (recv_all_spec (inbox (IOStream.socket st))
                (IOStream.read_buffer st)) as H.
  destruct (IOStream.recv_all _ _) as [rest buf']. destruct H as [-> H].
  eexists. split; [done|]. cbn. split_and!; [done| |done|done].
  intros Hp. by rewrite (H Hp).
Qed.

Lemma X5_read_all_witness :
  exists st',
    IOStream.read (-1) (IOStream.Mk (sample_peer ["llo "; "wor"; "ld"]) "he" "")
    = Ok "hello world" st' /\
    IOStream.read_buffer st' = "".
Proof.
  destruct (X5_read_all (-1)
              (IOStream.Mk (sample_peer ["llo "; "wor"; "ld"]) "he" ""))
    as (st' & H1 & H2 & _); [lia|].
  by exists st'.
Defined.

(** X6. Two reads in a row return what one read of both sizes
    returns, cut in two, and leave the same bytes to be read. *)
Theorem X6_read_read n m st :
  proper (IOStream.socket st) ->
  exists r1 st1 r2 st2 st3,
    IOStream.read (Z.of_nat n) st = Ok r1 st1 /\
    IOStream.read (Z.of_nat m) st1 = Ok r2 st2 /\
    IOStream.read (Z.of_nat (n + m)) st = Ok (r1 +:+ r2) st3 /\
    r1 = PyStr.take n (IOStream.readable st) /\
    r2 = PyStr.take m (PyStr.drop n (IOStream.readable st)) /\
    IOStream.readable st2 = IOStream.readable st3.
Proof.
  intros Hp.
  destruct (read_size_spec n st) as (st1 & E1 & R1 & _ & P1 & _).
  destruct (read_size_spec m st1) as (st2 & E2 & R2 & _).
  destruct (read_size_spec (n + m) st) as (st3 & E3 & R3 & _).
  specialize (R1 (or_intror Hp)). specialize (R2 (or_intror (P1 Hp))).
  specialize (R3 (or_intror Hp)). rewrite R1 in E2, R2.
  rewrite str_drop_drop in R2.
  exists (PyStr.take n (IOStream.readable st)), st1,
    (PyStr.take m (PyStr.drop n (IOStream.readable st))), st2, st3.
  by rewrite E1, E2, E3, R2, R3, str_take_take.
Qed.

Lemma X6_read_read_witness :
  exists r1 st1 r2 st2 st3,
    let st := IOStream.Mk (sample_peer ["llo "; "wor"; "ld"]) "he" "" in
    IOStream.read 3 st = Ok r1 st1 /\
    IOStream.read 4 st1 = Ok r2 st2 /\
    IOStream.read 7 st = Ok (r1 +:+ r2) st3 /\
    r1 = "hel" /\ r2 = "lo w".
Proof.
  destruct (X6_read_read 3 4
              (IOStream.Mk (sample_peer ["llo "; "wor"; "ld"]) "he" ""))
    as (r1 & st1 & r2 & st2 & st3 & H1 & H2 & H3 & H4 & H5 & _).
  { unfold proper. cbn. by repeat constructor. }
  by exists r1, st1, r2, st2, st3.
Defined.

End IOStreamMore.

Section IOStreamLines.

Implicit Types (st : IOStream.t) (buf s : string) (chunks : list string)
  (n m i : nat).

(** [read_until] raises nothing but [ValueError]. *)
Lemma read_until_ValueError delimiter st e st' :
  IOStream.read_until delimiter st = Raise e st' -> e = ValueError.
Proof.
  unfold IOStream.read_until.
  destruct (IOStream.recv_until _ _ _) as [rest buf].
  destruct (negb _); by intros [= <- _].
Qed.

(** When the delimiter is the first thing to read, [read_until]
    consumes nothing. *)
Lemma read_until_stuck delimiter st :
  PyStr.index delimiter (IOStream.readable st) = Some 0%nat ->
  exists st',
    IOStream.read_until delimiter st = Raise ValueError st' /\
    IOStream.readable st' = IOStream.readable st.
Proof.
  intros Hi. unfold IOStream.read_until, IOStream.readable in *.
  pose proof (recv_until_spec delimiter (inbox (IOStream.socket st))
                (IOStream.read_buffer st)) as Hspec.
  destruct (IOStream.recv_until delimiter (inbox (IOStream.socket st))
              (IOStream.read_buffer st)) as [rest buf'].
  destruct Hspec as (H1 & H2 & _). rewrite Hi in H1.
  specialize (H2 ltac:(by rewrite H1)).
  unfold PyStr.find. rewrite H1. cbn. eauto.
Qed.

Lemma readline_line st i :
  PyStr.index LF (IOStream.readable st) = Some i -> (0 < i)%nat ->
  exists st',
    IOStream.readline st
    = Ok (PyStr.take (i + 1) (IOStream.readable st)) st' /\
    IOStream.readable st' = PyStr.drop (i + 1) (IOStream.readable st).
Proof.
  intros Hi Hpos.
  destruct (read_until_found LF st i Hi Hpos) as (st' & Hrun & Hrest & _).
  exists st'. unfold IOStream.readline. fold LF. by rewrite Hrun.
Qed.

Lemma readline_empty st :
  PyStr.index LF (IOStream.readable st) = None \/
  PyStr.index LF (IOStream.readable st) = Some 0%nat ->
  exists st',
    IOStream.readline st = Ok "" st' /\
    (PyStr.index LF (IOStream.readable st) = Some 0%nat ->
     IOStream.readable st' = IOStream.readable st).
Proof.
  intros Hi. unfold IOStream.readline. fold LF.
  destruct Hi as [Hi|Hi].
  - destruct (read_until_raises LF st (or_introl Hi)) as (st' & ->).
    exists st'. split; [done|]. by rewrite Hi.
  - destruct (read_until_stuck LF st Hi) as (st' & -> & Hst). by exists st'.
Qed.


Lemma str_len_take_le n s :
  (n <= PyStr.len s)%nat -> PyStr.len (PyStr.take n s) = n.
Proof. intros H. rewrite str_len_take. lia. Qed.

(** The bytes through the first line feed are a line. *)
Lemma take_line s i :
  PyStr.index LF s = Some i -> (0 < i)%nat ->
  is_line (PyStr.take (i + 1) s) /\
  (i + 1 <= PyStr.len s)%nat.
Proof.
  intros Hi Hpos.
  pose proof (index_bound _ _ _ Hi) as Hb. change (PyStr.len LF) with 1%nat in Hb.
  split; [|done]. exists (PyStr.take i s). split_and!.
  - intros H. apply (f_equal PyStr.len) in H.
    rewrite str_len_take_le in H by lia. cbn in H. lia.
  - by apply index_char_take.
  - pose proof (index_split _ _ _ Hi) as Hs.
    rewrite Hs at 1. rewrite <- str_app_assoc.
    replace (i + 1)%nat with (PyStr.len (PyStr.take i s +:+ LF)).
    + apply str_take_app_len.
    + rewrite str_len_app, str_len_take_le by lia. done.
Qed.

Lemma next_line st i :
  PyStr.index LF (IOStream.readable st) = Some i -> (0 < i)%nat ->
  exists st',
    IOStream.next st
    = Ok (Some (PyStr.take (i + 1) (IOStream.readable st))) st' /\
    IOStream.readable st' = PyStr.drop (i + 1) (IOStream.readable st).
Proof.
  intros Hi Hpos. destruct (readline_line st i Hi Hpos) as (st' & Hr & Hrest).
  exists st'. split; [|done]. unfold IOStream.next.
  rewrite (bind_ok _ _ _ _ _ Hr). unfold ret.
  destruct (decide (PyStr.take (i + 1) (IOStream.readable st) = ""))
    as [E|_]; [|done].
  destruct (take_line _ _ Hi Hpos) as [_ Hb].
  apply (f_equal PyStr.len) in E. rewrite str_len_take_le in E by done.
  cbn in E. lia.
Qed.

Lemma next_stop st :
  PyStr.index LF (IOStream.readable st) = None \/
  PyStr.index LF (IOStream.readable st) = Some 0%nat ->
  exists st', IOStream.next st = Ok None st'.
Proof.
  intros Hi. destruct (readline_empty st Hi) as (st' & Hr & _).
  exists st'. unfold IOStream.next. by rewrite (bind_ok _ _ _ _ _ Hr).
Qed.

(** What the loop of [readlines] returns, given enough fuel. *)
Lemma iterate_spec fuel acc st :
  (PyStr.len (IOStream.readable st) <= fuel)%nat ->
  exists lines tail st',
    IOStream.iterate fuel acc st = Some (Ok (acc ++ lines) st') /\
    IOStream.readable st = PyStr.concat lines +:+ tail /\
    Forall is_line lines /\
    (PyStr.index LF tail = None \/ PyStr.index LF tail = Some 0%nat).
Proof.
  revert acc st. induction fuel as [|fuel IH]; intros acc st Hfuel.
  - destruct (PyStr.index LF (IOStream.readable st)) as [[|i]|] eqn:Hi.
    + destruct (next_stop st (or_intror Hi)) as (st' & Hn).
      exists [], (IOStream.readable st), st'. cbn [IOStream.iterate].
      rewrite Hn, app_nil_r. split_and!; [done|done|done|by right].
    + apply index_bound in Hi. lia.
    + destruct (next_stop st (or_introl Hi)) as (st' & Hn).
      exists [], (IOStream.readable st), st'. cbn [IOStream.iterate].
      rewrite Hn, app_nil_r. split_and!; [done|done|done|by left].
  - destruct (PyStr.index LF (IOStream.readable st)) as [[|i]|] eqn:Hi.
    + destruct (next_stop st (or_intror Hi)) as (st' & Hn).
      exists [], (IOStream.readable st), st'. cbn [IOStream.iterate].
      rewrite Hn, app_nil_r. split_and!; [done|done|done|by right].
    + destruct (next_line st (S i) Hi ltac:(lia)) as (st1 & Hn & Hrest).
      destruct (take_line _ _ Hi ltac:(lia)) as [Hline Hb].
      destruct (IH (acc ++ [PyStr.take (S i + 1) (IOStream.readable st)]) st1)
        as (lines & tail & st' & Hrun & Hread & Hlines & Htail).
      { rewrite Hrest, str_len_drop. lia. }
      exists (PyStr.take (S i + 1) (IOStream.readable st) :: lines), tail, st'.
      cbn [IOStream.iterate]. rewrite Hn, Hrun, <- app_assoc.
      split_and!; [done| |by constructor|done].
      cbn [PyStr.concat foldr]. fold (PyStr.concat lines).
      rewrite str_app_assoc, <- Hread, Hrest. symmetry. apply str_take_drop.
    + destruct (next_stop st (or_introl Hi)) as (st' & Hn).
      exists [], (IOStream.readable st), st'. cbn [IOStream.iterate].
      rewrite Hn, app_nil_r. split_and!; [done|done|done|by left].
Qed.

(** More fuel than that changes nothing. *)
Lemma iterate_enough fuel1 fuel2 acc st :
  (PyStr.len (IOStream.readable st) <= fuel1)%nat ->
  (PyStr.len (IOStream.readable st) <= fuel2)%nat ->
  IOStream.iterate fuel1 acc st = IOStream.iterate fuel2 acc st.
Proof.
  revert fuel2 acc st.
  induction fuel1 as [|fuel1 IH]; intros fuel2 acc st H1 H2.
  - destruct fuel2 as [|fuel2]; [done|].
    cbn [IOStream.iterate].
    destruct (PyStr.index LF (IOStream.readable st)) as [[|i]|] eqn:Hi.
    + destruct (next_stop st (or_intror Hi)) as (st' & ->). done.
    + apply index_bound in Hi. lia.
    + destruct (next_stop st (or_introl Hi)) as (st' & ->). done.
  - destruct (PyStr.index LF (IOStream.readable st)) as [[|i]|] eqn:Hi.
    + destruct (next_stop st (or_intror Hi)) as (st' & Hn).
      destruct fuel2; cbn [IOStream.iterate]; by rewrite Hn.
    + destruct (next_line st (S i) Hi ltac:(lia)) as (st1 & Hn & Hrest).
      pose proof (index_bound _ _ _ Hi) as Hb.
      change (PyStr.len LF) with 1%nat in Hb.
      destruct fuel2 as [|fuel2]; [lia|].
      cbn [IOStream.iterate]. rewrite Hn.
      apply IH; rewrite Hrest, str_len_drop; lia.
    + destruct (next_stop st (or_introl Hi)) as (st' & Hn).
      destruct fuel2; cbn [IOStream.iterate]; by rewrite Hn.
Qed.


(** [writelines] is one [write] of the lines joined. *)
Lemma writelines_spec (lines : list string) st :
  IOStream.writelines lines st
  = IOStream.write (PyStr.concat lines) st.
Proof.
  revert st. induction lines as [|line lines IH]; intros st.
  - destruct st. unfold IOStream.write, modify. cbn. by rewrite str_app_nil_r.
  - cbn [IOStream.writelines]. unfold bind at 1.
    unfold IOStream.write at 1, modify at 1. rewrite IH.
    unfold IOStream.write, modify. cbn. by rewrite str_app_assoc.
Qed.

(** X9. [writelines] followed by [flush]: the lines are appended to
    what was written, in order and with nothing between them. On a
    sound connection everything written gets to the socket and the
    write buffer is left empty; on a broken one [flush] raises the
    socket's error and the bytes stay in the buffer. Nothing is read. *)
Theorem X9_writelines_flush (lines : list string) st :
  let r := (IOStream.writelines lines ;; IOStream.flush)%monad st in
  IOStream.wire (state_of r) = IOStream.wire st +:+ PyStr.concat lines /\
  IOStream.readable (state_of r) = IOStream.readable st /\
  match send_error (IOStream.socket st) with
  | None =>
      r = Ok tt (state_of r) /\
      outbox (IOStream.socket (state_of r))
      = IOStream.wire st +:+ PyStr.concat lines /\
      IOStream.write_buffer (state_of r) = ""
  | Some errno =>
      r = Raise (SocketError errno) (state_of r) /\
      outbox (IOStream.socket (state_of r)) = outbox (IOStream.socket st) /\
      IOStream.write_buffer (state_of r)
      = IOStream.write_buffer st +:+ PyStr.concat lines
  end.
Proof.
  cbv zeta.
  assert ((IOStream.writelines lines ;; IOStream.flush)%monad st
          = IOStream.flush
              (IOStream.Mk (IOStream.socket st) (IOStream.read_buffer st)
                 (IOStream.write_buffer st +:+ PyStr.concat lines))) as ->.
  { unfold bind. by rewrite writelines_spec. }
  destruct st as [[ib ob cl [errno|]] rb wb];
    unfold IOStream.wire, IOStream.readable; cbn.
  - by rewrite str_app_assoc.
  - by rewrite str_app_nil_r, str_app_assoc.
Qed.

End IOStreamLines.

(** ** [parse_request]: which requests it takes, and the rest of the
    environment *)

Section ParseRequestMore.

Import HornedWorkerProcess.

Implicit Types (w : HornedWorkerProcess.t) (env : environ)
  (headers : list header) (s : string) (c a : ascii) (i j n : nat).

Lemma count_index_None c s :
  PyStr.index (String c "") s = None <-> count_char c s = 0%nat.
Proof.
  induction s as [|a s IH]; [done|]. cbn [count_char].
  destruct (decide (a = c)) as [->|Hac].
  - rewrite index_true by (cbn; by destruct (decide (c = c))). split; [done|lia].
  - rewrite index_char_cons by done.
    destruct (PyStr.index (String c "") s); cbn; [|tauto].
    split; [done|]. intros H. apply IH in H. done.
Qed.

Lemma count_index_Some c s i :
  PyStr.index (String c "") s = Some i ->
  count_char c s = S (count_char c (PyStr.drop (i + 1) s)).
Proof.
  revert i. induction s as [|a s IH]; intros i Hi; [done|]. cbn [count_char].
  destruct (decide (a = c)) as [->|Hac].
  - rewrite index_true in Hi by (cbn; by destruct (decide (c = c))).
    injection Hi as <-. cbn [Nat.add PyStr.drop]. by rewrite ?str_drop_0.
  - rewrite index_char_cons in Hi by done.
    destruct (PyStr.index (String c "") s) as [j|]; [|done].
    injection Hi as <-. cbn [Nat.add PyStr.drop]. by apply IH.
Qed.

(** [reqline.split(" ", 2)] has three items exactly when the line has
    two spaces or more. *)
Lemma split_max_2_tokens s :
  match PyStr.split_max 2 s " " with
  | [_; _; _] => (2 <= count_char " " s)%nat
  | _ => (count_char " " s < 2)%nat
  end.
Proof.
  cbn [PyStr.split_max].
  destruct (PyStr.index " " s) as [i|] eqn:Hi.
  - rewrite (count_index_Some _ _ _ Hi). change (PyStr.len " ") with 1%nat.
    destruct (PyStr.index " " (PyStr.drop (i + 1) s)) as [j|] eqn:Hj.
    + rewrite (count_index_Some _ _ _ Hj). lia.
    + apply count_index_None in Hj. rewrite Hj. lia.
  - apply count_index_None in Hi. rewrite Hi. lia.
Qed.

(** [lines[0]] is the text before the first CRLF. *)
Lemma hd_split s : hd "" (PyStr.split s CRLF) = first_line s.
Proof.
  unfold PyStr.split, first_line.
  destruct (PyStr.len s) as [|n] eqn:Hn.
  - apply str_len_nil in Hn as ->. done.
  - cbn [PyStr.split_max]. by destruct (PyStr.index CRLF s).
Qed.

Lemma str_take_take_le j n s :
  (j <= n)%nat -> PyStr.take j (PyStr.take n s) = PyStr.take j s.
Proof.
  intros Hjn. destruct (decide (n <= PyStr.len s)%nat) as [Hn|Hn].
  - rewrite <- (str_take_drop n s) at 2.
    rewrite str_take_app_le; [done|]. rewrite str_len_take_le; lia.
  - rewrite (str_take_all n s) by lia. done.
Qed.

(** The first line of the head that [read_until] returns is the first
    line of the stream. *)
Lemma first_line_head s i :
  PyStr.index (CRLF +:+ CRLF) s = Some i ->
  first_line (PyStr.take (i + 4) s) = first_line s.
Proof.
  intros Hi. pose proof (index_bound _ _ _ Hi) as Hb.
  change (PyStr.len (CRLF +:+ CRLF)) with 4%nat in Hb.
  destruct (index_Some _ _ _ Hi) as [Hat _].
  apply startswith_spec in Hat as [t Ht].
  assert (PyStr.startswith CRLF (PyStr.drop i s) = true) as Hcrlf.
  { apply startswith_spec. exists (CRLF +:+ t). rewrite Ht.
    by rewrite str_app_assoc. }
  unfold first_line.
  destruct (PyStr.index CRLF s) as [j|] eqn:Hj.
  - assert (j <= i)%nat as Hji.
    { destruct (index_Some _ _ _ Hj) as [_ Hmin].
      destruct (decide (j <= i)%nat); [done|].
      rewrite Hmin in Hcrlf by lia. done. }
    assert (PyStr.index CRLF (PyStr.take (i + 4) s) = Some j) as ->.
    { apply (index_app_inv _ _ (PyStr.drop (i + 4) s)).
      - by rewrite str_take_drop.
      - rewrite str_len_take_le by lia. change (PyStr.len CRLF) with 2%nat.
        lia. }
    apply str_take_take_le. lia.
  - by rewrite (index_None _ _ Hj i) in Hcrlf.
Qed.

Lemma parse_request_found client_address w i :
  PyStr.index (CRLF +:+ CRLF) (IOStream.readable (stream w)) = Some i ->
  (0 < i)%nat ->
  exists w',
    match PyStr.split_max 2 (first_line (IOStream.readable (stream w))) " "
    with
    | [_; _; _] =>
        exists env,
          parse_request client_address w
          = Ok (first_line (IOStream.readable (stream w)), env) w'
    | _ => parse_request client_address w = Raise ValueError w'
    end.
Proof.
  intros Hi Hpos.
  destruct (read_until_found _ _ _ Hi Hpos) as (st' & Hrun & _).
  change (PyStr.len (CRLF +:+ CRLF)) with 4%nat in Hrun.
  assert (on_stream (IOStream.read_until (CRLF +:+ CRLF)) w
          = Ok (PyStr.take (i + 4) (IOStream.readable (stream w)))
               (set_stream st' w)) as Hon.
  { unfold on_stream, zoom. by rewrite Hrun. }
  exists (set_stream st' w).
  unfold parse_request. rewrite !(bind_ok _ _ _ _ _ Hon). cbv zeta.
  rewrite hd_split, first_line_head by done.
  destruct (PyStr.split_max 2 (first_line (IOStream.readable (stream w))) " ")
    as [|method [|path [|protocol [|]]]]; try reflexivity.
  unfold bind, gets, ret. cbv beta iota.
  destruct (PyStr.contains "?" path);
    [destruct (PyStr.partition path "?") as [[? ?] ?]|]; by eexists.
Qed.

(** X10. [parse_request] takes a request exactly when a blank line
    ends its head, one byte or more into the stream, and its first
    line has two spaces or more; the request line it returns is that
    first line. In every other case it raises [ValueError]. *)
Theorem X10_parse_request_accepts client_address w :
  let text := IOStream.readable (stream w) in
  let accepted :=
    (exists i, PyStr.index (CRLF +:+ CRLF) text = Some i /\ (0 < i)%nat) /\
    (2 <= count_char " " (first_line text))%nat in
  (accepted ->
     exists env w',
       parse_request client_address w = Ok (first_line text, env) w') /\
  (~ accepted ->
     exists w', parse_request client_address w = Raise ValueError w').
Proof.
  cbv zeta.
  pose proof (split_max_2_tokens
                (first_line (IOStream.readable (stream w)))) as Htok.
  split.
  - intros [(i & Hi & Hpos) Hcount].
    destruct (parse_request_found client_address w i Hi Hpos) as (w' & Hrun).
    destruct (PyStr.split_max 2 (first_line (IOStream.readable (stream w))) " ")
      as [|method [|path [|protocol [|]]]]; try lia.
    destruct Hrun as (env & Hrun). by exists env, w'.
  - intros Hno.
    destruct (PyStr.index (CRLF +:+ CRLF) (IOStream.readable (stream w)))
      as [[|i]|] eqn:Hi.
    + destruct (read_until_raises _ _ (or_intror Hi)) as (st' & Hrun).
      exists (set_stream st' w). unfold parse_request.
      apply bind_raise. unfold on_stream, zoom. by rewrite Hrun.
    + destruct (parse_request_found client_address w (S i) Hi ltac:(lia))
        as (w' & Hrun).
      exists w'.
      destruct (PyStr.split_max 2
                  (first_line (IOStream.readable (stream w))) " ")
        as [|method [|path [|protocol [|]]]]; try done.
      exfalso. apply Hno. split; [exists (S i); split; [done|lia]|done].
    + destruct (read_until_raises _ _ (or_introl Hi)) as (st' & Hrun).
      exists (set_stream st' w). unfold parse_request.
      apply bind_raise. unfold on_stream, zoom. by rewrite Hrun.
Qed.

(** What [parse_request] returns for a well-formed head, in full. *)
Lemma parse_head_env method path query protocol headers client_address w
    (st' : IOStream.t) :
  let target := request_target path query in
  let reqline := request_line method target protocol in
  let found :=
    with_headers headers
      (<["wsgi.input" := VInput]>
       (<["PATH_INFO" := VStr (urlunquote path)]>
        (match query with
         | Some q => <["QUERY_STRING" := VStr q]>
         | None => fun e => e
         end
           (<["REMOTE_ADDR" := VStr (remote_addr client_address)]>
            (<["SERVER_PROTOCOL" := VStr protocol]>
             (<["REQUEST_METHOD" := VStr method]> (baseenv w))))))) in
  PyStr.contains " " method = false ->
  PyStr.contains " " target = false ->
  PyStr.contains "?" path = false ->
  PyStr.contains CRLF reqline = false ->
  Forall well_formed_header headers ->
  IOStream.read_until (CRLF +:+ CRLF) (stream w)
  = Ok (request_head reqline headers) st' ->
  parse_request client_address w
  = Ok (reqline,
        match cfg_real_ip_header (config w) with
        | Some real_ip_header =>
            match found !! real_ip_header with
            | Some v => <["REMOTE_ADDR" := v]> found
            | None => found
            end
        | None => found
        end) (set_stream st' w).
Proof.
  intros target reqline found Hm Ht Hp Hc Hall Hread.
  assert (on_stream (IOStream.read_until (CRLF +:+ CRLF)) w
          = Ok (request_head reqline headers) (set_stream st' w)) as Hon.
  { unfold on_stream, zoom. by rewrite Hread. }
  unfold parse_request. rewrite (bind_ok _ _ _ _ _ Hon). cbv zeta.
  assert (Forall (fun line => PyStr.index CRLF line = None)
            (reqline :: (request_header <$> headers))) as Hlines.
  { apply Forall_cons. split; [by apply contains_false|].
    apply Forall_fmap. eapply Forall_impl; [exact Hall|].
    intros h [_ Hh]. by apply contains_false. }
  unfold request_head. rewrite (split_lines _ Hlines).
  rewrite <- app_comm_cons. cbn [hd tail].
  unfold reqline at 1. rewrite split_request_line by done.
  unfold bind, gets, ret. cbv beta iota.
  unfold found, target. destruct query as [q|]; cbn [request_target].
  - change ("?" +:+ q) with (String "?" q).
    rewrite contains_char_app, partition_char_app by done. cbv beta iota.
    by rewrite (parse_headers_spec headers [""]) by done.
  - rewrite Hp. cbv beta iota.
    by rewrite (parse_headers_spec headers [""]) by done.
Qed.

Lemma http_key_other k key :
  PyStr.startswith "HTTP_" k = false -> k <> "HTTP_" +:+ key.
Proof. intros Hk ->. by rewrite startswith_app in Hk. Qed.

(** X11. [REMOTE_ADDR] of a well-formed request. Without
    [real_ip_header] it is the host of the peer address. With
    [real_ip_header] set to the key of a request header, it is the
    trimmed value of the last header of that name when the request
    has one; when it has none, it is what the base environment holds
    under that key, if anything, and the host of the peer address
    otherwise. *)
Theorem X11_remote_addr
    method path query protocol headers body client_address w :
  PyStr.contains " " method = false ->
  PyStr.contains " " (request_target path query) = false ->
  PyStr.contains "?" path = false ->
  PyStr.contains CRLF
    (request_line method (request_target path query) protocol) = false ->
  Forall well_formed_header headers ->
  IOStream.readable (stream w)
  = request_head (request_line method (request_target path query) protocol)
      headers +:+ body ->
  exists env w',
    parse_request client_address w
    = Ok (request_line method (request_target path query) protocol, env) w' /\
    (cfg_real_ip_header (config w) = None ->
       env !! "REMOTE_ADDR" = Some (VStr (remote_addr client_address))) /\
    (forall key,
       cfg_real_ip_header (config w) = Some ("HTTP_" +:+ key) ->
       env !! "REMOTE_ADDR"
       = Some match last_header key headers with
              | Some h => VStr (PyStr.strip (snd h))
              | None => default (VStr (remote_addr client_address))
                                (baseenv w !! ("HTTP_" +:+ key))
              end).
Proof.
  intros Hm Ht Hp Hc Hall Hread.
  assert (request_line method (request_target path query) protocol <> "")
    as Hne by (unfold request_line; by destruct method).
  destruct (read_head
              (request_line method (request_target path query) protocol)
              headers body (stream w) Hne Hc Hall Hread)
    as (st' & Hrun & _).
  pose proof (parse_head_env method path query protocol headers
                client_address w st' Hm Ht Hp Hc Hall Hrun) as Hparse.
  cbv zeta in Hparse. eexists _, _. split; [exact Hparse|].
  assert (forall env0,
            with_headers headers
              (<["wsgi.input" := VInput]>
                 (<["PATH_INFO" := VStr (urlunquote path)]>
                    (match query with
                     | Some q => <["QUERY_STRING" := VStr q]>
                     | None => fun e => e
                     end
                       (<["REMOTE_ADDR" := VStr (remote_addr client_address)]>
                          env0)))) !! "REMOTE_ADDR"
            = Some (VStr (remote_addr client_address))) as Hpeer.
  { intros env0. rewrite lookup_with_headers_other
      by (by apply not_http_key).
    destruct query; rewrite ?lookup_insert_ne by done;
      by rewrite lookup_insert_eq. }
  split.
  - intros ->. apply Hpeer.
  - intros key ->. rewrite lookup_with_headers.
    destruct (last_header key headers) as [h|]; [by rewrite lookup_insert_eq|].
    assert (forall k0, PyStr.startswith "HTTP_" k0 = false ->
                       k0 <> "HTTP_" +:+ key) as Hkey
      by (intros; by apply http_key_other).
    assert (forall env0 : environ,
              (<["wsgi.input" := VInput]>
                 (<["PATH_INFO" := VStr (urlunquote path)]>
                    (match query with
                     | Some q => <["QUERY_STRING" := VStr q]>
                     | None => fun e => e
                     end
                       (<["REMOTE_ADDR" := VStr (remote_addr client_address)]>
                          (<["SERVER_PROTOCOL" := VStr protocol]>
                             (<["REQUEST_METHOD" := VStr method]> env0))))))
              !! ("HTTP_" +:+ key) = env0 !! ("HTTP_" +:+ key)) as Hbase.
    { intros env0. destruct query; by rewrite !lookup_insert_ne by (by apply Hkey). }
    rewrite Hbase.
    destruct (baseenv w !! ("HTTP_" +:+ key)) as [v|]; cbn [default].
    + by rewrite lookup_insert_eq.
    + apply Hpeer.
Qed.

Lemma X11_remote_addr_witness :
  exists env w',
    parse_request (AddrInet "10.0.0.9" 4711)
      (Mk (MkConfig (AppCallable demo_app) 80 4 true
             (Some "HTTP_X_FORWARDED_FOR"))
          demo_app true true 0 0 "" ∅
          (IOStream.new
             (sample_peer ["GET / HTTP/1.0" +:+ CRLF +:+
                           "X-Forwarded-For: 192.0.2.1 " +:+ CRLF +:+ CRLF]))
          false sample_clock [] 0)
    = Ok ("GET / HTTP/1.0", env) w' /\
    env !! "REMOTE_ADDR" = Some (VStr "192.0.2.1").
Proof.
  destruct (X11_remote_addr "GET" "/" None "HTTP/1.0"
              [("X-Forwarded-For", " 192.0.2.1 ")] ""
              (AddrInet "10.0.0.9" 4711)
              (Mk (MkConfig (AppCallable demo_app) 80 4 true
                     (Some "HTTP_X_FORWARDED_FOR"))
                  demo_app true true 0 0 "" ∅
                  (IOStream.new
                     (sample_peer ["GET / HTTP/1.0" +:+ CRLF +:+
                                   "X-Forwarded-For: 192.0.2.1 " +:+ CRLF +:+
                                   CRLF]))
                  false sample_clock [] 0))
    as (env & w' & Hrun & _ & Hkey); try reflexivity.
  { by repeat constructor. }
  exists env, w'. split; [exact Hrun|].
  exact (Hkey "X_FORWARDED_FOR" eq_refl).
Defined.

(** X12. A well-formed request leaves the base environment alone:
    the environment handed to the application holds [wsgi.input], and
    under every key that is neither a request header's nor one of the
    five variables of the request line and the peer, it holds what
    the base environment holds. The base environment of the worker is
    not changed. *)
Theorem X12_base_environment
    method path query protocol headers body client_address w :
  PyStr.contains " " method = false ->
  PyStr.contains " " (request_target path query) = false ->
  PyStr.contains "?" path = false ->
  PyStr.contains CRLF
    (request_line method (request_target path query) protocol) = false ->
  Forall well_formed_header headers ->
  IOStream.readable (stream w)
  = request_head (request_line method (request_target path query) protocol)
      headers +:+ body ->
  exists env w',
    parse_request client_address w
    = Ok (request_line method (request_target path query) protocol, env) w' /\
    baseenv w' = baseenv w /\
    env !! "wsgi.input" = Some VInput /\
    forall k,
      PyStr.startswith "HTTP_" k = false ->
      k ∉ ["REQUEST_METHOD"; "SERVER_PROTOCOL"; "REMOTE_ADDR";
           "QUERY_STRING"; "PATH_INFO"; "wsgi.input"] ->
      env !! k = baseenv w !! k.
Proof.
  intros Hm Ht Hp Hc Hall Hread.
  assert (request_line method (request_target path query) protocol <> "")
    as Hne by (unfold request_line; by destruct method).
  destruct (read_head
              (request_line method (request_target path query) protocol)
              headers body (stream w) Hne Hc Hall Hread)
    as (st' & Hrun & _).
  destruct (parse_head_spec method path query protocol headers
              client_address w st' Hm Ht Hp Hc Hall Hrun)
    as (env & Hparse & Henv).
  exists env, (set_stream st' w). split_and!; [done|done| |].
  - rewrite Henv by done.
    rewrite lookup_with_headers_other by (by apply not_http_key).
    by rewrite lookup_insert_eq.
  - intros k Hk Hnot. rewrite !not_elem_of_cons in Hnot.
    destruct Hnot as (? & ? & ? & ? & ? & ? & _).
    rewrite Henv by done.
    rewrite lookup_with_headers_other by (by apply not_http_key).
    destruct query; by rewrite !lookup_insert_ne by done.
Qed.

Lemma X12_base_environment_witness :
  exists env w',
    parse_request (AddrInet "10.0.0.9" 4711)
      (set_stream
         (IOStream.new (sample_peer ["GET / HTTP/1.0" +:+ CRLF +:+ CRLF]))
         (sample_worker demo_app (sample_peer [])))
    = Ok ("GET / HTTP/1.0", env) w' /\
    env !! "wsgi.input" = Some VInput /\
    env !! "SERVER_NAME" = Some (VStr "localhost").
Proof.
  destruct (X12_base_environment "GET" "/" None "HTTP/1.0" [] ""
              (AddrInet "10.0.0.9" 4711)
              (set_stream
                 (IOStream.new
                    (sample_peer ["GET / HTTP/1.0" +:+ CRLF +:+ CRLF]))
                 (sample_worker demo_app (sample_peer []))))
    as (env & w' & Hrun & _ & Hin & Hbase); try reflexivity.
  { constructor. }
  exists env, w'. split_and!; [exact Hrun|exact Hin|].
  rewrite Hbase; [reflexivity|reflexivity|].
  rewrite !not_elem_of_cons. split_and!; try discriminate.
  apply not_elem_of_nil.
Defined.

End ParseRequestMore.

(** ** What the response driver leaves alone *)

Section Preserves.

Import HornedWorkerProcess.

Implicit Types (w : HornedWorkerProcess.t) (status : option string)
  (headers : list header) (l : Locals).

(** A view of the worker that shows nothing of the stream, of the
    [headers_sent] flag and of the count of [close()] calls. *)
Context {B : Type} (proj : HornedWorkerProcess.t -> B).
Hypothesis proj_stream : forall s w, proj (set_stream s w) = proj w.
Hypothesis proj_headers_sent :
  forall b w, proj (set_headers_sent b w) = proj w.
Hypothesis proj_close : forall w, proj (count_close w) = proj w.

Lemma preserves_ret {A} (a : A) : preserves proj (ret a).
Proof. done. Qed.

Lemma preserves_raise {A} e : preserves proj (raise (A := A) e).
Proof. done. Qed.

Lemma preserves_gets {A} (f : t -> A) : preserves proj (gets f).
Proof. done. Qed.

Lemma preserves_bind {A C} (m : M t A) (k : A -> M t C) :
  preserves proj m -> (forall a, preserves proj (k a)) ->
  preserves proj (bind m k).
Proof.
  intros Hm Hk w. unfold bind. specialize (Hm w).
  destruct (m w) as [a w1|e w1]; cbn [state_of] in *; [|done].
  by rewrite Hk.
Qed.

Lemma preserves_if {A} (b : bool) (m1 m2 : M t A) :
  preserves proj m1 -> preserves proj m2 ->
  preserves proj (if b then m1 else m2).
Proof. by destruct b. Qed.

Lemma preserves_on_stream {A} (m : M IOStream.t A) :
  preserves proj (on_stream m).
Proof.
  intros w. unfold on_stream, zoom.
  destruct (m (stream w)); cbn [state_of]; apply proj_stream.
Qed.

Lemma preserves_set_headers_sent b :
  preserves proj (modify (set_headers_sent b)).
Proof. intros w. apply proj_headers_sent. Qed.

Lemma preserves_set_stream s : preserves proj (modify (set_stream s)).
Proof. intros w. apply proj_stream. Qed.

Lemma preserves_count_close : preserves proj (modify count_close).
Proof. intros w. apply proj_close. Qed.

Lemma preserves_run_op op l : preserves proj (run_op op l).
Proof. intros w. by rewrite run_op_state. Qed.

Lemma preserves_run_ops ops l : preserves proj (run_ops ops l).
Proof. intros w. by rewrite run_ops_state. Qed.

Create HintDb preserves discriminated.

#[local] Hint Resolve preserves_ret preserves_raise preserves_gets
  preserves_on_stream preserves_set_headers_sent preserves_set_stream
  preserves_count_close preserves_run_op preserves_run_ops : preserves.
#[local] Hint Extern 2 (preserves _ (bind _ _)) =>
  apply preserves_bind; [|intros ?] : preserves.
#[local] Hint Extern 2 (preserves _ (if _ then _ else _)) =>
  apply preserves_if : preserves.

Lemma preserves_send_headers status headers :
  preserves proj (send_headers status headers).
Proof. unfold send_headers. auto 20 with preserves. Qed.

#[local] Hint Resolve preserves_send_headers : preserves.

Lemma preserves_for_chunk status headers todo n l :
  preserves proj (for_chunk status headers todo n l).
Proof.
  revert n l. induction todo as [|[chunk|op] rest IH]; intros n l;
    cbn [for_chunk]; auto 20 with preserves.
Qed.

#[local] Hint Resolve preserves_for_chunk : preserves.

Lemma preserves_for_chunks status headers sources chunks n l :
  preserves proj (for_chunks status headers sources chunks n l).
Proof.
  revert chunks n l. induction sources as [|source rest IH]; intros chunks n l;
    cbn [for_chunks]; auto 20 with preserves.
Qed.

#[local] Hint Resolve preserves_for_chunks : preserves.

Lemma preserves_send_response status headers chunks items l :
  preserves proj (send_response status headers chunks items l).
Proof.
  unfold send_response. apply preserves_bind; [auto with preserves|].
  intros [[last_chunks n] l']. auto 20 with preserves.
Qed.

#[local] Hint Resolve preserves_send_response : preserves.

Lemma preserves_execute_request a env :
  preserves proj (execute_request a env).
Proof. unfold execute_request. auto 20 with preserves. Qed.

Lemma preserves_parse_request client_address :
  preserves proj (parse_request client_address).
Proof.
  intros w. rewrite parse_request_state. apply preserves_on_stream.
Qed.

#[local] Hint Resolve preserves_execute_request preserves_parse_request
  : preserves.

(** [handle_request] changes the log on top of that. *)
Hypothesis proj_log : forall e w, proj (log e w) = proj w.

Lemma preserves_handle_request connection client_address :
  preserves proj (handle_request connection client_address).
Proof.
  unfold handle_request.
  do 2 (apply preserves_bind; [auto with preserves|intros _]).
  apply preserves_bind; [auto with preserves|intros [reqline env]].
  apply preserves_bind; [auto with preserves|intros self_app].
  apply preserves_bind; [auto with preserves|intros [status n]].
  do 2 (apply preserves_bind; [auto with preserves|intros ?]).
  apply preserves_if; [|auto with preserves].
  destruct status; [|auto with preserves]. intros w. apply proj_log.
Qed.

End Preserves.

(** ** The response as a whole *)

Section ResponseMore.

Import HornedWorkerProcess.

Implicit Types (w : HornedWorkerProcess.t) (status : option string)
  (headers : list header) (l : Locals).

Lemma sum_len_concat (items : list string) :
  sum_list_with PyStr.len items = PyStr.len (PyStr.concat items).
Proof.
  induction items as [|item items IH]; [done|].
  cbn [sum_list_with PyStr.concat foldr]. fold (PyStr.concat items).
  by rewrite str_len_app, IH.
Qed.

(** [execute_request] returns: the header block and the whole body
    have been written, and the length returned is that of the body. *)
Lemma execute_request_ok a env w res w' :
  headers_sent w = false ->
  execute_request a env w = Ok res w' ->
  exists l,
    run_ops (call_ops (app w env)) (MkLocals None [] []) w = Ok l w /\
    fst res = response_status l /\
    snd res
    = PyStr.len
        (PyStr.concat (data l ++ yields (steps (returned (app w env))))) /\
    headers_sent w' = true /\
    wire w' = wire w +:+
              header_block (response_status l) (response_headers l) (clock w)
              +:+
              PyStr.concat (data l ++ yields (steps (returned (app w env)))).
Proof.
  intros Hs. unfold execute_request. rewrite (bind_ok _ _ _ _ _ (gets_run _ _)).
  set (l0 := MkLocals None [] []).
  pose proof (run_ops_state (call_ops (app w env)) l0 w) as Hops.
  destruct (run_ops (call_ops (app w env)) l0 w) as [l w1|e w1] eqn:E;
    cbn in Hops; subst w1.
  2:{ by rewrite (bind_raise _ _ _ _ _ E). }
  rewrite (bind_ok _ _ _ _ _ E).
  destruct (send_response_spec (response_status l) (response_headers l)
              (returned (app w env)) (data l) l w)
    as (done & _ & P & Hok & _). cbv zeta in P, Hok.
  destruct (send_response _ _ _ _ _ w) as [r w2|e w2] eqn:Es.
  2:{ by rewrite (bind_raise _ _ _ _ _ Es). }
  rewrite (bind_ok _ _ _ _ _ Es). intros [= <- <-].
  destruct (Hok r w2 eq_refl) as [-> Hn]. cbn [state_of] in P.
  exists l. split; [done|]. split; [done|]. cbn [fst snd].
  assert (PyStr.concat
            (data l ++ yields (steps (returned (app w env))) ++ [""])
          = PyStr.concat (data l ++ yields (steps (returned (app w env)))))
    as Hbody.
  { rewrite app_assoc, str_concat_app, str_concat_singleton.
    apply str_app_nil_r. }
  split; [by rewrite Hn, sum_len_concat, Hbody|].
  destruct P as (_ & _ & _ & P). rewrite Hs in P.
  destruct P as [(_ & Hnil & _)|(Hs2 & Hw2)].
  - apply (f_equal length) in Hnil. rewrite !length_app in Hnil.
    cbn in Hnil. lia.
  - by rewrite Hw2, Hbody.
Qed.

Lemma run_ops_no_start_response ops l w l' w' :
  Forall (fun op => ~ calls_start_response op) ops ->
  run_ops ops l w = Ok l' w' ->
  response_status l' = response_status l /\
  response_headers l' = response_headers l.
Proof.
  revert l. induction ops as [|op ops IH]; intros l Hall Hrun.
  - by injection Hrun as <- <-.
  - apply Forall_cons in Hall as [Hop Hall]. cbn [run_ops] in Hrun.
    destruct op as [s h e|bytes|e]; [by destruct Hop| |done].
    cbn [run_op] in Hrun. unfold bind at 1, ret at 1 in Hrun.
    by destruct (IH _ Hall Hrun).
Qed.

(** X13. What [execute_request] sends is settled when the call of the
    application returns: the status and the headers are those of the
    [start_response] call made until then, the body is what the write
    sink got until then followed by what the iterable yields, and the
    length returned is that of the body. What the application does
    while its iterable is consumed changes none of it; if it calls
    [start_response] only then, the status is [None] and the status
    line reads [HTTP/1.0 None]. *)
Theorem X13_response_settled_at_return a env w res w' :
  headers_sent w = false ->
  execute_request a env w = Ok res w' ->
  exists l,
    run_ops (call_ops (app w env)) (MkLocals None [] []) w = Ok l w /\
    fst res = response_status l /\
    snd res
    = PyStr.len
        (PyStr.concat (data l ++ yields (steps (returned (app w env))))) /\
    wire w' = wire w +:+
              header_block (response_status l) (response_headers l) (clock w)
              +:+
              PyStr.concat (data l ++ yields (steps (returned (app w env))))
    /\
    (Forall (fun op => ~ calls_start_response op) (call_ops (app w env)) ->
     response_status l = None /\ response_headers l = []).
Proof.
  intros Hs Hrun.
  destruct (execute_request_ok a env w res w' Hs Hrun)
    as (l & Hl & Hst & Hn & _ & Hw).
  exists l. split_and!; try done.
  intros Hall. by apply (run_ops_no_start_response _ _ _ _ _ Hall Hl).
Qed.

Lemma X13_response_settled_at_return_witness :
  let lazy : application := fun _ =>
    AppRun [CallWrite "early "]
      (Iterable [Do (CallStartResponse "200 OK" [("X-A", "b")] None);
                 Do (CallWrite "lost");
                 Yield "late"] false) in
  let w := sample_worker lazy (sample_peer []) in
  exists res w',
    execute_request lazy ∅ w = Ok res w' /\
    fst res = None /\ snd res = 10%nat /\
    wire w' = "HTTP/1.0 None" +:+ CRLF +:+
              "Date: Mon, 07 Mar 2011 09:05:00 GMT" +:+ CRLF +:+
              "Connection: close" +:+ CRLF +:+ CRLF +:+ "early late".
Proof.
  cbv zeta.
  set (lazy := fun _ : environ =>
    AppRun [CallWrite "early "]
      (Iterable [Do (CallStartResponse "200 OK" [("X-A", "b")] None);
                 Do (CallWrite "lost");
                 Yield "late"] false)).
  set (w := sample_worker lazy (sample_peer [])).
  destruct (execute_request lazy ∅ w) as [res w'|e w'] eqn:E;
    [|by vm_compute in E].
  destruct (X13_response_settled_at_return lazy ∅ w res w' eq_refl E)
    as (l & Hl & Hst & Hn & Hw & _).
  vm_compute in Hl. injection Hl as <-.
  exists res, w'. split_and!; [done|exact Hst|exact Hn|].
  rewrite Hw. vm_compute. reflexivity.
Defined.

Lemma close_ok w w' :
  on_stream IOStream.close w = Ok tt w' ->
  (steady w', logged w') = (steady w, logged w) /\
  headers_sent w' = headers_sent w /\
  wire w' = wire w /\
  outbox (IOStream.socket (stream w')) = wire w.
Proof.
  destruct w as [? ? ? ? ? ? ? ? [[ib ob cl [errno|]] rb wb] ? ? ? ?];
    unfold wire, IOStream.wire; cbn; [done|].
  intros [= <-]. cbn. by rewrite str_app_nil_r.
Qed.



End ResponseMore.

(** ** What a request can raise *)

Section NoExit.

Import HornedWorkerProcess.

Implicit Types (w : HornedWorkerProcess.t) (status : option string)
  (headers : list header) (l : Locals).

Lemma no_exit_ret {S A} (a : A) : no_exit (S := S) (ret a).
Proof. by intros s e s' [=]. Qed.

Lemma no_exit_gets {S A} (f : S -> A) : no_exit (gets f).
Proof. by intros s e s' [=]. Qed.

Lemma no_exit_modify {S} (f : S -> S) : no_exit (modify f).
Proof. by intros s e s' [=]. Qed.

Lemma no_exit_raise {S A} e :
  (forall code, e <> SystemExit code) -> no_exit (raise (S := S) (A := A) e).
Proof. by intros He s e' s' [= <- _]. Qed.

Lemma no_exit_bind {S A B} (m : M S A) (k : A -> M S B) :
  no_exit m -> (forall a, no_exit (k a)) -> no_exit (bind m k).
Proof.
  intros Hm Hk s e s'. unfold bind.
  destruct (m s) as [a s1|e1 s1] eqn:E.
  - apply Hk.
  - intros [= <- _]. by eapply Hm.
Qed.

Lemma no_exit_if {S A} (b : bool) (m1 m2 : M S A) :
  no_exit m1 -> no_exit m2 -> no_exit (if b then m1 else m2).
Proof. by destruct b. Qed.

Lemma no_exit_zoom {S T A} (get : S -> T) (set : T -> S -> S) (m : M T A) :
  no_exit m -> no_exit (zoom get set m).
Proof.
  intros Hm s e s'. unfold zoom.
  destruct (m (get s)) as [a t|e1 t] eqn:E; [done|].
  intros [= <- _]. by eapply Hm.
Qed.

Lemma no_exit_read_until delimiter : no_exit (IOStream.read_until delimiter).
Proof. intros st e st' H. by apply read_until_ValueError in H as ->. Qed.

Lemma no_exit_write_headers headers : no_exit (write_headers headers).
Proof. intros st e st'. by rewrite write_headers_spec. Qed.

Lemma no_exit_flush : no_exit IOStream.flush.
Proof.
  intros st e st'. unfold IOStream.flush, bind, gets, zoom, Sock.sendall.
  destruct (send_error (IOStream.socket st)); [|done]. by intros [= <- _].
Qed.

Create HintDb no_exit discriminated.

#[local] Hint Resolve no_exit_ret no_exit_gets no_exit_modify
  no_exit_read_until no_exit_write_headers no_exit_flush : no_exit.
#[local] Hint Extern 2 (no_exit (bind _ _)) =>
  apply no_exit_bind; [|intros ?] : no_exit.
#[local] Hint Extern 2 (no_exit (if _ then _ else _)) =>
  apply no_exit_if : no_exit.
#[local] Hint Extern 2 (no_exit (raise _)) =>
  apply no_exit_raise; discriminate : no_exit.
#[local] Hint Extern 2 (no_exit (on_stream _)) =>
  apply no_exit_zoom : no_exit.
#[local] Hint Extern 2 (no_exit (IOStream.write _)) =>
  apply no_exit_modify : no_exit.
#[local] Hint Extern 2 (no_exit IOStream.close) =>
  apply no_exit_flush : no_exit.

Lemma no_exit_run_op op l : no_exit (run_op op l).
Proof.
  destruct op as [s h [e|]|bytes|e]; cbn [run_op]; unfold start_response;
    auto 20 with no_exit.
Qed.

#[local] Hint Resolve no_exit_run_op : no_exit.

Lemma no_exit_run_ops ops l : no_exit (run_ops ops l).
Proof.
  revert l. induction ops as [|op ops IH]; intros l; cbn [run_ops];
    auto 20 with no_exit.
Qed.

Lemma no_exit_send_headers status headers :
  no_exit (send_headers status headers).
Proof. unfold send_headers. auto 30 with no_exit. Qed.

#[local] Hint Resolve no_exit_run_ops no_exit_send_headers : no_exit.

Lemma no_exit_for_chunk status headers todo n l :
  no_exit (for_chunk status headers todo n l).
Proof.
  revert n l. induction todo as [|[chunk|op] rest IH]; intros n l;
    cbn [for_chunk]; auto 20 with no_exit.
Qed.

#[local] Hint Resolve no_exit_for_chunk : no_exit.

Lemma no_exit_for_chunks status headers sources chunks n l :
  no_exit (for_chunks status headers sources chunks n l).
Proof.
  revert chunks n l. induction sources as [|source rest IH]; intros chunks n l;
    cbn [for_chunks]; auto 20 with no_exit.
Qed.

#[local] Hint Resolve no_exit_for_chunks : no_exit.

Lemma no_exit_send_response status headers chunks items l :
  no_exit (send_response status headers chunks items l).
Proof.
  unfold send_response. apply no_exit_bind; [auto with no_exit|].
  intros [[last_chunks n] l']. auto 20 with no_exit.
Qed.

#[local] Hint Resolve no_exit_send_response : no_exit.

Lemma no_exit_execute_request a env : no_exit (execute_request a env).
Proof. unfold execute_request. auto 20 with no_exit. Qed.

Lemma no_exit_parse_request client_address :
  no_exit (parse_request client_address).
Proof.
  unfold parse_request. apply no_exit_bind; [auto with no_exit|].
  intros header_data. cbv zeta.
  destruct (PyStr.split_max 2 _ " ") as [|method [|path [|protocol [|]]]];
    auto with no_exit.
  apply no_exit_bind; [auto with no_exit|intros env].
  destruct (PyStr.contains "?" path);
    [destruct (PyStr.partition path "?") as [[? ?] ?]|];
    auto 20 with no_exit.
Qed.

#[local] Hint Resolve no_exit_execute_request no_exit_parse_request : no_exit.

Lemma no_exit_handle_request connection client_address :
  no_exit (handle_request connection client_address).
Proof.
  unfold handle_request.
  do 2 (apply no_exit_bind; [auto with no_exit|intros _]).
  apply no_exit_bind; [auto with no_exit|intros [reqline env]].
  apply no_exit_bind; [auto with no_exit|intros self_app].
  apply no_exit_bind; [auto with no_exit|intros [status n]].
  do 2 (apply no_exit_bind; [auto with no_exit|intros ?]).
  apply no_exit_if; [|auto with no_exit].
  destruct status; auto with no_exit.
Qed.

End NoExit.

(** ** The accept loop *)

Section AcceptLoop.

Import HornedWorkerProcess.

Implicit Types (w : HornedWorkerProcess.t) (connection : Socket)
  (client_address : address) (events : list event) (socks : option bool).

Lemma steady_set_stream s w : steady (set_stream s w) = steady w.
Proof. by destruct w. Qed.

Lemma steady_set_headers_sent b w : steady (set_headers_sent b w) = steady w.
Proof. by destruct w. Qed.

Lemma steady_count_close w : steady (count_close w) = steady w.
Proof. by destruct w. Qed.

Lemma steady_log e w : steady (log e w) = steady w.
Proof. by destruct w. Qed.

Lemma steady_handle_request connection client_address w :
  steady (state_of (handle_request connection client_address w)) = steady w.
Proof.
  apply (preserves_handle_request steady steady_set_stream
           steady_set_headers_sent steady_count_close steady_log).
Qed.

(** The parts of [steady], one by one. *)
Lemma steady_inv w w' :
  steady w' = steady w ->
  setup w' = setup w /\ alive w' = alive w /\ requests w' = requests w /\
  errors w' = errors w /\ wpipe w' = wpipe w.
Proof.
  intros H. split_and!.
  - exact (f_equal (fun x => x.1.1.1.1) H).
  - exact (f_equal (fun x => x.1.1.1.2) H).
  - exact (f_equal (fun x => x.1.1.2) H).
  - exact (f_equal (fun x => x.1.2) H).
  - exact (f_equal (fun x => x.2) H).
Qed.

(** The [try] block of a round that accepts a connection. *)
Lemma handle_and_count connection client_address w :
  (handle_request connection client_address ;;
   n <- gets requests ;; modify (set_requests (n + 1)))%monad w
  = match handle_request connection client_address w with
    | Ok _ w1 => Ok tt (set_requests (requests w1 + 1) w1)
    | Raise e w1 => Raise e w1
    end.
Proof.
  unfold bind, gets, modify.
  by destruct (handle_request connection client_address w).
Qed.

(** X15. A round that accepts a connection closes it, whatever
    becomes of the request. When [handle_request] returns, the
    request is counted; when it raises [socket.error], the error is
    counted and the round ends normally; when it raises anything
    else, neither counter moves and the exception leaves the round.
    The worker's set-up, its [alive] flag and its self-pipe are as
    before. *)
Theorem X15_serve_closes_and_counts connection client_address w :
  let r := serve (Accepts connection client_address) w in
  let w' := state_of r in
  closed (IOStream.socket (stream w')) = true /\
  setup w' = setup w /\ alive w' = alive w /\ wpipe w' = wpipe w /\
  match handle_request connection client_address w with
  | Ok _ _ =>
      r = Ok tt w' /\
      requests w' = (requests w + 1)%nat /\ errors w' = errors w
  | Raise (SocketError _) _ =>
      r = Ok tt w' /\
      requests w' = requests w /\ errors w' = (errors w + 1)%nat
  | Raise e _ =>
      r = Raise e w' /\ requests w' = requests w /\ errors w' = errors w
  end.
Proof.
  cbv zeta. unfold serve. rewrite handle_and_count.
  pose proof (steady_handle_request connection client_address w) as Hk.
  destruct (handle_request connection client_address w) as [[] w1|e w1];
    cbn [state_of] in Hk; apply steady_inv in Hk as (H1 & H2 & H3 & H4 & H5).
  - cbn. destruct w1. cbn in *. by subst.
  - destruct e; cbn [state_of];
      try (destruct w1; cbn in *; by subst).
    destruct (decide (errno = EPIPE)); [|destruct (decide (errno = EINTR))];
      destruct w1; cbn in *; by subst.
Qed.

(** A round leaves the set-up alone and moves the counters up by one
    in all at most. *)
Lemma round_frame sel acc socks w :
  let w' := state_of (round sel acc socks w) in
  setup w' = setup w /\ alive w' = alive w /\
  (requests w <= requests w')%nat /\ (errors w <= errors w')%nat /\
  (requests w' + errors w' <= requests w + errors w + 1)%nat.
Proof.
  cbv zeta.
  assert (let w' := state_of (serve acc w) in
          setup w' = setup w /\ alive w' = alive w /\
          (requests w <= requests w')%nat /\ (errors w <= errors w')%nat /\
          (requests w' + errors w' <= requests w + errors w + 1)%nat)
    as Hserve.
  { cbv zeta. destruct acc as [errno|connection client_address].
    - unfold serve.
      destruct (decide (errno = EPIPE)); [|destruct (decide (errno = EINTR))];
        destruct w; cbn; split_and!; try done; lia.
    - unfold serve. rewrite handle_and_count.
      pose proof (steady_handle_request connection client_address w) as Hk.
      destruct (handle_request connection client_address w) as [[] w1|e w1];
        cbn [state_of] in Hk;
        apply steady_inv in Hk as (H1 & H2 & H3 & H4 & H5).
      + destruct w1. cbn in *. subst. split_and!; try done; lia.
      + destruct e; cbn [state_of];
          try (destruct w1; cbn in *; subst; split_and!; try done; lia).
        destruct (decide (errno = EPIPE)); [|destruct (decide (errno = EINTR))];
          destruct w1; cbn in *; subst; split_and!; try done; lia. }
  cbv zeta in Hserve.
  assert (forall socks0 : option bool,
            let w' := state_of
                        (match socks0 with
                         | None => raise (NameError "socks")
                         | Some true => serve acc ;; ret (Continue, socks0)
                         | Some false => ret (Continue, socks0)
                         end w) in
            setup w' = setup w /\ alive w' = alive w /\
            (requests w <= requests w')%nat /\ (errors w <= errors w')%nat /\
            (requests w' + errors w' <= requests w + errors w + 1)%nat)
    as Hafter.
  { intros [[|]|]; cbv zeta; cbn [raise ret state_of];
      try (split_and!; try done; lia).
    unfold bind. by destruct (serve acc w). }
  unfold round. destruct sel as [errno|ready]; [|exact (Hafter (Some ready))].
  destruct (decide (errno = EINTR)); [cbn; split_and!; try done; lia|].
  destruct (decide (errno = EBADF)); [|exact (Hafter socks)].
  destruct w; cbn; split_and!; try done; lia.
Qed.

Lemma no_exit_round sel acc socks : no_exit (round sel acc socks).
Proof.
  assert (no_exit (serve acc)) as Hserve.
  { intros w e w'. unfold serve.
    destruct acc as [errno|connection client_address].
    - destruct (decide (errno = EPIPE)); [|destruct (decide (errno = EINTR))];
        done.
    - rewrite handle_and_count.
      destruct (handle_request connection client_address w) as [[] w1|e1 w1]
        eqn:E; [done|].
      apply no_exit_handle_request in E.
      destruct e1; try (intros [= <- _]; done).
      destruct (decide (errno = EPIPE)); [|destruct (decide (errno = EINTR))];
        done. }
  assert (forall socks0 : option bool,
            no_exit (match socks0 with
                     | None => raise (NameError "socks")
                     | Some true => serve acc ;; ret (Continue, socks0)
                     | Some false => ret (Continue, socks0)
                     end)) as Hafter.
  { intros [[|]|].
    - apply no_exit_bind; [done|intros; apply no_exit_ret].
    - apply no_exit_ret.
    - apply no_exit_raise. discriminate. }
  unfold round. destruct sel as [errno|ready]; [|exact (Hafter (Some ready))].
  destruct (decide (errno = EINTR)); [apply no_exit_ret|].
  destruct (decide (errno = EBADF)); [|exact (Hafter socks)].
  apply no_exit_bind; [apply no_exit_modify|intros; apply no_exit_ret].
Qed.



(** The loop goes over a sequence of events as over its parts. *)
Lemma loop_app pre rest socks w :
  loop (pre ++ rest) socks w
  = match loop pre socks w with
    | Waiting socks' w' => loop rest socks' w'
    | other => other
    end.
Proof.
  revert socks w. induction pre as [|ev pre IH]; intros socks w.
  - change ([] ++ rest) with rest. cbn [loop].
    destruct (alive w) eqn:Ha; [done|].
    destruct rest; cbn [loop]; by rewrite Ha.
  - rewrite <- app_comm_cons. cbn [loop]. destruct (alive w); [|done].
    destruct ev as [sel acc|[| |]]; [|apply IH|done|done].
    destruct (round sel acc socks w) as [[[|] socks'] w1|e w1];
      [apply IH|done|by destruct e].
Qed.

Lemma loop_waiting_alive events socks w socks' w' :
  loop events socks w = Waiting socks' w' -> alive w' = true.
Proof.
  revert socks w. induction events as [|ev events IH]; intros socks w.
  - cbn [loop]. destruct (alive w) eqn:Ha; [by intros [= _ <-]|done].
  - cbn [loop]. destruct (alive w); [|done].
    destruct ev as [sel acc|[| |]]; [|apply IH|done|done].
    destruct (round sel acc socks w) as [[[|] socks1] w1|e w1];
      [apply IH|done|by destruct e].
Qed.

(** X17. A signal that arrives while the worker waits in its loop
    ends the process with status 0, whatever was served before and
    whatever would have come after. On [SIGQUIT] the worker writes
    one byte to its self-pipe and logs that it shuts down; on
    [SIGINT] and [SIGTERM] it exits at once. No request is served
    after the signal. *)
Theorem X17_signal_ends_worker pre sig rest socks w socks' w' :
  loop pre socks w = Waiting socks' w' ->
  loop (pre ++ Signal sig :: rest) socks w
  = match sig with
    | SIGQUIT =>
        Exited 0 (log (LogInfo "Worker shutting down")
                      (set_wpipe (wpipe w' +:+ ".") (set_alive false w')))
    | _ => Exited 0 w'
    end.
Proof.
  intros Hpre. rewrite loop_app, Hpre.
  assert (loop (Signal sig :: rest) socks' w'
          = match sig with
            | SIGQUIT => loop rest socks' (die_gracefully w')
            | _ => Exited 0 w'
            end) as ->.
  { cbn [loop]. by rewrite (loop_waiting_alive _ _ _ _ _ Hpre). }
  destruct sig; try done.
  unfold die_gracefully. by destruct rest, w'.
Qed.

Lemma X17_signal_ends_worker_witness :
  exists w',
    loop ([Round (SelectReturns false) (AcceptRaises EINTR)] ++
          Signal SIGQUIT ::
          [Round (SelectReturns true)
             (Accepts (sample_peer ["GET / HTTP/1.0" +:+ CRLF +:+ CRLF])
                      (AddrInet "10.0.0.9" 4711))])
         None (sample_worker demo_app (sample_peer []))
    = Exited 0 w' /\ requests w' = 0%nat /\ wpipe w' = ".".
Proof.
  eexists. split; [|split].
  - exact (X17_signal_ends_worker
             [Round (SelectReturns false) (AcceptRaises EINTR)] SIGQUIT _
             None (sample_worker demo_app (sample_peer [])) _ _ eq_refl).
  - reflexivity.
  - reflexivity.
Defined.

(** X18. Over any sequence of events the accept loop leaves the
    worker's set-up (configuration, application, access-log switch,
    base environment) as it is; the request and error counters never
    go down, and together they go up by no more than the number of
    rounds. *)
Theorem X18_accept_loop_invariants events socks w :
  let w' := worker_of (loop events socks w) in
  setup w' = setup w /\
  (requests w <= requests w')%nat /\ (errors w <= errors w')%nat /\
  (requests w' + errors w' <= requests w + errors w + rounds events)%nat.
Proof.
  cbv zeta. revert socks w.
  induction events as [|ev events IH]; intros socks w.
  - cbn [loop]. destruct (alive w); [cbn; split_and!; try done; lia|].
    destruct w; cbn; split_and!; try done; lia.
  - cbn [loop]. destruct (alive w);
      [|destruct w; cbn; split_and!; try done; lia].
    destruct ev as [sel acc|sig].
    + pose proof (round_frame sel acc socks w) as Hr. cbv zeta in Hr.
      cbn [rounds].
      destruct (round sel acc socks w) as [[[|] socks'] w1|e w1];
        cbn [state_of] in Hr; destruct Hr as (R1 & R2 & R3 & R4 & R5).
      * destruct (IH socks' w1) as (I1 & I2 & I3 & I4).
        split_and!; [congruence|lia|lia|lia].
      * destruct w1; cbn in *. split_and!; [done|lia|lia|lia].
      * assert (worker_of (match e with
                           | SystemExit code => Exited code w1
                           | _ => Crashed e w1
                           end) = w1) as -> by (by destruct e).
        split_and!; [done|lia|lia|lia].
    + cbn [rounds]. destruct sig; try (cbn; split_and!; try done; lia).
      destruct (IH socks (die_gracefully w)) as (I1 & I2 & I3 & I4).
      destruct w; cbn in *. split_and!; [done|lia|lia|lia].
Qed.

End AcceptLoop.

(** ** The manager process *)

Section ManagerMore.

Import HornedManager.

Implicit Types (m : HornedManager.t) (pid : positive)
  (waitpid : waitpid_result) (l todo kept : list positive)
  (ticks : list tick).

Lemma remove_app_notin pid kept rest :
  pid ∉ kept -> remove pid (kept ++ pid :: rest) = kept ++ rest.
Proof.
  induction kept as [|p kept IH]; intros Hnot.
  - change ([] ++ pid :: rest) with (pid :: rest). cbn [remove].
    by rewrite decide_True.
  - rewrite <- !app_comm_cons. cbn [remove].
    rewrite decide_False; [|set_solver]. f_equal. apply IH. set_solver.
Qed.

Lemma running_cons_None waitpid pid l :
  waitpid pid = None -> running waitpid (pid :: l) = pid :: running waitpid l.
Proof. intros H. unfold running. by rewrite filter_cons_True. Qed.

Lemma running_cons_Some waitpid pid l status :
  waitpid pid = Some status -> running waitpid (pid :: l) = running waitpid l.
Proof.
  intros H. unfold running. rewrite filter_cons_False; [done|]. by rewrite H.
Qed.

Lemma dead_cons_None waitpid pid l :
  waitpid pid = None -> dead waitpid (pid :: l) = dead waitpid l.
Proof.
  intros H. unfold dead. rewrite filter_cons_False; [done|].
  rewrite H. by intros [? ?].
Qed.

Lemma dead_cons_Some waitpid pid l status :
  waitpid pid = Some status -> dead waitpid (pid :: l) = pid :: dead waitpid l.
Proof.
  intros H. unfold dead. rewrite filter_cons_True; [done|]. by rewrite H.
Qed.

Lemma running_dead_length waitpid l :
  (length (running waitpid l) + length (dead waitpid l) = length l)%nat.
Proof.
  induction l as [|pid l IH]; [done|].
  destruct (waitpid pid) as [status|] eqn:E.
  - rewrite (running_cons_Some _ _ _ _ E), (dead_cons_Some _ _ _ _ E).
    cbn [length]. lia.
  - rewrite (running_cons_None _ _ _ E), (dead_cons_None _ _ _ E).
    cbn [length]. lia.
Qed.

(** The loop of [cleanup_workers] over the rest [todo] of the
    snapshot, [kept] being the workers it has passed and left in. *)
Lemma cleanup_loop_spec waitpid todo kept m :
  workers m = kept ++ todo ->
  Forall (fun pid => waitpid pid = None) kept ->
  cleanup_loop waitpid todo m
  = Mk (worker_processes m) (kept ++ running waitpid todo) (alive m)
       (logged m ++
        ((fun pid => LogInfo ("Worker #" +:+ pid_str pid +:+ " died."))
           <$> dead waitpid todo))
       (killed m) (forks m).
Proof.
  revert kept m. induction todo as [|pid todo IH]; intros kept m Hw Hkept.
  - cbn [cleanup_loop]. unfold running, dead. cbn. rewrite !app_nil_r.
    rewrite app_nil_r in Hw. destruct m; cbn in *. by subst.
  - cbn [cleanup_loop]. destruct (waitpid pid) as [status|] eqn:E.
    + rewrite (running_cons_Some _ _ _ _ E), (dead_cons_Some _ _ _ _ E).
      rewrite (IH kept); [| |done].
      * destruct m; cbn. by rewrite <- app_assoc.
      * destruct m; cbn in *. subst. apply remove_app_notin.
        intros Hin. rewrite Forall_forall in Hkept.
        specialize (Hkept _ Hin). cbn in Hkept. congruence.
    + rewrite (running_cons_None _ _ _ E), (dead_cons_None _ _ _ E).
      rewrite (IH (kept ++ [pid])).
      * by rewrite <- app_assoc.
      * by rewrite <- app_assoc.
      * apply Forall_app. split; [done|]. by apply Forall_singleton.
Qed.

(** The same for the loop of [reap_workers], which logs nothing. *)
Lemma wait_loop_spec waitpid todo kept m :
  workers m = kept ++ todo ->
  Forall (fun pid => waitpid pid = None) kept ->
  wait_loop waitpid todo m = set_workers (kept ++ running waitpid todo) m.
Proof.
  revert kept m. induction todo as [|pid todo IH]; intros kept m Hw Hkept.
  - cbn [wait_loop]. unfold running. cbn. rewrite app_nil_r.
    rewrite app_nil_r in Hw. destruct m; cbn in *. by subst.
  - cbn [wait_loop]. destruct (waitpid pid) as [status|] eqn:E.
    + rewrite (running_cons_Some _ _ _ _ E).
      rewrite (IH kept); [| |done].
      * by destruct m.
      * destruct m; cbn in *. subst. apply remove_app_notin.
        intros Hin. rewrite Forall_forall in Hkept.
        specialize (Hkept _ Hin). cbn in Hkept. congruence.
    + rewrite (running_cons_None _ _ _ E).
      rewrite (IH (kept ++ [pid])).
      * by rewrite <- app_assoc.
      * by rewrite <- app_assoc.
      * apply Forall_app. split; [done|]. by apply Forall_singleton.
Qed.

(** X19. [cleanup_workers] takes out of the set exactly the workers
    whose [waitpid] reports an exit, in one sweep, although it removes
    from the set while it goes over a copy of it; it logs one line
    for each of them, in the order of the sweep, and touches nothing
    else. *)
Theorem X19_cleanup_workers waitpid m :
  cleanup_workers waitpid m
  = Mk (worker_processes m) (running waitpid (workers m)) (alive m)
       (logged m ++
        ((fun pid => LogInfo ("Worker #" +:+ pid_str pid +:+ " died."))
           <$> dead waitpid (workers m)))
       (killed m) (forks m).
Proof.
  unfold cleanup_workers. by rewrite (cleanup_loop_spec waitpid _ []).
Qed.

Lemma stop_loop_spec l m :
  foldl (fun m pid => worker_die_gracefully pid m) m l
  = Mk (worker_processes m) (workers m) (alive m)
       (logged m ++
        ((fun pid => LogInfo ("Sending SIGQUIT to worker #" +:+ pid_str pid))
           <$> l))
       (killed m ++
        ((fun pid => (pid, HornedWorkerProcess.SIGQUIT)) <$> l))
       (forks m).
Proof.
  revert m. induction l as [|pid l IH]; intros m.
  - cbn. rewrite !app_nil_r. by destruct m.
  - cbn [foldl]. rewrite IH. destruct m; cbn. by rewrite <- !app_assoc.
Qed.

Lemma term_loop_spec l m :
  foldl (fun m pid => worker_die_immediately pid m) m l
  = Mk (worker_processes m) (workers m) (alive m)
       (logged m ++
        ((fun pid => LogInfo ("Sending SIGTERM to worker #" +:+ pid_str pid))
           <$> l))
       (killed m ++
        ((fun pid => (pid, HornedWorkerProcess.SIGTERM)) <$> l))
       (forks m).
Proof.
  revert m. induction l as [|pid l IH]; intros m.
  - cbn. rewrite !app_nil_r. by destruct m.
  - cbn [foldl]. rewrite IH. destruct m; cbn. by rewrite <- !app_assoc.
Qed.

(** What [reap_workers] leaves as it is. *)
Lemma reap_workers_cons tick ticks m :
  workers m <> [] ->
  reap_workers (tick :: ticks) m
  = if late tick then Crashed (AttributeError "children") m
    else reap_workers ticks (set_workers (running (waited tick) (workers m)) m).
Proof.
  intros Hw.
  pose proof (wait_loop_spec (waited tick) (workers m) [] m eq_refl
                (Forall_nil_2 _)) as Hwl.
  change ([] ++ running (waited tick) (workers m))
    with (running (waited tick) (workers m)) in Hwl.
  cbn [reap_workers]. destruct (workers m) eqn:E; [done|].
  by rewrite Hwl.
Qed.

Lemma reap_workers_nil ticks m : workers m = [] -> reap_workers ticks m = Returned m.
Proof. intros Hw. destruct ticks; cbn [reap_workers]; by rewrite Hw. Qed.

Lemma running_subseteq waitpid l : running waitpid l ⊆ l.
Proof. intros x Hx. unfold running in Hx. by apply list_elem_of_filter in Hx as [_ ?]. Qed.

(** What [reap_workers] leaves as it is. *)
Lemma reap_workers_frame ticks m :
  let m' := manager_of (reap_workers ticks m) in
  worker_processes m' = worker_processes m /\ alive m' = alive m /\
  logged m' = logged m /\ killed m' = killed m /\ forks m' = forks m /\
  workers m' ⊆ workers m.
Proof.
  cbv zeta. revert m. induction ticks as [|tick ticks IH]; intros m.
  - destruct m as [? [|pid l] ? ? ? ?]; cbn; by split_and!.
  - destruct (decide (workers m = [])) as [Hw|Hw].
    { rewrite (reap_workers_nil _ _ Hw). cbn. by split_and!. }
    rewrite (reap_workers_cons _ _ _ Hw).
    destruct (late tick); [cbn; by split_and!|].
    destruct (IH (set_workers (running (waited tick) (workers m)) m))
      as (I1 & I2 & I3 & I4 & I5 & I6).
    split_and!; try (by destruct m).
    etrans; [exact I6|]. destruct m; cbn. apply running_subseteq.
Qed.

(** How [reap_workers] can end. *)
Lemma reap_workers_outcome ticks m :
  match reap_workers ticks m with
  | Returned m' => workers m' = []
  | Reaping m' =>
      workers m' <> [] /\ Forall (fun tick => late tick = false) ticks
  | Crashed e m' =>
      e = AttributeError "children" /\ workers m' <> [] /\
      Exists (fun tick => late tick = true) ticks
  | Looping _ | Exited _ _ => False
  end.
Proof.
  revert m. induction ticks as [|tick ticks IH]; intros m.
  - destruct m as [? [|pid l] ? ? ? ?]; cbn; [done|]. by split.
  - destruct (decide (workers m = [])) as [Hw|Hw].
    { by rewrite (reap_workers_nil _ _ Hw). }
    rewrite (reap_workers_cons _ _ _ Hw).
    destruct (late tick) eqn:Hlate.
    + split_and!; [done|done|]. by apply Exists_cons_hd.
    + specialize (IH (set_workers (running (waited tick) (workers m)) m)).
      destruct (reap_workers ticks
                  (set_workers (running (waited tick) (workers m)) m));
        try done.
      * destruct IH as [? ?]. split; [done|]. by apply Forall_cons.
      * destruct IH as (? & ? & ?). split_and!; try done.
        by apply Exists_cons_tl.
Qed.

(** X20. [reap_workers] returns only with the set of workers empty.
    Once the ten seconds are over with a worker left it does not log
    that children will not die and give up: it raises
    [AttributeError], for [self.children]. Until then it goes on
    waiting. It logs nothing, sends no signal and forks nothing. *)
Theorem X20_reap_workers ticks m :
  let out := reap_workers ticks m in
  logged (manager_of out) = logged m /\
  killed (manager_of out) = killed m /\
  forks (manager_of out) = forks m /\
  workers (manager_of out) ⊆ workers m /\
  match out with
  | Returned m' => workers m' = []
  | Reaping m' =>
      workers m' <> [] /\ Forall (fun tick => late tick = false) ticks
  | Crashed e m' =>
      e = AttributeError "children" /\ workers m' <> [] /\
      Exists (fun tick => late tick = true) ticks
  | Looping _ | Exited _ _ => False
  end.
Proof.
  cbv zeta.
  destruct (reap_workers_frame ticks m) as (_ & _ & F1 & F2 & F3 & F4).
  split_and!; try done. apply reap_workers_outcome.
Qed.

Section Process.

Variable fork : nat -> positive.

Lemma spawn_loop_enough fuel m :
  (worker_processes m - length (workers m) <= fuel)%nat ->
  spawn_loop fork fuel m
  = Some (Mk (worker_processes m)
             (workers m ++
              (fork <$> seq (forks m)
                            (worker_processes m - length (workers m))))
             (alive m)
             (logged m ++
              ((fun i => LogInfo ("Spawned worker #" +:+ pid_str (fork i)
                                  +:+ "."))
                 <$> seq (forks m)
                         (worker_processes m - length (workers m))))
             (killed m)
             (forks m + (worker_processes m - length (workers m)))).
Proof.
  revert m. induction fuel as [|fuel IH]; intros m Hfuel.
  - cbn [spawn_loop].
    destruct (length (workers m) <? worker_processes m)%nat eqn:E.
    { apply Nat.ltb_lt in E. lia. }
    apply Nat.ltb_ge in E.
    replace (worker_processes m - length (workers m))%nat with 0%nat by lia.
    cbn. rewrite !app_nil_r, Nat.add_0_r. by destruct m.
  - cbn [spawn_loop].
    destruct (length (workers m) <? worker_processes m)%nat eqn:E.
    + apply Nat.ltb_lt in E. unfold worker_run.
      rewrite IH.
      * destruct m as [wp ws al lg kl fk]. cbn in *.
        rewrite length_app. cbn [length].
        replace (wp - length ws)%nat with (S (wp - (length ws + 1)))%nat
          by lia.
        cbn [seq fmap list_fmap]. rewrite <- !app_assoc. cbn.
        do 2 f_equal. lia.
      * destruct m as [wp ws al lg kl fk]. cbn in *.
        rewrite length_app. cbn [length]. lia.
    + apply Nat.ltb_ge in E.
      replace (worker_processes m - length (workers m))%nat with 0%nat by lia.
      cbn. rewrite !app_nil_r, Nat.add_0_r. by destruct m.
Qed.


Lemma shut_down_not_looping ticks m m' : shut_down ticks m <> Looping m'.
Proof.
  unfold shut_down. pose proof (reap_workers_outcome ticks (stop_workers m)) as H.
  by destruct (reap_workers ticks (stop_workers m)).
Qed.

Lemma manager_loop_not_alive events ticks m :
  alive m = false -> loop fork events ticks m = shut_down ticks m.
Proof. intros Ha. destruct events; cbn [loop]; by rewrite Ha. Qed.

Lemma manager_loop_app pre rest ticks m :
  loop fork (pre ++ rest) ticks m
  = match loop fork pre ticks m with
    | Looping m' => loop fork rest ticks m'
    | other => other
    end.
Proof.
  assert (forall m0, shut_down ticks m0
                     = match shut_down ticks m0 with
                       | Looping m' => loop fork rest ticks m'
                       | other => other
                       end) as Hdown.
  { intros m0. destruct (shut_down ticks m0) eqn:E; try done.
    by apply shut_down_not_looping in E. }
  revert m. induction pre as [|ev pre IH]; intros m.
  - change ([] ++ rest) with rest.
    destruct (alive m) eqn:Ha.
    + cbn [loop]. rewrite Ha. done.
    + rewrite !manager_loop_not_alive by done. apply Hdown.
  - rewrite <- app_comm_cons.
    destruct (alive m) eqn:Ha; [|rewrite !manager_loop_not_alive by done; apply Hdown].
    cbn [loop]. rewrite Ha.
    destruct ev as [waitpid|[| |]]; [apply IH|apply IH|done|done].
Qed.

Lemma manager_loop_looping events ticks m m' :
  loop fork events ticks m = Looping m' ->
  alive m' = true /\
  Forall (fun ev => match ev with Iteration _ => True | _ => False end) events.
Proof.
  revert m. induction events as [|ev events IH]; intros m.
  - cbn [loop]. destruct (alive m) eqn:Ha.
    + intros [= <-]. by split.
    + intros H. by apply shut_down_not_looping in H.
  - cbn [loop]. destruct (alive m) eqn:Ha.
    + destruct ev as [waitpid|[| |]]; try done.
      * intros H. apply IH in H as [? ?]. split; [done|]. by apply Forall_cons.
      * rewrite manager_loop_not_alive; [|by destruct m].
        intros H. by apply shut_down_not_looping in H.
    + intros H. by apply shut_down_not_looping in H.
Qed.

(** One pass of the manager's loop over a set that is not over the
    limit leaves it with [worker_processes] workers. *)
Lemma iteration_fills waitpid m :
  (length (workers m) <= worker_processes m)%nat ->
  let m' := spawn_workers fork (cleanup_workers waitpid m) in
  length (workers m') = worker_processes m /\
  worker_processes m' = worker_processes m /\
  alive m' = alive m /\ killed m' = killed m.
Proof.
  intros Hle. cbv zeta. unfold cleanup_workers, spawn_workers.
  rewrite (cleanup_loop_spec waitpid _ [] m eq_refl (Forall_nil_2 _)).
  rewrite (spawn_loop_enough _ _ (Nat.le_refl _)).
  change ([] ++ running waitpid (workers m))
    with (running waitpid (workers m)).
  cbn. split_and!; try done.
  rewrite length_app, length_fmap, length_seq.
  pose proof (running_dead_length waitpid (workers m)). lia.
Qed.

Lemma manager_loop_full events ticks m m' :
  length (workers m) = worker_processes m ->
  loop fork events ticks m = Looping m' ->
  length (workers m') = worker_processes m /\
  worker_processes m' = worker_processes m /\
  killed m' = killed m.
Proof.
  revert m. induction events as [|ev events IH]; intros m Hfull.
  - cbn [loop]. destruct (alive m) eqn:Ha.
    + by intros [= <-].
    + intros H. by apply shut_down_not_looping in H.
  - destruct (alive m) eqn:Ha;
      [|rewrite manager_loop_not_alive by done; intros H;
        by apply shut_down_not_looping in H].
    cbn [loop]. rewrite Ha. destruct ev as [waitpid|[| |]]; try done.
    + destruct (iteration_fills waitpid m) as (F1 & F2 & F3 & F4); [lia|].
      intros H. apply IH in H as (I1 & I2 & I3); [|congruence].
      split_and!; congruence.
    + rewrite manager_loop_not_alive by (by destruct m).
      intros H. by apply shut_down_not_looping in H.
Qed.

(** X22. While the manager loops, every pass fills the set of workers
    up again: after one pass or more it holds exactly
    [worker_processes] workers, however many have died; and the
    manager has sent no signal. *)
Theorem X22_pool_kept_full waitpid events ticks m m' :
  (length (workers m) <= worker_processes m)%nat ->
  loop fork (Iteration waitpid :: events) ticks m = Looping m' ->
  length (workers m') = worker_processes m /\
  worker_processes m' = worker_processes m /\
  killed m' = killed m.
Proof.
  intros Hle H.
  destruct (alive m) eqn:Ha;
    [|rewrite manager_loop_not_alive in H by done;
      by apply shut_down_not_looping in H].
  cbn [loop] in H. rewrite Ha in H.
  destruct (iteration_fills waitpid m Hle) as (F1 & F2 & F3 & F4).
  apply manager_loop_full in H as (I1 & I2 & I3); [|congruence].
  split_and!; congruence.
Qed.



End Process.

End ManagerMore.

Lemma X22_pool_kept_full_witness :
  match HornedManager.loop Pos.of_succ_nat
          [HornedManager.Iteration (fun _ => None);
           HornedManager.Iteration
             (fun pid => if decide (pid = 2%positive) then Some 0 else None)]
          []
          (HornedManager.__init__
             (MkConfig (AppCallable demo_app) 80 4 true None)) with
  | HornedManager.Looping m' =>
      length (HornedManager.workers m') = 4%nat /\
      HornedManager.forks m' = 5%nat
  | _ => False
  end.
Proof.
  destruct (HornedManager.loop Pos.of_succ_nat
              [HornedManager.Iteration (fun _ => None);
               HornedManager.Iteration
                 (fun pid =>
                    if decide (pid = 2%positive) then Some 0 else None)]
              []
              (HornedManager.__init__
                 (MkConfig (AppCallable demo_app) 80 4 true None)))
    as [m'|m'|m'|code m'|e m'] eqn:E;
    try (vm_compute in E; discriminate E).
  split.
  - exact (proj1 (X22_pool_kept_full Pos.of_succ_nat _ _ []
                    (HornedManager.__init__
                       (MkConfig (AppCallable demo_app) 80 4 true None))
                    m' (Nat.le_0_l 4) E)).
  - vm_compute in E. by injection E as <-.
Defined.


